(** * The draughts / checkers board state machine

    A shallow embedding of [src/draughts/base.py] and [src/checkers/base.py]:
    the position buffer (a numpy [int8] array), the move stack, the
    reversible [push] / [pop] engine with its promotion rule, the geometry
    check of [__init__], the threefold-repetition predicate and the FEN
    codec ([fen], [from_fen]).

    Python objects are mutated in place and may raise half-way through a
    method, so every method is a computation [Board -> Board * outcome A]:
    the board returned next to a [Raise] is the board as the exception
    leaves it. A move is an object too: the stack holds the objects the
    callers pushed, so a record of a move carries the identity of its
    object, and an assignment to the object shows wherever the object is. *)

From Stdlib Require Import ZArith List Ascii String Bool Lia DecimalNat Sorted.
From stdpp Require Import base tactics option list.
Import ListNotations.

Local Open Scope Z_scope.

(** ** The enumerations of [models.py] *)

(** [Color] has exactly two members. *)
Inductive Color : Type := WHITE | BLACK.

Definition Color_eqb (a b : Color) : bool :=
  match a, b with
  | WHITE, WHITE | BLACK, BLACK => true
  | _, _ => false
  end.

(** The module [models.py] is not part of the sources at hand; the integer
    values of its enumerations are therefore taken as a parameter.
    [Color_value c] is [c.value]; the four next fields are
    [Figure.WHITE_MAN.value], [Figure.BLACK_MAN.value], [Figure.KING.value]
    (the promotion multiplier) and [Figure.EMPTY]. [Entity_member v] tells
    whether the enumeration [Entity] of [checkers/models.py] has a member of
    value [v]: the call [Entity(v)] raises [ValueError] when it has none. *)
Record Models : Type := {
  Color_value : Color -> Z;
  WHITE_MAN : Z;
  BLACK_MAN : Z;
  KING : Z;
  EMPTY : Z;
  Entity_member : Z -> bool
}.

(** The values every piece of [base.py] agrees with: the default
    [STARTING_POSITION] puts [1] on the squares of rows 0-2 and [-1] on those
    of rows 5-7, [push] promotes the white man on row 0, and [fen] lists the
    negative cells after [W] and tells a king by [< -1] / [> 1]. Nothing in
    [base.py] tells the members of [Entity]; they are taken to be the empty
    square, the two men and two kings of magnitude 10, so that the draughts
    king [2] is none of them. *)
Definition repo_models : Models := {|
  Color_value := fun c => match c with WHITE => -1 | BLACK => 1 end;
  WHITE_MAN := -1;
  BLACK_MAN := 1;
  KING := 2;
  EMPTY := 0;
  Entity_member := fun v =>
    (v =? 0) || (v =? 1) || (v =? -1) || (v =? 10) || (v =? -10)
|}.

(** ** Exceptions and the state monad of a board method *)

Inductive exn : Type :=
  | IndexError | ValueError | AttributeError | ZeroDivisionError.

Inductive outcome (A : Type) : Type :=
  | Return (a : A)
  | Raise (e : exn).
Arguments Return {A} a.
Arguments Raise {A} e.

(** ** Moves and boards *)

(** A [Move] is a mutable object. The caller of [push] and the move stack
    hold the object itself, not a copy, and one object can be pushed more
    than once; [push] sets [is_promotion] on the object. [obj] is the
    identity of the object ([id(move)]): two records with the same [obj]
    stand for the same object, seen from two places. *)
Record Move : Type := {
  obj : nat;
  square_list : list Z;
  captured_list : list Z;
  captured_entities : list Z;
  is_promotion : bool
}.

Definition set_is_promotion (m : Move) (f : bool) : Move :=
  {| obj := obj m;
     square_list := square_list m;
     captured_list := captured_list m;
     captured_entities := captured_entities m;
     is_promotion := f |}.

(** [move.is_promotion = True] as the holders of the object [o] see it:
    every entry of the list that is this object carries the flag. *)
Definition flag_object (o : nat) (st : list Move) : list Move :=
  map (fun x => if Nat.eqb (obj x) o then set_is_promotion x true else x) st.

(** [shape] is always [(size, size)]; only [shape[0]] is read. *)
Record Board : Type := {
  _pos : list Z;
  turn : Color;
  shape : Z * Z;
  _moves_stack : list Move
}.

Definition with_pos (b : Board) (p : list Z) : Board :=
  {| _pos := p; turn := turn b; shape := shape b; _moves_stack := _moves_stack b |}.
Definition with_turn (b : Board) (c : Color) : Board :=
  {| _pos := _pos b; turn := c; shape := shape b; _moves_stack := _moves_stack b |}.
Definition with_stack (b : Board) (s : list Move) : Board :=
  {| _pos := _pos b; turn := turn b; shape := shape b; _moves_stack := s |}.

(** A method over the mutable state [S] (a board, or the class object). *)
Definition M (S A : Type) : Type := S -> S * outcome A.

Definition ret {S A} (a : A) : M S A := fun s => (s, Return a).
Definition raise {S A} (e : exn) : M S A := fun s => (s, Raise e).
Definition bind {S A B} (c : M S A) (k : A -> M S B) : M S B :=
  fun s => match c s with
           | (s', Return a) => k a s'
           | (s', Raise e) => (s', Raise e)
           end.
Definition get {S} : M S S := fun s => (s, Return s).
Definition modify {S} (f : S -> S) : M S unit := fun s => (f s, Return tt).
Definition lift {S A} (o : option A) (e : exn) : M S A :=
  match o with Some a => ret a | None => raise e end.
Definition lift_outcome {S A} (o : outcome A) : M S A := fun s => (s, o).

Notation "x <- c ;; k" := (bind c (fun x => k))
  (at level 90, c at level 80, right associativity).
Notation "c ;;; k" := (bind c (fun _ => k))
  (at level 90, right associativity).

(** ** Integer cells and Python indexing *)

(** A cell of the [np.int8] buffer holds a value of [-128 .. 127]; a store
    or an in-place operation wraps around. *)
Definition wrap8 (z : Z) : Z := (z + 128) mod 256 - 128.

Definition int8 (z : Z) : Prop := -128 <= z <= 127.

(** [index len i]: the position a Python or numpy subscript [i] denotes in a
    sequence of length [len]; a negative subscript counts from the end, and
    anything outside [-len .. len-1] is an [IndexError]. *)
Definition index (len : nat) (i : Z) : option nat :=
  if (0 <=? i) && (i <? Z.of_nat len) then Some (Z.to_nat i)
  else if (- Z.of_nat len <=? i) && (i <? 0) then Some (Z.to_nat (i + Z.of_nat len))
  else None.

(** [l[i]] on a Python list. *)
Definition list_getitem {A} (l : list A) (i : Z) : option A :=
  k ← index (length l) i; l !! k.

(** [a[i]] and [a[i] = v] on an [int8] array. *)
Definition array_get (a : list Z) (i : Z) : option Z := list_getitem a i.

Definition array_set (a : list Z) (i : Z) (v : Z) : option (list Z) :=
  k ← index (length a) i; Some (<[k := wrap8 v]> a).

(** [a[np.array(idx)] = v]: numpy checks every subscript before it writes
    any cell. *)
Definition array_set_fancy (a : list Z) (idx : list Z) (v : Z) : option (list Z) :=
  ks ← mapM (index (length a)) idx;
  Some (foldl (fun p k => <[k := wrap8 v]> p) a ks).

(** [self._pos[i]] *)
Definition getitem (i : Z) : M Board Z :=
  b <- get ;; lift (array_get (_pos b) i) IndexError.

(** [self._pos[i] = v] *)
Definition setitem (i : Z) (v : Z) : M Board unit :=
  b <- get ;;
  p <- lift (array_set (_pos b) i v) IndexError ;;
  modify (fun b => with_pos b p).

(** [self._pos[np.array(idx)] = v] *)
Definition setitem_fancy (idx : list Z) (v : Z) : M Board unit :=
  b <- get ;;
  p <- lift (array_set_fancy (_pos b) idx v) IndexError ;;
  modify (fun b => with_pos b p).

(** [Color.WHITE if self.turn == Color.BLACK else Color.BLACK] *)
Definition other_color (c : Color) : Color :=
  if Color_eqb c BLACK then WHITE else BLACK.

Definition switch_turn (is_finished : bool) : M Board unit :=
  if is_finished then modify (fun b => with_turn b (other_color (turn b))) else ret tt.

(** The loop [for sq, entity in zip(...): self._pos[sq] = entity] of [pop].
    An entity that fits no [int8] cell is wrapped around here, as numpy 1
    does; numpy 2 raises [OverflowError] instead, so the theorems on what
    [pop] raises take entities that fit a cell. *)
Fixpoint restore (l : list (Z * Z)) : M Board unit :=
  match l with
  | [] => ret tt
  | (sq, entity) :: l' => setitem sq entity ;;; restore l'
  end.

(** [self._moves_stack.pop()] *)
Definition stack_pop : M Board Move :=
  b <- get ;;
  match last (_moves_stack b) with
  | None => raise IndexError
  | Some move =>
      modify (fun b => with_stack b (removelast (_moves_stack b))) ;;;
      ret move
  end.

(** ** [draughts.base.BaseBoard]: [push] and [pop] *)

Module Draughts.
Section WithModels.
Variable F : Models.

(** [BaseBoard.__init__]; [starting_color] is the class attribute
    [STARTING_COLOR] at the time of the call. [np.sqrt] rounds correctly,
    so below 2^52 [int(np.sqrt(x))] is the integer square root. *)
Definition init (starting_color : Color) (starting_position : list Z)
  : outcome Board :=
  let len := Z.of_nat (length starting_position) in
  let size := Z.sqrt (len * 2) in
  if negb (size ^ 2 =? len * 2) then Raise ValueError
  else Return {| _pos := starting_position;
                 turn := starting_color;
                 shape := (size, size);
                 _moves_stack := [] |}.

(** The test of [push] that decides a promotion, on the board after the
    swap; [tg // (self.shape[0] // 2)] divides by zero first when the
    board has fewer than two rows. *)
Definition promotion_test (tg : Z) : M Board bool :=
  b <- get ;;
  let half := fst (shape b) / 2 in
  if half =? 0 then raise ZeroDivisionError
  else
    at_tg <- getitem tg ;;
    ret (((tg / half =? 0) && (at_tg =? WHITE_MAN F))
         || ((tg / half =? fst (shape b) - 1) && (at_tg =? BLACK_MAN F))).

(** [push] hands back the move as it leaves it: the caller's [Move] object
    is the one stored on the stack, with [is_promotion] possibly set. The
    assignment [move.is_promotion = True] is made on the object, so it shows
    in every entry of the stack that already is this object. *)
Definition push (move : Move) (is_finished : bool) : M Board Move :=
  src <- lift (list_getitem (square_list move) 0) IndexError ;;
  tg <- lift (list_getitem (square_list move) (-1)) IndexError ;;
  at_tg <- getitem tg ;;
  at_src <- getitem src ;;
  setitem src at_tg ;;;
  setitem tg at_src ;;;
  promo <- promotion_test tg ;;
  move <- (if promo : bool then
             v <- getitem tg ;;
             setitem tg (v * KING F) ;;;
             modify (fun b => with_stack b
                                (flag_object (obj move) (_moves_stack b))) ;;;
             ret (set_is_promotion move true)
           else ret move) ;;
  (match captured_list move with
   | [] => ret tt
   | _ :: _ => setitem_fancy (captured_list move) (EMPTY F)
   end) ;;;
  modify (fun b => with_stack b (_moves_stack b ++ [move])) ;;;
  switch_turn is_finished ;;;
  ret move.

Definition pop (is_finished : bool) : M Board Move :=
  move <- stack_pop ;;
  src <- lift (list_getitem (square_list move) 0) IndexError ;;
  tg <- lift (list_getitem (square_list move) (-1)) IndexError ;;
  (if is_promotion move then
     v <- getitem tg ;; setitem tg (v / KING F)
   else ret tt) ;;;
  at_tg <- getitem tg ;;
  at_src <- getitem src ;;
  setitem src at_tg ;;;
  setitem tg at_src ;;;
  restore (zip (captured_list move) (captured_entities move)) ;;;
  switch_turn is_finished ;;;
  ret move.

End WithModels.

(** [is_threefold_repetition]; the chained comparison [a == b == c] is
  [a == b and b == c]. *)
Definition is_threefold_repetition (b : Board) : bool :=
let st := _moves_stack b in
if (9 <=? Z.of_nat (length st)) then
  match list_getitem st (-1), list_getitem st (-5), list_getitem st (-9) with
  | Some m1, Some m5, Some m9 =>
      if bool_decide (square_list m1 = square_list m5)
         && bool_decide (square_list m5 = square_list m9)
      then true else false
  | _, _, _ => false
  end
else false.

End Draughts.

(** ** [checkers.base.BaseBoard] *)

Module Checkers.
Section WithModels.
Variable F : Models.

Definition init (starting_position : list Z) : outcome Board :=
  let len := Z.of_nat (length starting_position) in
  let size := Z.sqrt (len * 2) in
  if negb (size ^ 2 =? len * 2) then Raise ValueError
  else Return {| _pos := starting_position;
                 turn := WHITE;
                 shape := (size, size);
                 _moves_stack := [] |}.

(** [Entity(self._pos[tg])], as the message handed to [logger.debug] has
    it: an f-string is built before the call, whatever the logging level,
    so the cell is read and looked up in the enumeration, and the look-up
    raises [ValueError] when no member has that value. *)
Definition Entity_of_cell (tg : Z) : M Board unit :=
  v <- getitem tg ;;
  if Entity_member F v then ret tt else raise ValueError.

(** [Entity.EMPTY] of [checkers/models.py] is read from the same
    parameter as [Figure.EMPTY]. *)
Definition push (move : Move) (is_finished : bool) : M Board Move :=
  src <- lift (list_getitem (square_list move) 0) IndexError ;;
  tg <- lift (list_getitem (square_list move) (-1)) IndexError ;;
  at_tg <- getitem tg ;;
  at_src <- getitem src ;;
  setitem src at_tg ;;;
  setitem tg at_src ;;;
  Entity_of_cell tg ;;;
  (match captured_list move with
   | [] => ret tt
   | _ :: _ => setitem_fancy (captured_list move) (EMPTY F)
   end) ;;;
  modify (fun b => with_stack b (_moves_stack b ++ [move])) ;;;
  switch_turn is_finished ;;;
  ret move.

Definition pop (is_finished : bool) : M Board Move :=
  move <- stack_pop ;;
  src <- lift (list_getitem (square_list move) 0) IndexError ;;
  tg <- lift (list_getitem (square_list move) (-1)) IndexError ;;
  Entity_of_cell tg ;;;
  at_tg <- getitem tg ;;
  at_src <- getitem src ;;
  setitem src at_tg ;;;
  setitem tg at_src ;;;
  restore (zip (captured_list move) (captured_entities move)) ;;;
  switch_turn is_finished ;;;
  ret move.

End WithModels.
End Checkers.

(** ** Strings

    Python strings are modelled as lists of ASCII characters. *)

Definition str : Type := list ascii.

Local Open Scope char_scope.

Definition is_digit (c : ascii) : bool :=
  (48 <=? nat_of_ascii c)%nat && (nat_of_ascii c <=? 57)%nat.

(** [str(n)] for [n >= 0]. *)
Fixpoint chars_of_uint (d : Decimal.uint) : str :=
  match d with
  | Decimal.Nil => []
  | Decimal.D0 d => "0" :: chars_of_uint d
  | Decimal.D1 d => "1" :: chars_of_uint d
  | Decimal.D2 d => "2" :: chars_of_uint d
  | Decimal.D3 d => "3" :: chars_of_uint d
  | Decimal.D4 d => "4" :: chars_of_uint d
  | Decimal.D5 d => "5" :: chars_of_uint d
  | Decimal.D6 d => "6" :: chars_of_uint d
  | Decimal.D7 d => "7" :: chars_of_uint d
  | Decimal.D8 d => "8" :: chars_of_uint d
  | Decimal.D9 d => "9" :: chars_of_uint d
  end.

Definition str_of_nat (n : nat) : str := chars_of_uint (Nat.to_uint n).

(** [s.isdigit()] *)
Definition isdigit (s : str) : bool :=
  match s with [] => false | _ => forallb is_digit s end.

(** [int(s)] for a string of decimal digits. *)
Definition int_of_digits (s : str) : nat :=
  fold_left (fun acc c => (10 * acc + (nat_of_ascii c - 48))%nat) s 0%nat.

(** [sep.join(l)] *)
Fixpoint join (sep : str) (l : list str) : str :=
  match l with
  | [] => []
  | [x] => x
  | x :: l' => x ++ sep ++ join sep l'
  end.

(** [s.split(sep)] for a separator of one character. *)
Fixpoint split (sep : ascii) (s : str) : list str :=
  match s with
  | [] => [[]]
  | c :: r =>
      if Ascii.eqb c sep then [] :: split sep r
      else match split sep r with
           | x :: xs => (c :: x) :: xs
           | [] => [[c]]
           end
  end.

(** [s.upper()] *)
Definition upper_char (c : ascii) : ascii :=
  let n := nat_of_ascii c in
  if (97 <=? n)%nat && (n <=? 122)%nat then ascii_of_nat (n - 32) else c.

Definition upper (s : str) : str := map upper_char s.

Fixpoint take_while (p : ascii -> bool) (s : str) : str :=
  match s with
  | c :: r => if p c then c :: take_while p r else []
  | [] => []
  end.

Fixpoint starts_with (p s : str) : bool :=
  match p, s with
  | [], _ => true
  | a :: p', c :: s' => Ascii.eqb a c && starts_with p' s'
  | _ :: _, [] => false
  end.

(** ** Regular expressions

    A compiled pattern is modelled by its matcher: [m s] is the text the
    pattern matches at the start of [s], if it matches there. None of the
    patterns of [from_fen] matches the empty string, and in each of them the
    greedy match is the only one that is tried first. *)

Definition matcher : Type := str -> option str.

(** [pattern.search(s)]: the match at the leftmost position that has one. *)
Fixpoint re_search (m : matcher) (s : str) : option str :=
  match m s with
  | Some g => Some g
  | None => match s with
            | [] => None
            | _ :: r => re_search m r
            end
  end.

(** [pattern.sub(repl, s)]: the non-overlapping matches, leftmost first, are
    replaced by [repl]; [skip] counts the characters of the current match
    that are still to be dropped. *)
Fixpoint re_sub_from (m : matcher) (repl : str) (skip : nat) (s : str) : str :=
  match s with
  | [] => []
  | c :: r =>
      match skip with
      | S k => re_sub_from m repl k r
      | O => match m s with
             | Some g => repl ++ re_sub_from m repl (length g - 1) r
             | None => c :: re_sub_from m repl 0 r
             end
      end
  end.

Definition re_sub (m : matcher) (repl : str) (s : str) : str :=
  re_sub_from m repl 0 s.

(** [s.replace(old, new)] for a non-empty [old]. *)
Definition replace (old new : str) (s : str) : str :=
  re_sub (fun t => if starts_with old t then Some old else None) new s.

Definition is_WB (c : ascii) : bool := Ascii.eqb c "W" || Ascii.eqb c "B".

(** The class [[0-9K,]]. *)
Definition is_list_char (c : ascii) : bool :=
  is_digit c || Ascii.eqb c "K" || Ascii.eqb c ",".

(** [re.compile(r"[WB]:")] *)
Definition re_turn : matcher := fun s =>
  match s with
  | a :: b :: _ => if is_WB a && Ascii.eqb b ":" then Some [a; b] else None
  | _ => None
  end.

(** [re.compile(r"(G[0-9]+|P[0-9]+)(,|)")] *)
Definition re_premove : matcher := fun s =>
  match s with
  | a :: r =>
      if Ascii.eqb a "G" || Ascii.eqb a "P" then
        match take_while is_digit r with
        | [] => None
        | ds => match drop (length ds) r with
                | c :: _ => if Ascii.eqb c "," then Some (a :: ds ++ [c])
                            else Some (a :: ds)
                | [] => Some (a :: ds)
                end
        end
      else None
  | [] => None
  end.

(** [re.compile(r"[WB]:[WB]:[WB]")] *)
Definition re_prefix : matcher := fun s =>
  match s with
  | a :: c1 :: b :: c2 :: c :: _ =>
      if is_WB a && Ascii.eqb c1 ":" && is_WB b && Ascii.eqb c2 ":" && is_WB c
      then Some [a; c1; b; c2; c] else None
  | _ => None
  end.

(** [re.compile(r"W[0-9K,]+")] and [re.compile(r"B[0-9K,]+")] *)
Definition re_color (letter : ascii) : matcher := fun s =>
  match s with
  | a :: r =>
      if Ascii.eqb a letter then
        match take_while is_list_char r with
        | [] => None
        | run => Some (a :: run)
        end
      else None
  | [] => None
  end.

Definition re_white : matcher := re_color "W".
Definition re_black : matcher := re_color "B".

(** ** The position codec of [draughts.base.BaseBoard] *)

Module Codec.

(** [np.where(cond)[0]]: the subscripts of the cells that satisfy [cond],
    in ascending order; [i] is the subscript of the head of [l]. *)
Fixpoint np_where_from (i : nat) (cond : Z -> bool) (l : list Z) : list nat :=
  match l with
  | [] => []
  | x :: l' => if cond x then i :: np_where_from (S i) cond l'
               else np_where_from (S i) cond l'
  end.

Definition np_where (cond : Z -> bool) (l : list Z) : list nat :=
  np_where_from 0 cond l.

Definition COLORS_REPR (c : Color) : str :=
  match c with WHITE => ["W"] | BLACK => ["B"] end.

(** ["K" * bool(king) + str(sq + 1)] *)
Definition square_token (king : bool) (sq : nat) : str :=
  (if king then ["K"] else []) ++ str_of_nat (sq + 1).

(** The opening [[FEN "W:] and closing ["]] of the string. *)
Definition fen_open : str :=
  ["["; "F"; "E"; "N"; " "; "034"; "W"; ":"].
Definition fen_close : str := ["034"; "]"].

Definition fen (b : Board) : str :=
  let pos := _pos b in
  fen_open ++ COLORS_REPR (turn b) ++ [":"; "W"]
  ++ join [","] (map (fun sq => square_token (pos !!! sq <? -1)%Z sq)
                     (np_where (fun x => x <? 0)%Z pos))
  ++ [":"; "B"]
  ++ join [","] (map (fun sq => square_token (pos !!! sq >? 1)%Z sq)
                     (np_where (fun x => x >? 0)%Z pos))
  ++ fen_close.

(** The class object: the attributes [from_fen] reads and writes.
    [cls_turn] is the class attribute [turn], which does not exist before
    the first call. *)
Record Class : Type := {
  STARTING_POSITION : list Z;
  STARTING_COLOR : Color;
  cls_turn : option Color
}.

(** [BaseBoard] as the module defines it. *)
Definition BaseBoard : Class := {|
  STARTING_POSITION := repeat 1%Z 12 ++ repeat 0%Z 8 ++ repeat (-1)%Z 12;
  STARTING_COLOR := WHITE;
  cls_turn := None
|}.

Definition with_STARTING_POSITION (c : Class) (p : list Z) : Class :=
  {| STARTING_POSITION := p; STARTING_COLOR := STARTING_COLOR c;
     cls_turn := cls_turn c |}.

Definition exn_eqb (a b : exn) : bool :=
  match a, b with
  | IndexError, IndexError | ValueError, ValueError
  | AttributeError, AttributeError | ZeroDivisionError, ZeroDivisionError => true
  | _, _ => false
  end.

(** [try: c except e: h] *)
Definition try_except {S A} (c : M S A) (e : exn) (h : M S A) : M S A :=
  fun s => match c s with
           | (s', Raise e') => if exn_eqb e e' then h s' else (s', Raise e')
           | r => r
           end.

Section WithModels.
Variable F : Models.

(** [cls.STARTING_POSITION[i] = v] *)
Definition cls_setitem (i : Z) (v : Z) : M Class unit :=
  c <- get ;;
  p <- lift (array_set (STARTING_POSITION c) i v) IndexError ;;
  modify (fun c => with_STARTING_POSITION c p).

(** [int(s) in board_range], with [board_range = range(1, len + 1)]. *)
Definition in_board_range (len : nat) (s : str) : bool :=
  (1 <=? int_of_digits s)%nat && (int_of_digits s <=? len)%nat.

(** The loop of [__populate_from_list]. *)
Fixpoint populate_loop (len : nat) (fen_list : list str) (color : Color)
  : M Class unit :=
  match fen_list with
  | [] => ret tt
  | sq :: rest =>
      (if isdigit sq && in_board_range len sq then
         cls_setitem (Z.of_nat (int_of_digits sq) - 1) (Color_value F color)
       else if starts_with ["K"] sq && isdigit (drop 1 sq)
               && in_board_range len (drop 1 sq) then
         cls_setitem (Z.of_nat (int_of_digits (drop 1 sq)) - 1)
                     (Color_value F color * KING F)
       else raise ValueError) ;;;
      populate_loop len rest color
  end.

Definition populate_from_list (fen_list : list str) (color : Color)
  : M Class unit :=
  c <- get ;;
  populate_loop (length (STARTING_POSITION c)) fen_list color.

Definition from_fen (fen : str) : M Class Board :=
  let fen := upper fen in
  let fen := re_sub re_premove [] fen in
  let fen := match re_search re_prefix fen with
             | Some prefix => replace prefix (drop 2 prefix) fen
             | None => fen
             end in
  match re_search re_turn fen, re_search re_white fen, re_search re_black fen with
  | Some t, Some w, Some bl =>
      let turn := take 1 t in
      let white := replace ["W"] [] w in
      let black := replace ["B"] [] bl in
      modify (fun c => with_STARTING_POSITION c
                         (repeat 0%Z (length (STARTING_POSITION c)))) ;;;
      if negb (length turn =? 1)%nat
         || ((length white =? 0)%nat && (length black =? 0)%nat)
      then raise ValueError
      else
        try_except
          (populate_from_list (split "," white) WHITE ;;;
           populate_from_list (split "," black) BLACK)
          ValueError (ret tt) ;;;
        let color := if starts_with ["W"] turn && (length turn =? 1)%nat
                     then WHITE else BLACK in
        modify (fun c => {| STARTING_POSITION := STARTING_POSITION c;
                            STARTING_COLOR := color;
                            cls_turn := Some color |}) ;;;
        c <- get ;;
        lift_outcome (Draughts.init (STARTING_COLOR c) (STARTING_POSITION c))
  | _, _, _ => raise AttributeError
  end.

End WithModels.
End Codec.

(** ** The display projection [friendly_form]

    The half-length buffer laid out on the full grid, for a board of at
    least two rows (with [shape[0] // 2 = 0] the Python code divides by
    zero). *)

Definition friendly_form (b : Board) : list Z :=
  let n := fst (shape b) in
  let cell (idx : Z) (sq : Z) : list Z :=
    (if negb (idx mod (n / 2) =? 0)%Z then [0%Z] else [])
    ++ (if (idx mod n =? 0)%Z && negb (idx =? 0)%Z then [0%Z; 0%Z] else [])
    ++ [sq] in
  [0%Z] ++ concat (imap (fun i sq => cell (Z.of_nat i) sq) (_pos b)) ++ [0%Z].

Local Close Scope char_scope.

(** * Vocabulary of the statements *)

(** The origin and the destination of a move: [square_list[0]] and
    [square_list[-1]]. *)
Definition origin (m : Move) : option Z := list_getitem (square_list m) 0.
Definition destination (m : Move) : option Z := list_getitem (square_list m) (-1).

(** The row of a square on the expanded [n] x [n] grid, which has [n / 2]
    playable squares per row. *)
Definition row_of (n : Z) (sq : Z) : Z := sq / (n / 2).

(** A white man on row 0, or a black man on row [n - 1]. *)
Definition promotes (F : Models) (n tg v : Z) : bool :=
  ((row_of n tg =? 0) && (v =? WHITE_MAN F))
  || ((row_of n tg =? n - 1) && (v =? BLACK_MAN F)).

(** ** The effect of [push] and [pop] on the buffer *)

(** The buffer after [self._pos[np.array(cs)] = e]. *)
Definition clear_all (e : Z) (cs : list nat) (p : list Z) : list Z :=
  foldl (fun p k => <[k := wrap8 e]> p) p cs.

(** The buffer after the loop [self._pos[sq] = entity] over the pairs [l]. *)
Definition write_back (l : list (nat * Z)) (p : list Z) : list Z :=
  foldl (fun p ke => <[ke.1 := wrap8 ke.2]> p) p l.

(** The buffer [push] leaves: the swap of the cells [i] and [j] (which held
    [vs] and [vt]), the promotion, the captured cells [cs] cleared. *)
Definition pushed_pos (F : Models) (n : Z) (p : list Z) (i j : nat) (vs vt : Z)
    (cs : list nat) : list Z :=
  let p1 := <[j := wrap8 vs]> (<[i := wrap8 vt]> p) in
  let p2 := if promotes F n (Z.of_nat j) (wrap8 vs)
            then <[j := wrap8 (wrap8 vs * KING F)]> p1 else p1 in
  clear_all (EMPTY F) cs p2.

(** The move [push] leaves on the stack. *)
Definition pushed_move (F : Models) (n : Z) (m : Move) (j : nat) (vs : Z) : Move :=
  if promotes F n (Z.of_nat j) (wrap8 vs) then set_is_promotion m true else m.

(** The stack [push] finds, as it is once the move has been flagged: the
    entries that are the object [m] show the flag. *)
Definition pushed_stack (F : Models) (n : Z) (m : Move) (j : nat) (vs : Z)
    (st : list Move) : list Move :=
  if promotes F n (Z.of_nat j) (wrap8 vs) then flag_object (obj m) st else st.

(** The object of [m] is not on the stack. *)
Definition fresh (m : Move) (st : list Move) : Prop :=
  Forall (fun x => obj x <> obj m) st.

(** The entries of a list of moves that are one object show one state of
    it, as the references of a Python list do. *)
Definition coherent (st : list Move) : Prop :=
  forall x y, x ∈ st -> y ∈ st -> obj x = obj y -> x = y.

Definition after_turn (is_finished : bool) (c : Color) : Color :=
  if is_finished then other_color c else c.

(** The buffer [pop] leaves: the demotion, the swap back, the captured
    cells written back. *)
Definition popped_pos (F : Models) (q : list Z) (promoted : bool) (i j : nat)
    (l : list (nat * Z)) : list Z :=
  let q1 := if promoted then <[j := wrap8 (q !!! j / KING F)]> q else q in
  let q2 := <[j := wrap8 (q1 !!! i)]> (<[i := wrap8 (q1 !!! j)]> q1) in
  write_back l q2.

(** The pieces of a colour: its man and its king. *)
Definition man_of (F : Models) (c : Color) : Z :=
  match c with WHITE => WHITE_MAN F | BLACK => BLACK_MAN F end.

Definition piece_of (F : Models) (c : Color) (v : Z) : Prop :=
  v <> EMPTY F /\ (v = man_of F c \/ v = man_of F c * KING F).

(** What the arithmetic of promotion asks of the values of [models.py]: a
    positive multiplier, and kings that fit a cell. *)
Record Models_ok (F : Models) : Prop := {
  king_positive : 0 < KING F;
  white_king_int8 : int8 (WHITE_MAN F * KING F);
  black_king_int8 : int8 (BLACK_MAN F * KING F)
}.

(** What [__init__] and the [int8] buffer guarantee of a board. *)
Definition Board_ok (b : Board) : Prop :=
  Forall int8 (_pos b)
  /\ 0 <= fst (shape b)
  /\ fst (shape b) * fst (shape b) = 2 * Z.of_nat (length (_pos b))
  /\ snd (shape b) = fst (shape b).

(** ** The display grid *)

(** The zeros [friendly_form] puts before the cell of subscript [idx]. *)
Definition padding (n idx : Z) : list Z :=
  (if negb (idx mod (n / 2) =? 0) then [0] else [])
  ++ (if (idx mod n =? 0) && negb (idx =? 0) then [0; 0] else []).

(** The place of the cell of subscript [k] in [friendly_form]. *)
Fixpoint grid_place (n : Z) (k : nat) : nat :=
  match k with
  | O => 1 + length (padding n 0)
  | S k' => grid_place n k' + 1 + length (padding n (Z.of_nat k))
  end.

(** The length of [friendly_form] up to, and without, the zeros before the
    cell of subscript [j]. *)
Definition grid_prefix (n : Z) (j : nat) : nat :=
  match j with O => 1 | S m => S (grid_place n m) end.

(** The row of the display grid on which [friendly_form] shows a cell. *)
Definition grid_row (n : Z) (k : nat) : Z := Z.of_nat (grid_place n k) / n.

(** A white man shown on row 0, or a black man shown on row [n - 1]. *)
Definition crowned (F : Models) (n tg v : Z) : bool :=
  ((grid_row n (Z.to_nat tg) =? 0) && (v =? WHITE_MAN F))
  || ((grid_row n (Z.to_nat tg) =? n - 1) && (v =? BLACK_MAN F)).

(** ** The position codec *)

Local Open Scope char_scope.

(** The text [fen] builds around its two lists, and the same text once
    [from_fen] has dropped the first two characters of the prefix. *)
Definition fen_text (t : Color) (wl bl : str) : str :=
  Codec.fen_open ++ Codec.COLORS_REPR t ++ [":"; "W"] ++ wl
  ++ [":"; "B"] ++ bl ++ Codec.fen_close.

Definition fen_text_stripped (t : Color) (wl bl : str) : str :=
  ["["; "F"; "E"; "N"; " "; "034"] ++ Codec.COLORS_REPR t ++ [":"; "W"] ++ wl
  ++ [":"; "B"] ++ bl ++ Codec.fen_close.

(** A text over the class [[0-9K,]]. *)
Definition list_text (s : str) : Prop := Forall (fun c => is_list_char c = true) s.

(** The list of squares of one colour as [fen] writes it. *)
Definition token_list (king : nat -> bool) (sqs : list nat) : str :=
  join [","] (map (fun sq => Codec.square_token (king sq) sq) sqs).

(** The buffer after [__populate_from_list] has written the squares [sqs]. *)
Definition written (F : Models) (color : Color) (king : nat -> bool)
    (sqs : list nat) (p : list Z) : list Z :=
  foldl (fun p sq => <[sq := wrap8 (if king sq : bool
                                    then Color_value F color * KING F
                                    else Color_value F color)]> p) p sqs.

Local Close Scope char_scope.

(** The sign convention [fen] relies on: white is negative, black is
    positive, a king is a man times a multiplier of at least 2. *)
Record Encoding_ok (F : Models) : Prop := {
  white_value : Color_value F WHITE = -1;
  black_value : Color_value F BLACK = 1;
  white_man_value : WHITE_MAN F = -1;
  black_man_value : BLACK_MAN F = 1;
  empty_value : EMPTY F = 0;
  king_range : 2 <= KING F <= 127
}.

(** A cell is empty or holds a piece. *)
Definition valid_cell (F : Models) (v : Z) : Prop :=
  v = EMPTY F \/ piece_of F WHITE v \/ piece_of F BLACK v.

Definition is_king (F : Models) (v : Z) : bool :=
  (v =? WHITE_MAN F * KING F) || (v =? BLACK_MAN F * KING F).

(** The token of a square: [K] for a king, then the 1-based number. *)
Definition piece_token (F : Models) (p : list Z) (sq : nat) : str :=
  Codec.square_token (is_king F (p !!! sq)) sq.

(** ** Outcomes

    What a method leaves behind, whatever it returns or raises. *)

(** [post c s Q]: running [c] from the state [s] ends in a state and an
    outcome that satisfy [Q]. *)
Definition post {S A} (c : M S A) (s : S) (Q : S -> outcome A -> Prop) : Prop :=
  Q (fst (c s)) (snd (c s)).

(** The board [b] while [push m] works on it, before the move is appended:
    the buffer keeps its length, and its [int8] cells if it had them; shape
    and turn are untouched; the stack is as it was or, where the engine
    flags moves, has the entries that are the object [m] flagged. *)
Definition pushing (flags : bool) (m : Move) (b b' : Board) : Prop :=
  length (_pos b') = length (_pos b)
  /\ shape b' = shape b /\ turn b' = turn b
  /\ (_moves_stack b' = _moves_stack b
      \/ flags = true
         /\ _moves_stack b' = flag_object (obj m) (_moves_stack b))
  /\ (Forall int8 (_pos b) -> Forall int8 (_pos b')).

(** The outcome of [push], of which [errors] are the exceptions it can
    raise and [flags] tells whether the engine flags promotions. The
    entries of the stack stay what they were or, where the engine flags,
    those that are the object pushed have been flagged. *)
Definition push_outcome (errors : list exn) (flags : bool) (m : Move)
    (is_finished : bool) (b b' : Board) (r : outcome Move) : Prop :=
  length (_pos b') = length (_pos b)
  /\ shape b' = shape b
  /\ (Forall int8 (_pos b) -> Forall int8 (_pos b'))
  /\ match r with
     | Return m' =>
         turn b' = after_turn is_finished (turn b)
         /\ (m' = m /\ _moves_stack b' = _moves_stack b ++ [m]
             \/ flags = true /\ m' = set_is_promotion m true
                /\ _moves_stack b'
                   = flag_object (obj m) (_moves_stack b) ++ [m'])
     | Raise e =>
         e ∈ errors /\ turn b' = turn b
         /\ (_moves_stack b' = _moves_stack b
             \/ flags = true
                /\ _moves_stack b' = flag_object (obj m) (_moves_stack b))
     end.

(** The outcome of [pop], of which [errors] are the exceptions it can
    raise. *)
Definition pop_outcome (errors : list exn) (is_finished : bool) (b b' : Board)
    (r : outcome Move) : Prop :=
  length (_pos b') = length (_pos b)
  /\ shape b' = shape b
  /\ (Forall int8 (_pos b) -> Forall int8 (_pos b'))
  /\ match r with
     | Return m =>
         _moves_stack b = _moves_stack b' ++ [m]
         /\ turn b' = after_turn is_finished (turn b)
     | Raise e =>
         e ∈ errors /\ turn b' = turn b
         /\ (_moves_stack b = [] /\ b' = b
             \/ exists m, _moves_stack b = _moves_stack b' ++ [m])
     end.

(** The buffer the checkers [push] leaves, and the one its [pop] leaves. *)
Definition checkers_pushed_pos (F : Models) (p : list Z) (i j : nat) (vs vt : Z)
    (cs : list nat) : list Z :=
  clear_all (EMPTY F) cs (<[j := wrap8 vs]> (<[i := wrap8 vt]> p)).

Definition checkers_popped_pos (q : list Z) (i j : nat) (l : list (nat * Z))
  : list Z :=
  write_back l (<[j := wrap8 (q !!! i)]> (<[i := wrap8 (q !!! j)]> q)).

(** A cell [from_fen] can leave in the buffer: the zero of [np.zeros], or
    what [__populate_from_list] stores for a man or a king of a colour. *)
Definition decoded_cell (F : Models) (v : Z) : Prop :=
  v = 0%Z
  \/ exists color : Color,
       v = wrap8 (Color_value F color)
       \/ v = wrap8 (Color_value F color * KING F).

(** The outcome of [from_fen] on the class [cls]. *)
Definition from_fen_outcome (F : Models) (cls cls' : Codec.Class)
    (r : outcome Board) : Prop :=
  match r with
  | Return b =>
      Board_ok b
      /\ length (_pos b) = length (Codec.STARTING_POSITION cls)
      /\ Forall (decoded_cell F) (_pos b)
      /\ _moves_stack b = []
  | Raise AttributeError => cls' = cls
  | Raise ValueError =>
      (forall n : Z,
         (n * n)%Z <> (2 * Z.of_nat (length (Codec.STARTING_POSITION cls)))%Z)
      /\ length (Codec.STARTING_POSITION cls')
         = length (Codec.STARTING_POSITION cls)
      /\ Forall (decoded_cell F) (Codec.STARTING_POSITION cls')
      /\ Codec.cls_turn cls' = Some (Codec.STARTING_COLOR cls')
  | Raise _ => False
  end.

(** The invariant of the loop of [__populate_from_list]. *)
Definition decoded_class (F : Models) (len : nat) (c : Codec.Class) : Prop :=
  length (Codec.STARTING_POSITION c) = len
  /\ Forall (decoded_cell F) (Codec.STARTING_POSITION c).

(** The outcome is a result or an [IndexError]. *)
Definition index_error_only {S A} (_ : S) (r : outcome A) : Prop :=
  match r with Return _ => True | Raise e => e = IndexError end.

(** * Sample positions

    Concrete boards and moves on which the theorems below are instantiated. *)

(** The object [o], a move along [sl] that captures nothing. *)
Definition move_of (o : nat) (sl : list Z) : Move :=
  {| obj := o; square_list := sl; captured_list := []; captured_entities := [];
     is_promotion := false |}.

(** Nine moves, nine objects, the same squares at places 1, 5 and 9 from
    the end. *)
Definition repetition_stack : list Move :=
  imap (fun k sl => move_of (S k) sl)
       [[21; 17]; [9; 13]; [17; 21]; [13; 9];
        [21; 17]; [9; 13]; [17; 21]; [13; 9]; [21; 17]].

Definition repetition_board : Board :=
  {| _pos := repeat 0 32; turn := WHITE; shape := (8, 8);
     _moves_stack := repetition_stack |}.

(** A white man on square 4 (row 1) about to step onto square 0 (row 0) of
    an 8 x 8 board. *)
Definition promotion_board : Board :=
  {| _pos := [0; 0; 0; 0; -1; 0; 0; 0] ++ repeat 0 24;
     turn := WHITE; shape := (8, 8); _moves_stack := [] |}.

Definition promotion_move : Move := move_of 1 [4; 0].

(** A black man on square 9 about to step onto square 13. *)
Definition quiet_board : Board :=
  {| _pos := repeat 0 9 ++ [1] ++ repeat 0 22;
     turn := BLACK; shape := (8, 8); _moves_stack := [] |}.

Definition quiet_move : Move := move_of 1 [9; 13].

(** A white man on square 9 that jumps the black king of square 5 and lands
    on square 0, on the back row. *)
Definition capture_board : Board :=
  {| _pos := [0; 0; 0; 0; 0; 2; 0; 0; 0; -1] ++ repeat 0 22;
     turn := WHITE; shape := (8, 8); _moves_stack := [] |}.

Definition capture_move : Move :=
  {| obj := 1;
     square_list := [9; 0]; captured_list := [5]; captured_entities := [2];
     is_promotion := false |}.

(** A white king on square 4 and a white man on square 8 of an empty board;
    the object [aliased_move] is a move from square 4 to square 0. *)
Definition aliased_start : Board :=
  {| _pos := [0; 0; 0; 0; -2; 0; 0; 0; -1] ++ repeat 0 23;
     turn := WHITE; shape := (8, 8); _moves_stack := [] |}.

Definition aliased_move : Move := move_of 1 [4; 0].

(** The board once the king has gone from 4 to 0 with [aliased_move] and on
    to 5, and the man from 8 to 4. [aliased_move] lies at the bottom of the
    stack, unflagged since a king is not crowned, and the man on square 4
    can now be moved with the same object. *)
Definition aliased_board : Board :=
  {| _pos := [0; 0; 0; 0; -1; -2] ++ repeat 0 26;
     turn := WHITE; shape := (8, 8);
     _moves_stack := [aliased_move; move_of 2 [0; 5]; move_of 3 [8; 4]] |}.

(** The position of the notation example: a white king on square 10, a
    white man on 18, a black man on 12 and a black king on 22 (1-based). *)
Definition notation_position : list Z :=
  repeat 0 9 ++ [-2; 0; 1] ++ repeat 0 5 ++ [-1] ++ repeat 0 3 ++ [2] ++ repeat 0 10.

Definition notation_board : Board :=
  {| _pos := notation_position; turn := WHITE; shape := (8, 8);
     _moves_stack := [] |}.

Definition notation_board_black : Board :=
  {| _pos := notation_position; turn := BLACK; shape := (8, 8);
     _moves_stack := [] |}.


(** A lone white man on square 18. *)
Definition white_only_board : Board :=
  {| _pos := repeat 0 17 ++ [-1] ++ repeat 0 14; turn := WHITE; shape := (8, 8);
     _moves_stack := [] |}.

(** A notation string that lists square 33 on a board of 32 squares. *)
Definition out_of_range_fen : str := list_ascii_of_string "W:W1,33,5:B12".

(** [quiet_board] after [quiet_move]. *)
Definition quiet_board_pushed : Board :=
  {| _pos := repeat 0 13 ++ [1] ++ repeat 0 18;
     turn := WHITE; shape := (8, 8); _moves_stack := [quiet_move] |}.

(** [quiet_move] with a captured square that is not on the board. *)
Definition stray_capture_move : Move :=
  {| obj := 1;
     square_list := [9; 13]; captured_list := [40]; captured_entities := [-1];
     is_promotion := false |}.

(** The black king of [capture_board] stepping from square 5 to square 1,
    and the board once the two cells are exchanged. *)
Definition king_move : Move := move_of 2 [5; 1].

Definition king_moved_board : Board :=
  {| _pos := [0; 2; 0; 0; 0; 0; 0; 0; 0; -1] ++ repeat 0 22;
     turn := WHITE; shape := (8, 8); _moves_stack := [] |}.

(** A lone black man on square 12. *)
Definition black_only_board : Board :=
  {| _pos := repeat 0 11 ++ [1] ++ repeat 0 20; turn := BLACK; shape := (8, 8);
     _moves_stack := [] |}.

(** The board and the class that decoding [out_of_range_fen] leaves. *)
Definition out_of_range_board : Board :=
  {| _pos := [-1] ++ repeat 0 31; turn := WHITE; shape := (8, 8);
     _moves_stack := [] |}.

Definition out_of_range_class : Codec.Class :=
  {| Codec.STARTING_POSITION := [-1] ++ repeat 0 31;
     Codec.STARTING_COLOR := WHITE;
     Codec.cls_turn := Some WHITE |}.

(** The eight moves before the last one of [repetition_stack]. *)
Definition repetition_board_before : Board :=
  {| _pos := repeat 0 32; turn := WHITE; shape := (8, 8);
     _moves_stack := removelast repetition_stack |}.

(** * Properties *)

(** ** Cells and subscripts *)

Lemma wrap8_int8 z : int8 z -> wrap8 z = z.
Proof. unfold int8, wrap8. intros H. rewrite Z.mod_small; lia. Qed.

Lemma wrap8_is_int8 z : int8 (wrap8 z).
Proof. unfold int8, wrap8. pose proof (Z.mod_pos_bound (z + 128) 256). lia. Qed.

Lemma index_nonneg len (k : nat) : (k < len)%nat -> index len (Z.of_nat k) = Some k.
Proof.
  intros H. unfold index.
  destruct (Z.leb_spec 0 (Z.of_nat k)); [|lia].
  destruct (Z.ltb_spec (Z.of_nat k) (Z.of_nat len)); [|lia].
  simpl. f_equal. lia.
Qed.

Lemma index_from_end len (k : nat) :
  (k < len)%nat -> index len (- Z.of_nat (S k)) = Some (len - S k)%nat.
Proof.
  intros H. unfold index.
  destruct (Z.leb_spec 0 (- Z.of_nat (S k))); [lia|].
  simpl.
  destruct (Z.leb_spec (- Z.of_nat len) (- Z.of_nat (S k))); [|lia].
  destruct (Z.ltb_spec (- Z.of_nat (S k)) 0); [|lia].
  simpl. f_equal. lia.
Qed.

Lemma index_lt len i k : index len i = Some k -> (k < len)%nat.
Proof.
  unfold index. intros H.
  destruct (Z.leb_spec 0 i), (Z.ltb_spec i (Z.of_nat len)); simpl in H;
    try (injection H as <-; lia);
    destruct (Z.leb_spec (- Z.of_nat len) i), (Z.ltb_spec i 0); simpl in H;
    try discriminate; injection H as <-; lia.
Qed.

(** ** Undo on an empty history *)

(** C6: on a board whose move stack is empty, [pop] raises ([IndexError],
    from [list.pop]) and the board it leaves behind is the board it found:
    position buffer, turn and move stack are unchanged. *)
Theorem pop_empty_history (F : Models) (is_finished : bool) (b : Board) :
  _moves_stack b = [] ->
  Draughts.pop F is_finished b = (b, Raise IndexError).
Proof.
  intros H. unfold Draughts.pop, stack_pop, bind, get. rewrite H. reflexivity.
Qed.

Lemma pop_empty_history_witness :
  Draughts.pop repo_models true
    {| _pos := [1; 0]; turn := WHITE; shape := (2, 2); _moves_stack := [] |}
  = ({| _pos := [1; 0]; turn := WHITE; shape := (2, 2); _moves_stack := [] |},
     Raise IndexError).
Proof. apply pop_empty_history. reflexivity. Defined.

(** ** Geometry validation *)

(** C7: constructing a board raises [ValueError] exactly when the length of
    the buffer is not [n * n / 2] for an integer [n]; when it is, the
    construction succeeds with shape [(n, n)]. Both [__init__] methods
    (draughts and checkers) behave so. *)
Theorem init_geometry (c : Color) (p : list Z) :
  let len := Z.of_nat (length p) in
  ((exists n : Z, n * n = 2 * len) ->
    exists n : Z, 0 <= n /\ n * n = 2 * len /\
      Draughts.init c p
      = Return {| _pos := p; turn := c; shape := (n, n); _moves_stack := [] |} /\
      Checkers.init p
      = Return {| _pos := p; turn := WHITE; shape := (n, n); _moves_stack := [] |})
  /\ (~ (exists n : Z, n * n = 2 * len) ->
      Draughts.init c p = Raise ValueError /\ Checkers.init p = Raise ValueError).
Proof.
  intros len. unfold Draughts.init, Checkers.init. fold len.
  split.
  - intros [n Hn]. exists (Z.sqrt (len * 2)).
    assert (Hs : Z.sqrt (len * 2) ^ 2 = len * 2).
    { replace (len * 2) with (Z.abs n * Z.abs n) by lia.
      rewrite Z.sqrt_square by lia. lia. }
    split; [apply Z.sqrt_nonneg|]. split; [lia|].
    destruct (Z.eqb_spec (Z.sqrt (len * 2) ^ 2) (len * 2)); [simpl; done | lia].
  - intros Hn.
    destruct (Z.eqb_spec (Z.sqrt (len * 2) ^ 2) (len * 2)) as [e|e]; [|done].
    exfalso. apply Hn. exists (Z.sqrt (len * 2)). lia.
Qed.

(** A buffer of 17 cells is refused, one of 32 cells gives an 8 x 8 board. *)
Lemma init_geometry_witness :
  (Draughts.init WHITE (repeat 0 17) = Raise ValueError
   /\ Checkers.init (repeat 0 17) = Raise ValueError)
  /\ exists n : Z, 0 <= n /\ n * n = 2 * 32 /\
       Draughts.init WHITE (repeat 0 32)
       = Return {| _pos := repeat 0 32; turn := WHITE; shape := (n, n);
                   _moves_stack := [] |} /\
       Checkers.init (repeat 0 32)
       = Return {| _pos := repeat 0 32; turn := WHITE; shape := (n, n);
                   _moves_stack := [] |}.
Proof.
  split.
  - apply (proj2 (init_geometry WHITE (repeat 0 17))).
    intros [n Hn]. simpl in Hn.
    assert (Hb : Z.abs n < 6 \/ 6 <= Z.abs n) by lia.
    destruct Hb; nia.
  - apply (proj1 (init_geometry WHITE (repeat 0 32))).
    exists 8. reflexivity.
Defined.

(** ** Threefold repetition *)

Lemma list_getitem_from_end {A} (l : list A) (k : nat) :
  (k < length l)%nat -> list_getitem l (- Z.of_nat (S k)) = reverse l !! k.
Proof.
  intros H. unfold list_getitem. rewrite index_from_end by done. simpl.
  by rewrite reverse_lookup.
Qed.

Lemma threefold_unfold (b : Board) :
  (9 <= length (_moves_stack b))%nat ->
  Draughts.is_threefold_repetition b =
  match reverse (_moves_stack b) !! 0%nat, reverse (_moves_stack b) !! 4%nat,
        reverse (_moves_stack b) !! 8%nat with
  | Some m1, Some m5, Some m9 =>
      bool_decide (square_list m1 = square_list m5)
      && bool_decide (square_list m5 = square_list m9)
  | _, _, _ => false
  end.
Proof.
  intros H. unfold Draughts.is_threefold_repetition.
  destruct (Z.leb_spec 9 (Z.of_nat (length (_moves_stack b)))); [|lia].
  rewrite (list_getitem_from_end _ 0), (list_getitem_from_end _ 4),
    (list_getitem_from_end _ 8) by lia.
  repeat case_match; done.
Qed.

(** C8: [is_threefold_repetition] is true if and only if the move stack has
    at least 9 entries and the square list of the last move equals that of
    the 5th-from-last and that of the 9th-from-last move; and when it is
    true, replacing any one of these three moves by a move with a different
    square list makes it false. [last_nth k] is the move [k] places before
    the last one. *)
Theorem threefold_repetition_spec (b : Board) :
  let last_nth k := reverse (_moves_stack b) !! k in
  (Draughts.is_threefold_repetition b = true <->
   (9 <= length (_moves_stack b))%nat /\
   exists m1 m5 m9,
     last_nth 0%nat = Some m1 /\ last_nth 4%nat = Some m5 /\ last_nth 8%nat = Some m9 /\
     square_list m1 = square_list m5 /\ square_list m1 = square_list m9)
  /\ (forall (k : nat) (m m' : Move),
        Draughts.is_threefold_repetition b = true ->
        k = 0%nat \/ k = 4%nat \/ k = 8%nat ->
        last_nth k = Some m ->
        square_list m' <> square_list m ->
        Draughts.is_threefold_repetition
          (with_stack b (reverse (<[k := m']> (reverse (_moves_stack b))))) = false).
Proof.
  intros last_nth.
  assert (Hiff : forall b0 : Board,
    Draughts.is_threefold_repetition b0 = true <->
    (9 <= length (_moves_stack b0))%nat /\
    exists m1 m5 m9,
      reverse (_moves_stack b0) !! 0%nat = Some m1 /\
      reverse (_moves_stack b0) !! 4%nat = Some m5 /\
      reverse (_moves_stack b0) !! 8%nat = Some m9 /\
      square_list m1 = square_list m5 /\ square_list m1 = square_list m9).
  { intros b0. split.
    - intros H.
      assert (Hlen : (9 <= length (_moves_stack b0))%nat).
      { unfold Draughts.is_threefold_repetition in H.
        destruct (Z.leb_spec 9 (Z.of_nat (length (_moves_stack b0)))); [lia|done]. }
      split; [done|]. rewrite threefold_unfold in H by done.
      destruct (reverse (_moves_stack b0) !! 0%nat) as [m1|]; [|done].
      destruct (reverse (_moves_stack b0) !! 4%nat) as [m5|]; [|done].
      destruct (reverse (_moves_stack b0) !! 8%nat) as [m9|]; [|done].
      apply andb_true_iff in H as [H1 H2].
      apply bool_decide_eq_true in H1, H2.
      exists m1, m5, m9. repeat split; congruence.
    - intros (Hlen & m1 & m5 & m9 & E1 & E5 & E9 & H15 & H19).
      rewrite threefold_unfold by done. rewrite E1, E5, E9.
      apply andb_true_iff. split; apply bool_decide_eq_true; congruence. }
  split; [apply Hiff|].
  intros k m m' Ht Hk Hm Hne.
  apply Hiff in Ht as (Hlen & m1 & m5 & m9 & E1 & E5 & E9 & H15 & H19).
  apply not_true_is_false. intros Ht'.
  apply Hiff in Ht' as (_ & n1 & n5 & n9 & G1 & G5 & G9 & K15 & K19).
  simpl in G1, G5, G9. rewrite reverse_involutive in G1, G5, G9.
  assert (Hl : (9 <= length (reverse (_moves_stack b)))%nat)
    by (rewrite length_reverse; done).
  unfold last_nth in Hm.
  destruct Hk as [-> | [-> | ->]].
  - rewrite list_lookup_insert_eq in G1 by lia.
    rewrite list_lookup_insert_ne in G5, G9 by lia. congruence.
  - rewrite list_lookup_insert_eq in G5 by lia.
    rewrite list_lookup_insert_ne in G1, G9 by lia. congruence.
  - rewrite list_lookup_insert_eq in G9 by lia.
    rewrite list_lookup_insert_ne in G1, G5 by lia. congruence.
Qed.

Lemma threefold_repetition_witness :
  Draughts.is_threefold_repetition repetition_board = true
  /\ Draughts.is_threefold_repetition
       (with_stack repetition_board
          (reverse (<[4%nat := move_of 10 [22; 17]]> (reverse repetition_stack))))
     = false.
Proof.
  split.
  - apply (proj1 (threefold_repetition_spec repetition_board)).
    split; [vm_compute; lia|].
    exists (move_of 9 [21; 17]), (move_of 5 [21; 17]), (move_of 1 [21; 17]).
    repeat split; reflexivity.
  - apply (proj2 (threefold_repetition_spec repetition_board) 4%nat
             (move_of 5 [21; 17]) (move_of 10 [22; 17])).
    + reflexivity.
    + right; left; reflexivity.
    + reflexivity.
    + discriminate.
Defined.

(** ** Running the methods *)

Lemma bind_Return {S A B} (c : M S A) (k : A -> M S B) s s' a :
  c s = (s', Return a) -> bind c k s = k a s'.
Proof. unfold bind. by intros ->. Qed.

Lemma bind_Raise {S A B} (c : M S A) (k : A -> M S B) s s' e :
  c s = (s', Raise e) -> bind c k s = (s', Raise e).
Proof. unfold bind. by intros ->. Qed.

Lemma getitem_run i b :
  getitem i b = (b, match array_get (_pos b) i with
                    | Some v => Return v | None => Raise IndexError end).
Proof. unfold getitem, bind, get, lift. by destruct (array_get _ _). Qed.

Lemma setitem_run i v b :
  setitem i v b = match array_set (_pos b) i v with
                  | Some p => (with_pos b p, Return tt)
                  | None => (b, Raise IndexError)
                  end.
Proof. unfold setitem, bind, get, lift. by destruct (array_set _ _ _). Qed.

Lemma array_set_get a i v a' :
  array_set a i v = Some a' -> array_get a' i = Some (wrap8 v) /\ length a' = length a.
Proof.
  unfold array_set, array_get, list_getitem. intros H.
  destruct (index (length a) i) as [k|] eqn:E; [|done]. simpl in H.
  injection H as <-. rewrite length_insert, E. simpl.
  split; [|done]. apply list_lookup_insert_eq. by eapply index_lt.
Qed.


Lemma bind_getitem {B} i (k : Z -> M Board B) b :
  bind (getitem i) k b = match array_get (_pos b) i with
                         | Some v => k v b
                         | None => (b, Raise IndexError)
                         end.
Proof. unfold bind. rewrite getitem_run. by destruct (array_get _ _). Qed.

Lemma bind_setitem {B} i v (k : unit -> M Board B) b :
  bind (setitem i v) k b = match array_set (_pos b) i v with
                           | Some p => k tt (with_pos b p)
                           | None => (b, Raise IndexError)
                           end.
Proof. unfold bind. rewrite setitem_run. by destruct (array_set _ _ _). Qed.

Lemma bind_ret {S A B} (a : A) (k : A -> M S B) s : bind (ret a) k s = k a s.
Proof. reflexivity. Qed.

Lemma half_nonzero n : 2 <= n -> (n / 2 =? 0) = false.
Proof.
  intros H. apply Z.eqb_neq.
  assert (1 <= n / 2) by (apply Z.div_le_lower_bound; lia). lia.
Qed.

Lemma promotion_test_run F tg b v :
  2 <= fst (shape b) -> array_get (_pos b) tg = Some v ->
  Draughts.promotion_test F tg b = (b, Return (promotes F (fst (shape b)) tg v)).
Proof.
  intros Hn Hv. unfold Draughts.promotion_test.
  rewrite (bind_Return get _ _ _ _ eq_refl).
  rewrite half_nonzero by done.
  rewrite bind_getitem, Hv. reflexivity.
Qed.

Lemma Entity_of_cell_run F tg b v :
  array_get (_pos b) tg = Some v ->
  Checkers.Entity_of_cell F tg b
  = (b, if Entity_member F v then Return tt else Raise ValueError).
Proof.
  intros Hv. unfold Checkers.Entity_of_cell.
  rewrite bind_getitem, Hv. by destruct (Entity_member F v).
Qed.

Lemma bind_Entity_of_cell {B} F tg (k : unit -> M Board B) b v :
  array_get (_pos b) tg = Some v ->
  bind (Checkers.Entity_of_cell F tg) k b
  = if Entity_member F v then k tt b else (b, Raise ValueError).
Proof.
  intros Hv. unfold bind at 1. rewrite (Entity_of_cell_run F tg b v Hv).
  by destruct (Entity_member F v).
Qed.

(** C10 (as amended): the [push] of [checkers/base.py] and the [push] of
    [draughts/base.py] produce the same board (position buffer, move stack,
    turn) and the same move whenever the moved piece is a member of
    [Entity] and is not a white man arriving on row 0 nor a black man
    arriving on row [n - 1]; exceptions included. *)
Theorem push_agree_without_promotion (F : Models) (b : Board) (m : Move)
    (is_finished : bool) (src tg v : Z) :
  int8 v -> 2 <= fst (shape b) ->
  origin m = Some src -> destination m = Some tg ->
  array_get (_pos b) src = Some v ->
  Entity_member F v = true ->
  promotes F (fst (shape b)) tg v = false ->
  Draughts.push F m is_finished b = Checkers.push F m is_finished b.
Proof.
  intros Hv Hn Hsrc Htg Hget Hmem Hp.
  unfold Draughts.push, Checkers.push.
  unfold origin in Hsrc. unfold destination in Htg. rewrite Hsrc, Htg.
  cbn [lift]. rewrite !bind_ret.
  rewrite !bind_getitem.
  destruct (array_get (_pos b) tg) as [at_tg|] eqn:Etg; [|done].
  rewrite !bind_getitem, Hget.
  rewrite !bind_setitem.
  destruct (array_set (_pos b) src at_tg) as [p1|] eqn:E1; [|done].
  rewrite !bind_setitem.
  destruct (array_set (_pos (with_pos b p1)) tg v) as [p2|] eqn:E2; [|done].
  apply array_set_get in E2 as [E2 _]. rewrite (wrap8_int8 v Hv) in E2.
  rewrite (bind_Return _ _ _ _ _
             (promotion_test_run F tg (with_pos (with_pos b p1) p2) v Hn E2)).
  rewrite (bind_Entity_of_cell F tg _ (with_pos (with_pos b p1) p2) v E2), Hmem.
  cbn [shape with_pos]. rewrite Hp. rewrite bind_ret. reflexivity.
Qed.

Lemma push_agree_witness :
  Draughts.push repo_models quiet_move true quiet_board
  = Checkers.push repo_models quiet_move true quiet_board.
Proof.
  apply (push_agree_without_promotion repo_models quiet_board quiet_move true 9 13 1);
    (reflexivity || (vm_compute; intuition discriminate)).
Defined.

(** On a promoting move the two engines part: the draughts [push] crowns the
    man and flags the move, the checkers [push] does neither. *)
Lemma push_checkers_no_promotion :
  exists bd bc md mc,
    Draughts.push repo_models promotion_move true promotion_board = (bd, Return md)
    /\ Checkers.push repo_models promotion_move true promotion_board = (bc, Return mc)
    /\ _pos bd !! 0%nat = Some (-2) /\ _pos bc !! 0%nat = Some (-1)
    /\ is_promotion md = true /\ is_promotion mc = false.
Proof. do 4 eexists. repeat split; vm_compute; reflexivity. Qed.

Lemma array_get_nat a (k : nat) :
  (k < length a)%nat -> array_get a (Z.of_nat k) = a !! k.
Proof.
  intros H. unfold array_get, list_getitem. by rewrite index_nonneg.
Qed.

Lemma array_set_nat a (k : nat) v :
  (k < length a)%nat -> array_set a (Z.of_nat k) v = Some (<[k := wrap8 v]> a).
Proof. intros H. unfold array_set. by rewrite index_nonneg. Qed.

Lemma array_set_fancy_nat a (cs : list nat) v :
  Forall (fun k => (k < length a)%nat) cs ->
  array_set_fancy a (map Z.of_nat cs) v = Some (clear_all v cs a).
Proof.
  intros H. unfold array_set_fancy.
  assert (E : mapM (index (length a)) (map Z.of_nat cs) = Some cs).
  { induction H as [|k cs Hk _ IH]; [done|].
    simpl. rewrite index_nonneg by done. simpl. by rewrite IH. }
  by rewrite E.
Qed.

Lemma length_clear_all e cs p : length (clear_all e cs p) = length p.
Proof.
  unfold clear_all. revert p. induction cs as [|c cs IH]; intros p; [done|].
  simpl. rewrite IH. apply length_insert.
Qed.

Lemma lookup_clear_all_notin e cs p (k : nat) :
  k ∉ cs -> clear_all e cs p !! k = p !! k.
Proof.
  unfold clear_all. revert p. induction cs as [|c cs IH]; intros p Hk; [done|].
  apply not_elem_of_cons in Hk as [Hkc Hk].
  simpl. rewrite IH by done.
  by apply list_lookup_insert_ne.
Qed.

Lemma lookup_clear_all_in e cs p (k : nat) :
  k ∈ cs -> (k < length p)%nat -> clear_all e cs p !! k = Some (wrap8 e).
Proof.
  unfold clear_all. revert p. induction cs as [|c cs IH]; intros p Hk Hlen.
  - by apply elem_of_nil in Hk.
  - simpl. destruct (decide (k ∈ cs)) as [Hin|Hnot].
    + apply IH; [done|]. by rewrite length_insert.
    + apply elem_of_cons in Hk as [->|Hk]; [|done].
      pose proof (lookup_clear_all_notin e cs (<[c:=wrap8 e]> p) c Hnot) as E.
      unfold clear_all in E. rewrite E. by apply list_lookup_insert_eq.
Qed.

Lemma length_write_back l p : length (write_back l p) = length p.
Proof.
  unfold write_back. revert p. induction l as [|[k e] l IH]; intros p; [done|].
  simpl. rewrite IH. apply length_insert.
Qed.

Lemma lookup_write_back_notin l p (k : nat) :
  k ∉ l.*1 -> write_back l p !! k = p !! k.
Proof.
  unfold write_back. revert p. induction l as [|[c e] l IH]; intros p Hk; [done|].
  simpl in Hk. apply not_elem_of_cons in Hk as [Hkc Hk].
  simpl. rewrite IH by done.
  by apply list_lookup_insert_ne.
Qed.

(** Writing back values read from [p0] leaves, at every written cell, the
    value [p0] has there. *)
Lemma lookup_write_back_in (p0 : list Z) l p (k : nat) :
  Forall (fun ke => p0 !! ke.1 = Some ke.2) l ->
  k ∈ l.*1 -> (k < length p)%nat ->
  exists e, p0 !! k = Some e /\ write_back l p !! k = Some (wrap8 e).
Proof.
  intros Hall. unfold write_back.
  revert p. induction Hall as [|[c e] l Hc Hall IH]; intros p Hk Hlen.
  - by apply elem_of_nil in Hk.
  - simpl in *. destruct (decide (k ∈ l.*1)) as [Hin|Hnot].
    + apply IH; [done|]. by rewrite length_insert.
    + apply elem_of_cons in Hk as [->|Hk]; [|done].
      exists e. split; [done|].
      pose proof (lookup_write_back_notin l (<[c:=wrap8 e]> p) c Hnot) as E.
      unfold write_back in E. rewrite E. by apply list_lookup_insert_eq.
Qed.

Lemma restore_run (l : list (nat * Z)) b :
  Forall (fun ke => (ke.1 < length (_pos b))%nat) l ->
  restore (map (fun ke => (Z.of_nat ke.1, ke.2)) l) b
  = (with_pos b (write_back l (_pos b)), Return tt).
Proof.
  intros H. revert b H. induction l as [|[k e] l IH]; intros b H.
  - by destruct b.
  - apply Forall_cons in H as [Hk H]. simpl in *.
    rewrite bind_setitem, array_set_nat by done.
    rewrite IH; [|simpl; by rewrite length_insert].
    reflexivity.
Qed.

Lemma bind_assoc {S A B C} (c : M S A) (f : A -> M S B) (k : B -> M S C) s :
  bind (bind c f) k s = bind c (fun x => bind (f x) k) s.
Proof. unfold bind. destruct (c s) as [s' [a|e]]; done. Qed.

Lemma bind_setitem_fancy {B} (cs : list nat) v (k : unit -> M Board B) b :
  Forall (fun c => (c < length (_pos b))%nat) cs ->
  bind (setitem_fancy (map Z.of_nat cs) v) k b
  = k tt (with_pos b (clear_all v cs (_pos b))).
Proof.
  intros H. unfold bind at 1. unfold setitem_fancy.
  rewrite (bind_Return get _ _ _ _ eq_refl).
  by rewrite array_set_fancy_nat.
Qed.

Lemma other_color_involutive c : other_color (other_color c) = c.
Proof. by destruct c. Qed.

Lemma push_run (F : Models) (b : Board) (m : Move) (is_finished : bool)
    (i j : nat) (vs vt : Z) (cs : list nat) :
  2 <= fst (shape b) ->
  origin m = Some (Z.of_nat i) -> destination m = Some (Z.of_nat j) ->
  _pos b !! i = Some vs -> _pos b !! j = Some vt ->
  captured_list m = map Z.of_nat cs ->
  Forall (fun k => (k < length (_pos b))%nat) cs ->
  Draughts.push F m is_finished b
  = ({| _pos := pushed_pos F (fst (shape b)) (_pos b) i j vs vt cs;
        turn := after_turn is_finished (turn b);
        shape := shape b;
        _moves_stack := pushed_stack F (fst (shape b)) m j vs (_moves_stack b)
                        ++ [pushed_move F (fst (shape b)) m j vs] |},
     Return (pushed_move F (fst (shape b)) m j vs)).
Proof.
  intros Hn Hsrc Htg Hi Hj Hcs Hall.
  assert (Hli := lookup_lt_Some _ _ _ Hi). assert (Hlj := lookup_lt_Some _ _ _ Hj).
  unfold Draughts.push. unfold origin in Hsrc. unfold destination in Htg.
  rewrite Hsrc, Htg. cbn [lift]. rewrite !bind_ret.
  rewrite bind_getitem, array_get_nat, Hj by done.
  rewrite bind_getitem, array_get_nat, Hi by done.
  rewrite bind_setitem, array_set_nat by done.
  rewrite bind_setitem. cbn [_pos with_pos].
  rewrite array_set_nat by (by rewrite length_insert).
  set (p1 := <[j := wrap8 vs]> (<[i := wrap8 vt]> (_pos b))).
  assert (Hp1 : p1 !! j = Some (wrap8 vs)).
  { apply list_lookup_insert_eq. by rewrite length_insert. }
  assert (Hl1 : length p1 = length (_pos b)) by (unfold p1; by rewrite !length_insert).
  erewrite (bind_Return (Draughts.promotion_test F _)); cycle 1.
  { apply promotion_test_run with (v := wrap8 vs); [done|].
    cbn [_pos with_pos]. rewrite array_get_nat by (fold p1; lia). exact Hp1. }
  cbn [shape with_pos].
  unfold pushed_pos, pushed_move, pushed_stack. fold p1.
  destruct (promotes F (shape b).1 (Z.of_nat j) (wrap8 vs)).
  - rewrite bind_assoc, bind_getitem. cbn [_pos with_pos].
    rewrite array_get_nat, Hp1 by lia.
    rewrite bind_assoc, bind_setitem. cbn [_pos with_pos].
    rewrite array_set_nat by lia.
    rewrite bind_assoc, (bind_Return (modify _) _ _ _ _ eq_refl), bind_ret.
    cbn [captured_list set_is_promotion _pos _moves_stack with_pos with_stack].
    rewrite Hcs.
    destruct cs as [|c cs'].
    + simpl map. cbv match. rewrite bind_ret. unfold switch_turn, after_turn.
      destruct is_finished; reflexivity.
    + change (match map Z.of_nat (c :: cs') with
              | [] => ret ()
              | _ :: _ => setitem_fancy (map Z.of_nat (c :: cs')) (EMPTY F)
              end) with (setitem_fancy (map Z.of_nat (c :: cs')) (EMPTY F)).
      rewrite bind_setitem_fancy
        by (cbn [_pos with_pos with_stack]; rewrite ?length_insert, ?Hl1; done).
      unfold switch_turn, after_turn. destruct is_finished; reflexivity.
  - rewrite bind_ret. rewrite Hcs.
    destruct cs as [|c cs'].
    + simpl map. cbv match. rewrite bind_ret. unfold switch_turn, after_turn.
      destruct is_finished; reflexivity.
    + change (match map Z.of_nat (c :: cs') with
              | [] => ret ()
              | _ :: _ => setitem_fancy (map Z.of_nat (c :: cs')) (EMPTY F)
              end) with (setitem_fancy (map Z.of_nat (c :: cs')) (EMPTY F)).
      rewrite bind_setitem_fancy by (cbn [_pos with_pos]; rewrite Hl1; done).
      unfold switch_turn, after_turn. destruct is_finished; reflexivity.
Qed.

Lemma array_get_nonneg a i v :
  0 <= i -> array_get a i = Some v -> a !! Z.to_nat i = Some v.
Proof.
  unfold array_get, list_getitem, index. intros Hi H.
  destruct (Z.leb_spec 0 i); [|lia].
  destruct (Z.ltb_spec i (Z.of_nat (length a))); simpl in H; [done|].
  destruct (Z.ltb_spec i 0); [lia|].
  by rewrite andb_false_r in H.
Qed.

Lemma stack_pop_run b st m :
  _moves_stack b = st ++ [m] -> stack_pop b = (with_stack b st, Return m).
Proof.
  intros H. unfold stack_pop. rewrite (bind_Return get _ _ _ _ eq_refl).
  rewrite H, last_snoc. unfold bind, modify, ret.
  by rewrite H, removelast_last.
Qed.

Lemma pop_run (F : Models) (b : Board) (m : Move) (is_finished : bool)
    (st : list Move) (i j : nat) (l : list (nat * Z)) :
  _moves_stack b = st ++ [m] ->
  origin m = Some (Z.of_nat i) -> destination m = Some (Z.of_nat j) ->
  (i < length (_pos b))%nat -> (j < length (_pos b))%nat ->
  zip (captured_list m) (captured_entities m)
  = map (fun ke => (Z.of_nat ke.1, ke.2)) l ->
  Forall (fun ke => (ke.1 < length (_pos b))%nat) l ->
  Draughts.pop F is_finished b
  = ({| _pos := popped_pos F (_pos b) (is_promotion m) i j l;
        turn := after_turn is_finished (turn b);
        shape := shape b;
        _moves_stack := st |},
     Return m).
Proof.
  intros Hst Hsrc Htg Hi Hj Hzip Hall.
  unfold Draughts.pop.
  rewrite (bind_Return stack_pop _ _ _ _ (stack_pop_run b st m Hst)).
  unfold origin in Hsrc. unfold destination in Htg. rewrite Hsrc, Htg.
  cbn [lift]. rewrite !bind_ret.
  unfold popped_pos.
  set (q1 := if is_promotion m
             then <[j := wrap8 (_pos b !!! j / KING F)]> (_pos b) else _pos b).
  assert (Hl1 : length q1 = length (_pos b)).
  { unfold q1. destruct (is_promotion m); [apply length_insert|done]. }
  assert (E1 : forall {B} (k : unit -> M Board B),
    bind (if is_promotion m
          then v <- getitem (Z.of_nat j);; setitem (Z.of_nat j) (v / KING F)
          else ret ()) k (with_stack b st)
    = k tt (with_pos (with_stack b st) q1)).
  { intros B k. unfold q1. destruct (is_promotion m).
    - rewrite bind_assoc, bind_getitem. cbn [_pos with_stack].
      rewrite array_get_nat by done.
      destruct (lookup_lt_is_Some_2 _ _ Hj) as [x Hx]. rewrite Hx.
      rewrite bind_setitem. cbn [_pos with_stack].
      rewrite array_set_nat by done.
      by rewrite (list_lookup_total_correct _ _ _ Hx).
    - rewrite bind_ret. by destruct b. }
  rewrite E1.
  destruct (lookup_lt_is_Some_2 q1 j) as [x Hx]; [lia|].
  destruct (lookup_lt_is_Some_2 q1 i) as [y Hy]; [lia|].
  rewrite bind_getitem. cbn [_pos with_pos]. rewrite array_get_nat, Hx by lia.
  rewrite bind_getitem. cbn [_pos with_pos]. rewrite array_get_nat, Hy by lia.
  rewrite bind_setitem. cbn [_pos with_pos]. rewrite array_set_nat by lia.
  rewrite bind_setitem. cbn [_pos with_pos].
  rewrite array_set_nat by (rewrite length_insert; lia).
  rewrite Hzip.
  erewrite (bind_Return (restore _)); cycle 1.
  { apply restore_run. cbn [_pos with_pos]. rewrite !length_insert, Hl1. exact Hall. }
  rewrite (list_lookup_total_correct _ _ _ Hx), (list_lookup_total_correct _ _ _ Hy).
  unfold switch_turn, after_turn. destruct is_finished; reflexivity.
Qed.

Lemma Board_ok_rows b :
  Board_ok b -> (0 < length (_pos b))%nat -> 2 <= fst (shape b).
Proof. intros (_ & H0 & Hsq & _) Hlen. nia. Qed.

Lemma promotes_man F n tg v :
  promotes F n tg v = true -> v = WHITE_MAN F \/ v = BLACK_MAN F.
Proof.
  unfold promotes. intros H.
  apply orb_true_iff in H as [H|H]; apply andb_true_iff in H as [_ H];
    apply Z.eqb_eq in H; auto.
Qed.

Lemma promoted_value F n tg v :
  Models_ok F -> promotes F n tg v = true ->
  wrap8 (v * KING F) = v * KING F /\ v * KING F / KING F = v.
Proof.
  intros [HK Hw Hb] H. split.
  - apply wrap8_int8. destruct (promotes_man _ _ _ _ H) as [-> | ->]; done.
  - apply Z.div_mul. lia.
Qed.

Lemma roundtrip_pos F n p (i j : nat) vs cs ents :
  Models_ok F -> Forall int8 p -> i <> j ->
  p !! i = Some vs -> p !! j = Some (EMPTY F) -> j ∉ cs ->
  Forall2 (fun k e => p !! k = Some e) cs ents ->
  popped_pos F (pushed_pos F n p i j vs (EMPTY F) cs)
    (promotes F n (Z.of_nat j) (wrap8 vs)) i j (zip cs ents) = p.
Proof.
  intros HF Hint Hij Hi Hj Hjcs Hcs.
  assert (Hli := lookup_lt_Some _ _ _ Hi). assert (Hlj := lookup_lt_Some _ _ _ Hj).
  assert (Hvs : int8 vs) by (eapply Forall_lookup_1; eauto).
  assert (He : int8 (EMPTY F)) by (eapply Forall_lookup_1; eauto).
  rewrite (wrap8_int8 vs Hvs).
  unfold pushed_pos. rewrite (wrap8_int8 vs Hvs), (wrap8_int8 _ He).
  set (p1 := <[j := vs]> (<[i := EMPTY F]> p)).
  set (promo := promotes F n (Z.of_nat j) vs).
  set (p2 := if promo then <[j := wrap8 (vs * KING F)]> p1 else p1).
  set (p3 := clear_all (EMPTY F) cs p2).
  assert (Hl1 : length p1 = length p) by (unfold p1; by rewrite !length_insert).
  assert (Hl2 : length p2 = length p).
  { unfold p2. destruct promo; [rewrite length_insert|]; done. }
  assert (Hl3 : length p3 = length p) by (unfold p3; by rewrite length_clear_all).
  assert (Hfst : (zip cs ents).*1 = cs).
  { apply fst_zip. by rewrite (Forall2_length _ _ _ Hcs). }
  assert (Hall : Forall (fun ke : nat * Z => p !! ke.1 = Some ke.2) (zip cs ents)).
  { clear -Hcs. induction Hcs; simpl; constructor; done. }
  unfold popped_pos.
  set (q1 := if promo then <[j := wrap8 (p3 !!! j / KING F)]> p3 else p3).
  assert (Hl4 : length q1 = length p).
  { unfold q1. destruct promo; [rewrite length_insert|]; done. }
  (* the destination holds the moved piece again, demoted *)
  assert (Hq1j : q1 !! j = Some vs).
  { unfold q1, p3, p2. destruct promo eqn:Ep.
    - destruct (promoted_value F n (Z.of_nat j) vs HF Ep) as [Ew Ed].
      assert (E : clear_all (EMPTY F) cs (<[j:=wrap8 (vs * KING F)]> p1) !! j
                  = Some (vs * KING F)).
      { rewrite lookup_clear_all_notin by done.
        rewrite Ew. apply list_lookup_insert_eq. lia. }
      rewrite (list_lookup_total_correct _ _ _ E), Ed, (wrap8_int8 vs Hvs).
      apply list_lookup_insert_eq. rewrite length_clear_all, length_insert. lia.
    - rewrite lookup_clear_all_notin by done.
      apply list_lookup_insert_eq. unfold p1 in Hl1. rewrite length_insert in *. lia. }
  (* cells other than the destination are those of [p3] *)
  assert (Hq1k : forall k, k <> j -> q1 !! k = p3 !! k).
  { intros k Hk. unfold q1. destruct promo; [|done].
    by apply list_lookup_insert_ne. }
  (* the origin is empty after the push *)
  assert (Hq1i : q1 !! i = Some (EMPTY F)).
  { rewrite Hq1k by done. unfold p3.
    destruct (decide (i ∈ cs)) as [Hin|Hnot].
    - rewrite lookup_clear_all_in, (wrap8_int8 _ He) by (done || lia). done.
    - rewrite lookup_clear_all_notin by done.
      assert (p1 !! i = Some (EMPTY F)) as E1.
      { unfold p1. rewrite list_lookup_insert_ne by done.
        by apply list_lookup_insert_eq. }
      unfold p2. destruct promo; [|done].
      by rewrite list_lookup_insert_ne. }
  rewrite (list_lookup_total_correct _ _ _ Hq1j), (list_lookup_total_correct _ _ _ Hq1i).
  rewrite (wrap8_int8 vs Hvs), (wrap8_int8 _ He).
  set (q2 := <[j := EMPTY F]> (<[i := vs]> q1)).
  assert (Hl5 : length q2 = length p) by (unfold q2; by rewrite !length_insert).
  apply (list_eq_same_length _ _ (length p)); [done|by rewrite length_write_back|].
  intros k x y Hk Hx Hy.
  destruct (decide (k ∈ cs)) as [Hin|Hnot].
  - destruct (lookup_write_back_in p (zip cs ents) q2 k Hall) as (e & Hpe & Hwe);
      [by rewrite Hfst|lia|].
    rewrite Hwe in Hx. rewrite Hpe in Hy.
    injection Hx as <-. injection Hy as <-.
    apply wrap8_int8. eapply Forall_lookup_1; eauto.
  - rewrite lookup_write_back_notin in Hx by (by rewrite Hfst).
    unfold q2 in Hx.
    destruct (decide (k = j)) as [->|Hkj].
    { rewrite list_lookup_insert_eq in Hx by (rewrite length_insert; lia). congruence. }
    rewrite list_lookup_insert_ne in Hx by done.
    destruct (decide (k = i)) as [->|Hki].
    { rewrite list_lookup_insert_eq in Hx by lia. congruence. }
    rewrite list_lookup_insert_ne in Hx by done.
    rewrite Hq1k in Hx by done. unfold p3 in Hx.
    rewrite lookup_clear_all_notin in Hx by done.
    assert (p2 !! k = p !! k) as E.
    { unfold p2, p1. destruct promo; rewrite !list_lookup_insert_ne by done; done. }
    congruence.
Qed.

Lemma pushed_move_fields F n m j vs :
  square_list (pushed_move F n m j vs) = square_list m
  /\ captured_list (pushed_move F n m j vs) = captured_list m
  /\ captured_entities (pushed_move F n m j vs) = captured_entities m
  /\ is_promotion (pushed_move F n m j vs)
     = promotes F n (Z.of_nat j) (wrap8 vs) || is_promotion m.
Proof. unfold pushed_move. destruct (promotes _ _ _ _); done. Qed.

Lemma length_pushed_pos F n p i j vs vt cs :
  length (pushed_pos F n p i j vs vt cs) = length p.
Proof.
  unfold pushed_pos. rewrite length_clear_all.
  destruct (promotes _ _ _ _); by rewrite !length_insert.
Qed.

Lemma after_turn_involutive f c : after_turn f (after_turn f c) = c.
Proof. destruct f; [apply other_color_involutive|done]. Qed.

Lemma map_of_nat_to_nat (l : list Z) :
  Forall (fun z => 0 <= z) l -> map Z.of_nat (map Z.to_nat l) = l.
Proof.
  induction 1 as [|z l Hz _ IH]; [done|]. simpl. rewrite IH. f_equal. lia.
Qed.

(** ** The round trip of [push] and [pop] *)

Lemma flag_object_fresh (m : Move) (st : list Move) :
  fresh m st -> flag_object (obj m) st = st.
Proof.
  unfold fresh, flag_object. induction 1 as [|x st Hx _ IH]; [done|].
  simpl. rewrite IH. apply Nat.eqb_neq in Hx. by rewrite Hx.
Qed.

(** X14: for a board [b] and a legally applicable move [m] (the origin holds
    a piece of the side to move, the destination is empty, the captured
    squares hold pieces whose values [captured_entities] records, and
    [is_promotion] is false) whose object is not on the stack yet,
    [push m is_finished] succeeds and [pop is_finished] on the resulting
    board gives back [b] itself - position buffer, turn and move stack -
    whatever [is_finished] is. *)
Theorem push_pop_roundtrip (F : Models) (b : Board) (m : Move)
    (is_finished : bool) (src tg vs : Z) :
  Models_ok F -> Board_ok b ->
  origin m = Some src -> destination m = Some tg -> 0 <= src -> 0 <= tg ->
  array_get (_pos b) src = Some vs -> piece_of F (turn b) vs ->
  array_get (_pos b) tg = Some (EMPTY F) ->
  Forall2 (fun sq e => 0 <= sq /\ array_get (_pos b) sq = Some e /\ e <> EMPTY F)
          (captured_list m) (captured_entities m) ->
  is_promotion m = false ->
  fresh m (_moves_stack b) ->
  exists b' m',
    Draughts.push F m is_finished b = (b', Return m')
    /\ Draughts.pop F is_finished b' = (b, Return m').
Proof.
  intros HF Hb Hsrc Htg Hs0 Ht0 Hvs [Hocc _] Hvt Hcap Hflag Hfresh.
  set (i := Z.to_nat src). set (j := Z.to_nat tg).
  set (cs := map Z.to_nat (captured_list m)).
  assert (Hi : _pos b !! i = Some vs) by (by apply array_get_nonneg).
  assert (Hj : _pos b !! j = Some (EMPTY F)) by (by apply array_get_nonneg).
  assert (Hli := lookup_lt_Some _ _ _ Hi). assert (Hlj := lookup_lt_Some _ _ _ Hj).
  assert (Hn : 2 <= fst (shape b)) by (apply Board_ok_rows; [done|lia]).
  assert (Hij : i <> j) by (intros E; rewrite E in Hi; congruence).
  assert (Hcs : captured_list m = map Z.of_nat cs).
  { unfold cs. symmetry. apply map_of_nat_to_nat.
    clear -Hcap. induction Hcap as [|???? [? _]]; constructor; done. }
  assert (Hcs2 : Forall2 (fun k e => _pos b !! k = Some e /\ e <> EMPTY F)
                         cs (captured_entities m)).
  { unfold cs. clear -Hcap.
    induction Hcap as [|sq e ?? (H0 & Hg & He) _ IH]; simpl; constructor; [|done].
    split; [by apply array_get_nonneg|done]. }
  assert (Hin : Forall (fun k => (k < length (_pos b))%nat) cs).
  { clear -Hcs2. induction Hcs2 as [|???? [H _]]; constructor; [|done].
    by eapply lookup_lt_Some. }
  assert (Hjcs : j ∉ cs).
  { intros Hjin. clear -Hjin Hcs2 Hj.
    induction Hcs2 as [|k e ?? [Hk He] _ IH]; [by apply elem_of_nil in Hjin|].
    apply elem_of_cons in Hjin as [->|Hjin]; [congruence|auto]. }
  assert (Hsrc' : origin m = Some (Z.of_nat i)) by (rewrite Hsrc; f_equal; lia).
  assert (Htg' : destination m = Some (Z.of_nat j)) by (rewrite Htg; f_equal; lia).
  pose proof (push_run F b m is_finished i j vs (EMPTY F) cs
                Hn Hsrc' Htg' Hi Hj Hcs Hin) as Hpush.
  assert (Hst : pushed_stack F (fst (shape b)) m j vs (_moves_stack b)
                = _moves_stack b).
  { unfold pushed_stack. destruct (promotes _ _ _ _); [|done].
    by apply flag_object_fresh. }
  rewrite Hst in Hpush.
  eexists _, _. split; [exact Hpush|].
  destruct (pushed_move_fields F (fst (shape b)) m j vs) as (Esl & Ecl & Ece & Epr).
  erewrite pop_run with (i := i) (j := j) (st := _moves_stack b)
                        (l := zip cs (captured_entities m)); cycle 1.
  - reflexivity.
  - unfold origin. rewrite Esl. exact Hsrc'.
  - unfold destination. rewrite Esl. exact Htg'.
  - cbn [_pos]. by rewrite length_pushed_pos.
  - cbn [_pos]. by rewrite length_pushed_pos.
  - rewrite Ecl, Ece, Hcs. clear. generalize (captured_entities m).
    induction cs as [|c cs IH]; intros [|e ents]; simpl; [done..|].
    by rewrite IH.
  - cbn [_pos]. rewrite length_pushed_pos.
    clear -Hin. revert Hin. generalize (captured_entities m).
    induction cs as [|c cs IH]; intros [|e ents] H; simpl; [done..|].
    apply Forall_cons in H as [Hc H]. constructor; [done|]. by apply IH.
  - cbn [_pos turn shape]. rewrite Epr, Hflag, orb_false_r.
    rewrite roundtrip_pos; try done.
    + rewrite after_turn_involutive. by destruct b.
    + by destruct Hb.
    + clear -Hcs2. induction Hcs2 as [|???? [H _]]; constructor; done.
Qed.

(** ** The promotion rule *)

(** What [push] leaves on the destination square, in the terms of its own
    test [promotes]. *)
Lemma push_promotion_run (F : Models) (b : Board) (m : Move)
    (is_finished : bool) (src tg vs vt : Z) :
  Models_ok F -> Board_ok b ->
  origin m = Some src -> destination m = Some tg -> 0 <= src -> 0 <= tg ->
  array_get (_pos b) src = Some vs -> array_get (_pos b) tg = Some vt ->
  Forall (fun sq => 0 <= sq < Z.of_nat (length (_pos b)) /\ sq <> tg)
         (captured_list m) ->
  exists b' m',
    Draughts.push F m is_finished b = (b', Return m')
    /\ _moves_stack b'
       = (if promotes F (fst (shape b)) tg vs
          then flag_object (obj m) (_moves_stack b) else _moves_stack b) ++ [m']
    /\ square_list m' = square_list m
    /\ (if promotes F (fst (shape b)) tg vs
        then array_get (_pos b') tg = Some (vs * KING F) /\ is_promotion m' = true
        else array_get (_pos b') tg = Some vs /\ is_promotion m' = is_promotion m)
    /\ (forall k : nat,
          Z.of_nat k <> src -> Z.of_nat k <> tg -> Z.of_nat k ∉ captured_list m ->
          _pos b' !! k = _pos b !! k).
Proof.
  intros HF Hb Hsrc Htg Hs0 Ht0 Hvs Hvt Hcap.
  set (i := Z.to_nat src). set (j := Z.to_nat tg).
  set (cs := map Z.to_nat (captured_list m)).
  assert (Hi : _pos b !! i = Some vs) by (by apply array_get_nonneg).
  assert (Hj : _pos b !! j = Some vt) by (by apply array_get_nonneg).
  assert (Hli := lookup_lt_Some _ _ _ Hi). assert (Hlj := lookup_lt_Some _ _ _ Hj).
  assert (Hn : 2 <= fst (shape b)) by (apply Board_ok_rows; [done|lia]).
  assert (Hint : int8 vs) by (destruct Hb as [Hb _]; eapply Forall_lookup_1; eauto).
  assert (Hcs : captured_list m = map Z.of_nat cs).
  { unfold cs. symmetry. apply map_of_nat_to_nat.
    eapply Forall_impl; [exact Hcap|]. simpl. lia. }
  assert (Hin : Forall (fun k => (k < length (_pos b))%nat) cs).
  { unfold cs. clear -Hcap.
    induction Hcap as [|sq l [H _] _ IH]; simpl; constructor; [lia|done]. }
  assert (Hjcs : j ∉ cs).
  { unfold cs. intros Hjin. apply list_elem_of_fmap in Hjin as (sq & E & Hsq).
    rewrite Forall_forall in Hcap. destruct (Hcap sq Hsq) as [? ?]. lia. }
  assert (Hsrc' : origin m = Some (Z.of_nat i)) by (rewrite Hsrc; f_equal; lia).
  assert (Htg' : destination m = Some (Z.of_nat j)) by (rewrite Htg; f_equal; lia).
  pose proof (push_run F b m is_finished i j vs vt cs
                Hn Hsrc' Htg' Hi Hj Hcs Hin) as Hpush.
  destruct (pushed_move_fields F (fst (shape b)) m j vs) as (Esl & Ecl & Ece & Epr).
  assert (Etg : Z.of_nat j = tg) by lia.
  rewrite (wrap8_int8 vs Hint) in Epr.
  eexists _, _. split; [exact Hpush|]. cbn [_pos _moves_stack].
  split; [unfold pushed_stack; by rewrite (wrap8_int8 vs Hint), Etg|].
  split; [done|].
  assert (Hl1 : length (<[j:=vs]> (<[i:=wrap8 vt]> (_pos b))) = length (_pos b))
    by (by rewrite !length_insert).
  split.
  - rewrite <- Etg. rewrite !array_get_nat by (by rewrite length_pushed_pos).
    unfold pushed_pos. rewrite (wrap8_int8 vs Hint), !lookup_clear_all_notin by done.
    rewrite Epr.
    destruct (promotes F (shape b).1 (Z.of_nat j) vs) eqn:Ep.
    + destruct (promoted_value F _ _ _ HF Ep) as [Ew _]. rewrite Ew.
      split; [|done]. apply list_lookup_insert_eq. lia.
    + split; [|done]. apply list_lookup_insert_eq. by rewrite length_insert.
  - intros k Hks Hkt Hkc. unfold pushed_pos.
    rewrite lookup_clear_all_notin; cycle 1.
    { intros Hk. apply Hkc. rewrite Hcs. apply list_elem_of_fmap. eauto. }
    assert (Hjk : j <> k) by lia. assert (Hik : i <> k) by lia.
    destruct (promotes F (shape b).1 (Z.of_nat j) (wrap8 vs));
      rewrite ?list_lookup_insert_ne by done; done.
Qed.

Lemma repo_models_ok : Models_ok repo_models.
Proof. split; unfold int8; simpl; lia. Defined.

Ltac board_ok :=
  split; [repeat (constructor; [unfold int8; lia|]); constructor
         | split; [simpl; lia | split; reflexivity]].

Lemma push_pop_roundtrip_witness :
  exists b' m',
    Draughts.push repo_models capture_move true capture_board = (b', Return m')
    /\ Draughts.pop repo_models true b' = (capture_board, Return m').
Proof.
  apply (push_pop_roundtrip repo_models capture_board capture_move true 9 0 (-1)).
  - exact repo_models_ok.
  - board_ok.
  - reflexivity.
  - reflexivity.
  - lia.
  - lia.
  - reflexivity.
  - split; [discriminate | left; reflexivity].
  - reflexivity.
  - repeat constructor; discriminate.
  - reflexivity.
  - constructor.
Defined.

(** C1 (the behaviour of the code): a [Move] object that lies on the stack
    is pushed again, this time as a promoting move. [aliased_board] is
    reached from [aliased_start] by three calls of [push], and on it every
    condition of the round trip holds for [aliased_move]: a man of the side
    to move on the origin, an empty destination, nothing captured,
    [is_promotion] false. [push] then [pop] restore the buffer and the turn,
    but not the stack: its first entry - the same object - stays flagged
    [is_promotion]. Undoing the three earlier moves then divides the king by
    [KING]: the man that comes back on square 4 is not the king that
    started there. *)
Lemma push_pop_aliased_move :
  bind (Draughts.push repo_models aliased_move false)
       (fun _ => bind (Draughts.push repo_models (move_of 2 [0; 5]) false)
                      (fun _ => Draughts.push repo_models (move_of 3 [8; 4]) false))
       aliased_start
  = (aliased_board, Return (move_of 3 [8; 4]))
  /\ (origin aliased_move = Some 4 /\ destination aliased_move = Some 0
      /\ array_get (_pos aliased_board) 4 = Some (-1)
      /\ piece_of repo_models (turn aliased_board) (-1)
      /\ array_get (_pos aliased_board) 0 = Some (EMPTY repo_models)
      /\ captured_list aliased_move = []
      /\ is_promotion aliased_move = false)
  /\ exists b1 b2 b3 : Board,
       Draughts.push repo_models aliased_move false aliased_board
       = (b1, Return (set_is_promotion aliased_move true))
       /\ Draughts.pop repo_models false b1
          = (b2, Return (set_is_promotion aliased_move true))
       /\ _pos b2 = _pos aliased_board /\ turn b2 = turn aliased_board
       /\ _moves_stack aliased_board
          = [aliased_move; move_of 2 [0; 5]; move_of 3 [8; 4]]
       /\ _moves_stack b2
          = [set_is_promotion aliased_move true;
             move_of 2 [0; 5]; move_of 3 [8; 4]]
       /\ bind (Draughts.pop repo_models false)
               (fun _ => bind (Draughts.pop repo_models false)
                              (fun _ => Draughts.pop repo_models false)) b2
          = (b3, Return (set_is_promotion aliased_move true))
       /\ _pos aliased_start !! 4%nat = Some (-2)
       /\ _pos b3 !! 4%nat = Some (-1).
Proof.
  split; [vm_compute; reflexivity|]. split.
  - repeat split; try reflexivity; [discriminate|left; reflexivity].
  - do 3 eexists. repeat split; vm_compute; reflexivity.
Qed.


(** ** The promotion rule on the display grid *)

Lemma friendly_form_unfold b :
  friendly_form b
  = [0] ++ concat (imap (fun i sq => padding (fst (shape b)) (Z.of_nat i) ++ [sq])
                        (_pos b)) ++ [0].
Proof.
  unfold friendly_form, padding. do 3 f_equal. apply imap_ext. intros i x _.
  by rewrite <- app_assoc.
Qed.

Lemma grid_place_prefix n k :
  grid_place n k = (grid_prefix n k + length (padding n (Z.of_nat k)))%nat.
Proof. destruct k; cbn [grid_place grid_prefix]; [change (Z.of_nat 0) with 0|]; lia. Qed.

Lemma length_concat_cells n (l : list Z) (j : nat) :
  (length (concat (imap (fun i sq => padding n (Z.of_nat (j + i)) ++ [sq]) l))
   + grid_prefix n j = grid_prefix n (j + length l))%nat.
Proof.
  revert j. induction l as [|x l IH]; intros j.
  - simpl. by rewrite Nat.add_0_r.
  - rewrite imap_cons. simpl concat. rewrite !length_app. simpl length.
    rewrite Nat.add_0_r.
    specialize (IH (S j)).
    rewrite (imap_ext _ (fun i sq => padding n (Z.of_nat (S j + i)) ++ [sq]) l)
      by (intros i y _; unfold compose; cbv beta; do 2 f_equal; lia).
    replace (j + S (length l))%nat with (S j + length l)%nat by lia.
    rewrite <- IH. cbn [grid_prefix]. rewrite (grid_place_prefix n j). lia.
Qed.

Lemma friendly_form_lookup (b : Board) (k : nat) (v : Z) :
  _pos b !! k = Some v ->
  friendly_form b !! grid_place (fst (shape b)) k = Some v.
Proof.
  intros Hk. rewrite friendly_form_unfold.
  set (n := fst (shape b)).
  destruct (list_elem_of_split_length _ _ _ Hk) as (l1 & l2 & E & ->).
  rewrite E, imap_app, imap_cons, concat_app. simpl concat.
  pose proof (length_concat_cells n l1 0) as H1. simpl in H1.
  rewrite grid_place_prefix, <- H1, Nat.add_0_r.
  set (c1 := concat (imap (fun i sq => padding n (Z.of_nat i) ++ [sq]) l1)).
  set (rest := concat (imap _ l2)).
  set (pad := padding n (Z.of_nat (length l1))).
  replace ([0] ++ (c1 ++ (pad ++ [v]) ++ rest) ++ [0])
    with (([0] ++ c1 ++ pad) ++ v :: (rest ++ [0]))
    by (by rewrite <- !app_assoc).
  apply list_lookup_middle. rewrite !length_app. simpl. lia.
Qed.

Lemma div_succ (h k : Z) :
  0 < h -> 0 <= k ->
  (k + 1) / h = k / h + (if (k + 1) mod h =? 0 then 1 else 0).
Proof.
  intros Hh Hk.
  pose proof (Z.div_mod k h). pose proof (Z.mod_pos_bound k h).
  pose proof (Z.div_mod (k + 1) h). pose proof (Z.mod_pos_bound (k + 1) h).
  destruct (Z.eqb_spec ((k + 1) mod h) 0); nia.
Qed.

Lemma length_padding (n idx : Z) :
  0 < idx ->
  Z.of_nat (length (padding n idx))
  = (if idx mod (n / 2) =? 0 then 0 else 1) + (if idx mod n =? 0 then 2 else 0).
Proof.
  intros Hidx. unfold padding. rewrite length_app.
  destruct (Z.eqb_spec idx 0); [lia|].
  destruct (idx mod (n / 2) =? 0), (idx mod n =? 0); simpl; lia.
Qed.

Lemma grid_place_closed (h : Z) (k : nat) :
  0 < h ->
  Z.of_nat (grid_place (2 * h) k)
  = 2 * Z.of_nat k + 1 - Z.of_nat k / h + 2 * (Z.of_nat k / (2 * h)).
Proof.
  intros Hh.
  assert (Hhalf : 2 * h / 2 = h) by (rewrite Z.mul_comm; apply Z.div_mul; lia).
  induction k as [|k IH].
  - cbn [grid_place]. unfold padding. rewrite Hhalf.
    change (Z.of_nat 0) with 0. rewrite !Z.mod_0_l by lia.
    rewrite !Z.div_0_l by lia. simpl. lia.
  - cbn [grid_place]. rewrite !Nat2Z.inj_add, IH, length_padding by lia.
    rewrite Hhalf. replace (Z.of_nat (S k)) with (Z.of_nat k + 1) by lia.
    rewrite (div_succ h (Z.of_nat k)), (div_succ (2 * h) (Z.of_nat k)) by lia.
    destruct ((Z.of_nat k + 1) mod h =? 0), ((Z.of_nat k + 1) mod (2 * h) =? 0);
      simpl Z.of_nat; lia.
Qed.

Lemma grid_place_row (b : Board) (k : nat) :
  Board_ok b -> (k < length (_pos b))%nat ->
  let n := fst (shape b) in
  let r := row_of n (Z.of_nat k) in
  let c := 2 * (Z.of_nat k mod (n / 2)) + 1 - r mod 2 in
  0 <= r /\ 0 <= c < n /\ Z.of_nat (grid_place n k) = r * n + c.
Proof.
  intros Hb Hlen n r c.
  assert (Hn : 2 <= n) by (apply Board_ok_rows; [done|lia]).
  destruct Hb as (_ & _ & Hsq & _). fold n in Hsq.
  set (h := n / 2) in *.
  assert (Heven : n = 2 * h).
  { unfold h. pose proof (Z.div_mod n 2). pose proof (Z.mod_pos_bound n 2).
    assert (n mod 2 = 0 \/ n mod 2 = 1) as [E|E] by lia; [lia|nia]. }
  assert (Hh : 0 < h) by lia.
  pose proof (Z.mod_pos_bound (Z.of_nat k) h Hh) as Hc.
  pose proof (Z.mod_pos_bound r 2) as Hr2.
  assert (Er : r = Z.of_nat k / h) by done.
  assert (Hr : 0 <= r) by (rewrite Er; apply Z.div_pos; lia).
  split; [done|]. split; [unfold c; lia|].
  assert (E2 : Z.of_nat k / (2 * h) = Z.of_nat k / h / 2).
  { rewrite Z.div_div by lia. f_equal. lia. }
  rewrite Heven at 1. rewrite grid_place_closed, E2, <- Er by done.
  unfold c. rewrite Heven.
  pose proof (Z.div_mod (Z.of_nat k) h). pose proof (Z.div_mod r 2).
  nia.
Qed.

(** [friendly_form] shows the cell of subscript [k] on row [row_of n k] of the
    [n] x [n] grid, at column [c]. *)
Lemma friendly_form_row (b : Board) (k : nat) (v : Z) :
  Board_ok b -> _pos b !! k = Some v ->
  let n := fst (shape b) in
  let r := row_of n (Z.of_nat k) in
  let c := 2 * (Z.of_nat k mod (n / 2)) + 1 - r mod 2 in
  0 <= c < n /\ friendly_form b !! Z.to_nat (r * n + c) = Some v.
Proof.
  intros Hb Hk n r c.
  destruct (grid_place_row b k Hb (lookup_lt_Some _ _ _ Hk)) as (_ & Hc & Hplace).
  split; [done|].
  fold n r c in Hplace. rewrite <- Hplace, Nat2Z.id. by apply friendly_form_lookup.
Qed.

(** The row [push] computes, [tg // (n // 2)], is the row of the display grid. *)
Lemma grid_row_row_of (b : Board) (k : nat) :
  Board_ok b -> (k < length (_pos b))%nat ->
  grid_row (fst (shape b)) k = row_of (fst (shape b)) (Z.of_nat k).
Proof.
  intros Hb Hk.
  destruct (grid_place_row b k Hb Hk) as (Hr & Hc & Hplace).
  unfold grid_row. rewrite Hplace. symmetry.
  eapply Z.div_unique_pos; [exact Hc|]. lia.
Qed.

(** C2: [push] crowns the piece it has just moved exactly when that piece is
    a white man now on row 0 of the expanded grid or a black man now on row
    [n - 1]: the destination cell then holds the piece's value times [KING]
    and the move is flagged [is_promotion]; in every other case (a king on
    the back row, a man elsewhere) the destination holds the moved piece as
    it was and the flag is the one the move came with. No cell besides the
    origin, the destination and the captured squares changes. The row is the
    one on which [friendly_form] displays the destination. The flag is set
    on the object: the entries of the stack that are this object show it,
    the other entries are as they were. *)
Theorem push_promotion_rule (F : Models) (b : Board) (m : Move)
    (is_finished : bool) (src tg vs vt : Z) :
  Models_ok F -> Board_ok b ->
  origin m = Some src -> destination m = Some tg -> 0 <= src -> 0 <= tg ->
  array_get (_pos b) src = Some vs -> array_get (_pos b) tg = Some vt ->
  Forall (fun sq => 0 <= sq < Z.of_nat (length (_pos b)) /\ sq <> tg)
         (captured_list m) ->
  exists b' m',
    Draughts.push F m is_finished b = (b', Return m')
    /\ _moves_stack b'
       = (if crowned F (fst (shape b)) tg vs
          then flag_object (obj m) (_moves_stack b) else _moves_stack b) ++ [m']
    /\ square_list m' = square_list m
    /\ (if crowned F (fst (shape b)) tg vs
        then array_get (_pos b') tg = Some (vs * KING F) /\ is_promotion m' = true
        else array_get (_pos b') tg = Some vs /\ is_promotion m' = is_promotion m)
    /\ (forall k : nat,
          Z.of_nat k <> src -> Z.of_nat k <> tg -> Z.of_nat k ∉ captured_list m ->
          _pos b' !! k = _pos b !! k).
Proof.
  intros HF Hb Hsrc Htg Hs0 Ht0 Hvs Hvt Hcap.
  assert (Hrow : crowned F (fst (shape b)) tg vs = promotes F (fst (shape b)) tg vs).
  { unfold crowned, promotes.
    rewrite (grid_row_row_of b (Z.to_nat tg) Hb), Z2Nat.id by
      (done || (eapply lookup_lt_Some; by apply array_get_nonneg)).
    done. }
  rewrite Hrow. by eapply push_promotion_run.
Qed.

Lemma push_promotion_witness :
  exists b' m',
    Draughts.push repo_models promotion_move false promotion_board = (b', Return m')
    /\ _moves_stack b'
       = (if crowned repo_models (fst (shape promotion_board)) 0 (-1)
          then flag_object (obj promotion_move) (_moves_stack promotion_board)
          else _moves_stack promotion_board) ++ [m']
    /\ square_list m' = square_list promotion_move
    /\ (if crowned repo_models (fst (shape promotion_board)) 0 (-1)
        then array_get (_pos b') 0 = Some (-1 * KING repo_models)
             /\ is_promotion m' = true
        else array_get (_pos b') 0 = Some (-1)
             /\ is_promotion m' = is_promotion promotion_move)
    /\ (forall k : nat,
          Z.of_nat k <> 4 -> Z.of_nat k <> 0 ->
          Z.of_nat k ∉ captured_list promotion_move ->
          _pos b' !! k = _pos promotion_board !! k).
Proof.
  apply (push_promotion_rule repo_models promotion_board promotion_move false
           4 0 (-1) 0).
  - exact repo_models_ok.
  - board_ok.
  - reflexivity.
  - reflexivity.
  - lia.
  - lia.
  - reflexivity.
  - reflexivity.
  - constructor.
Defined.

(** ** Decimal numerals *)

Local Open Scope char_scope.

Lemma chars_of_uint_digits d : Forall (fun c => is_digit c = true) (chars_of_uint d).
Proof. induction d; simpl; constructor; done. Qed.

Lemma int_of_chars_of_uint d acc :
  fold_left (fun acc c => (10 * acc + (nat_of_ascii c - 48))%nat) (chars_of_uint d) acc
  = Nat.of_uint_acc d acc.
Proof.
  revert acc. induction d; intros acc; simpl fold_left; simpl Nat.of_uint_acc;
    [done | rewrite IHd, Nat.tail_mul_spec; f_equal; simpl; lia ..].
Qed.

Lemma int_of_str_of_nat n : int_of_digits (str_of_nat n) = n.
Proof.
  unfold int_of_digits, str_of_nat. rewrite int_of_chars_of_uint.
  apply Unsigned.of_to.
Qed.

Lemma str_of_nat_digits n : Forall (fun c => is_digit c = true) (str_of_nat n).
Proof. apply chars_of_uint_digits. Qed.

Lemma str_of_nat_nonempty n : (0 < n)%nat -> str_of_nat n <> [].
Proof.
  intros Hn E. pose proof (int_of_str_of_nat n) as H. rewrite E in H.
  unfold int_of_digits in H. simpl in H. lia.
Qed.

Lemma isdigit_str_of_nat n : (0 < n)%nat -> isdigit (str_of_nat n) = true.
Proof.
  intros Hn. unfold isdigit.
  destruct (str_of_nat n) as [|c s] eqn:E; [by apply str_of_nat_nonempty in E|].
  rewrite <- E. apply forallb_forall. intros c' Hc'.
  pose proof (str_of_nat_digits n) as H. rewrite Forall_forall in H.
  apply H. by apply list_elem_of_In.
Qed.

(** ** Characters *)

Lemma is_list_char_facts c :
  is_list_char c = true ->
  upper_char c = c /\ c <> "W" /\ c <> "B" /\ c <> "G" /\ c <> "P" /\ c <> ":"
  /\ c <> "034".
Proof.
  destruct c as [[] [] [] [] [] [] [] []]; vm_compute; intros H;
    first [discriminate H | repeat split; discriminate].
Qed.

Lemma is_digit_facts c :
  is_digit c = true -> is_list_char c = true /\ c <> "K" /\ c <> ",".
Proof.
  destruct c as [[] [] [] [] [] [] [] []]; vm_compute; intros H;
    first [discriminate H | repeat split; discriminate].
Qed.

(** ** Searching and substituting *)

Lemma take_while_app p (l r : str) :
  Forall (fun c => p c = true) l ->
  match r with [] => True | c :: _ => p c = false end ->
  take_while p (l ++ r) = l.
Proof.
  intros Hl Hr. induction Hl as [|c l Hc _ IH]; simpl.
  - destruct r as [|c r]; [done|]. simpl. by rewrite Hr.
  - by rewrite Hc, IH.
Qed.

Lemma re_search_skip (m : matcher) (l r : str) :
  (forall c t, c ∈ l -> m (c :: t) = None) ->
  re_search m (l ++ r) = re_search m r.
Proof.
  intros H. induction l as [|c l IH]; [done|].
  simpl. rewrite (H c) by apply list_elem_of_here.
  apply IH. intros c' t Hc'. apply H. by apply list_elem_of_further.
Qed.

Lemma re_search_here (m : matcher) (s g : str) :
  m s = Some g -> re_search m s = Some g.
Proof. intros H. destruct s; simpl; by rewrite H. Qed.

Lemma re_sub_from_id (m : matcher) (repl s : str) :
  (forall c t, c ∈ s -> m (c :: t) = None) ->
  re_sub_from m repl 0 s = s.
Proof.
  intros H. induction s as [|c s IH]; [done|].
  simpl. rewrite (H c) by apply list_elem_of_here.
  f_equal. apply IH. intros c' t Hc'. apply H. by apply list_elem_of_further.
Qed.

Lemma re_sub_from_app (m : matcher) (repl l r : str) :
  (forall c t, c ∈ l -> m (c :: t) = None) ->
  re_sub_from m repl 0 (l ++ r) = l ++ re_sub_from m repl 0 r.
Proof.
  intros H. induction l as [|c l IH]; [done|].
  simpl. rewrite (H c) by apply list_elem_of_here.
  f_equal. apply IH. intros c' t Hc'. apply H. by apply list_elem_of_further.
Qed.

Lemma re_sub_from_skip (m : matcher) (repl l r : str) :
  re_sub_from m repl (length l) (l ++ r) = re_sub_from m repl 0 r.
Proof. induction l as [|c l IH]; [by destruct r|]. simpl. exact IH. Qed.

Lemma re_premove_head c t :
  c <> "G" -> c <> "P" -> re_premove (c :: t) = None.
Proof.
  intros HG HP. unfold re_premove.
  apply Ascii.eqb_neq in HG, HP. by rewrite HG, HP.
Qed.

Lemma re_color_head letter c t : c <> letter -> re_color letter (c :: t) = None.
Proof. intros H. unfold re_color. apply Ascii.eqb_neq in H. by rewrite H. Qed.

Lemma starts_with_head a p c t : c <> a -> starts_with (a :: p) (c :: t) = false.
Proof.
  intros H. simpl. assert (a <> c) as H' by congruence.
  apply Ascii.eqb_neq in H'. by rewrite H'.
Qed.

Lemma replace_id (a : ascii) (old new s : str) :
  Forall (fun c => c <> a) s -> replace (a :: old) new s = s.
Proof.
  intros H. unfold replace, re_sub. apply re_sub_from_id.
  intros c t Hc. rewrite Forall_forall in H.
  by rewrite starts_with_head by (by apply H).
Qed.

(** ** Joining and splitting *)

Lemma split_no_sep sep (t : str) :
  Forall (fun c => c <> sep) t -> split sep t = [t].
Proof.
  induction 1 as [|c t Hc _ IH]; [done|].
  simpl. apply Ascii.eqb_neq in Hc. by rewrite Hc, IH.
Qed.

Lemma split_app_sep sep (t r : str) :
  Forall (fun c => c <> sep) t -> split sep (t ++ sep :: r) = t :: split sep r.
Proof.
  induction 1 as [|c t Hc _ IH]; simpl.
  - by rewrite Ascii.eqb_refl.
  - apply Ascii.eqb_neq in Hc. by rewrite Hc, IH.
Qed.

Lemma split_join sep (toks : list str) :
  toks <> [] -> Forall (Forall (fun c => c <> sep)) toks ->
  split sep (join [sep] toks) = toks.
Proof.
  intros Hne H. induction H as [|t toks Ht Htoks IH]; [done|].
  destruct toks as [|t' toks'].
  - simpl. by apply split_no_sep.
  - change (join [sep] (t :: t' :: toks')) with (t ++ sep :: join [sep] (t' :: toks')).
    rewrite split_app_sep by done. f_equal. by apply IH.
Qed.

Lemma join_chars (P : ascii -> Prop) sep (toks : list str) :
  Forall P sep -> Forall (Forall P) toks -> Forall P (join sep toks).
Proof.
  intros Hsep H. induction H as [|t toks Ht Htoks IH]; [constructor|].
  destruct toks as [|t' toks']; [done|].
  change (join sep (t :: t' :: toks')) with (t ++ sep ++ join sep (t' :: toks')).
  rewrite !Forall_app. auto.
Qed.

Lemma join_nonempty sep (toks : list str) :
  toks <> [] -> Forall (fun t => t <> []) toks -> join sep toks <> [].
Proof.
  intros Hne H. destruct H as [|t toks Ht Htoks]; [done|].
  destruct toks; simpl; [done|]. by destruct t.
Qed.

(** ** The text [fen] produces and what [from_fen] reads in it *)

Lemma upper_id s : Forall (fun c => upper_char c = c) s -> upper s = s.
Proof. induction 1 as [|c s Hc _ IH]; [done|]. simpl. by rewrite Hc, IH. Qed.

Lemma list_text_clean (P : ascii -> Prop) s :
  (forall c, is_list_char c = true -> P c) -> list_text s -> Forall P s.
Proof. intros H Hs. eapply Forall_impl; [exact Hs|]. exact H. Qed.

Ltac in_list :=
  repeat first [apply list_elem_of_here | apply list_elem_of_further].

Lemma fen_text_chars (P : ascii -> Prop) t wl bl :
  (forall c, is_list_char c = true -> P c) ->
  Forall P ["["; "F"; "E"; "N"; " "; "034"; "W"; "B"; ":"; "]"] ->
  list_text wl -> list_text bl ->
  Forall P (fen_text t wl bl).
Proof.
  intros Hl Hc Hwl Hbl. unfold fen_text.
  assert (Hin : forall c, c ∈ ["["; "F"; "E"; "N"; " "; "034"; "W"; "B"; ":"; "]"] -> P c)
    by (by apply Forall_forall).
  rewrite !Forall_app.
  repeat split; try (by apply list_text_clean).
  - unfold Codec.fen_open. repeat constructor; apply Hin; in_list.
  - destruct t; repeat constructor; apply Hin; in_list.
  - repeat constructor; apply Hin; in_list.
  - repeat constructor; apply Hin; in_list.
  - unfold Codec.fen_close. repeat constructor; apply Hin; in_list.
Qed.

Lemma upper_fen_text t wl bl :
  list_text wl -> list_text bl -> upper (fen_text t wl bl) = fen_text t wl bl.
Proof.
  intros Hwl Hbl. apply upper_id. apply fen_text_chars; [|by repeat constructor|done..].
  intros c Hc. by apply is_list_char_facts.
Qed.

Lemma premove_fen_text t wl bl :
  list_text wl -> list_text bl ->
  re_sub re_premove [] (fen_text t wl bl) = fen_text t wl bl.
Proof.
  intros Hwl Hbl. apply re_sub_from_id. intros c r Hc.
  assert (H : Forall (fun c => c <> "G" /\ c <> "P") (fen_text t wl bl)).
  { apply fen_text_chars; [|by repeat constructor|done..].
    intros c' Hc'. apply is_list_char_facts in Hc'. tauto. }
  rewrite Forall_forall in H. destruct (H c Hc). by apply re_premove_head.
Qed.

Lemma prefix_fen_text t wl bl :
  re_search re_prefix (fen_text t wl bl)
  = Some (["W"; ":"] ++ Codec.COLORS_REPR t ++ [":"; "W"]).
Proof. by destruct t. Qed.

Lemma list_text_tail_no P (wl bl : str) :
  (forall c, is_list_char c = true -> P c) ->
  Forall P [":"; "B"; "034"; "]"] ->
  list_text wl -> list_text bl ->
  Forall P (wl ++ [":"; "B"] ++ bl ++ Codec.fen_close).
Proof.
  intros Hl Hc Hwl Hbl.
  assert (Hin : forall c, c ∈ [":"; "B"; "034"; "]"] -> P c) by (by apply Forall_forall).
  rewrite !Forall_app. repeat split; try (by apply list_text_clean).
  - repeat constructor; apply Hin; in_list.
  - unfold Codec.fen_close. repeat constructor; apply Hin; in_list.
Qed.

Lemma starts_with_app (p r : str) : starts_with p (p ++ r) = true.
Proof. induction p as [|a p IH]; [done|]. simpl. by rewrite Ascii.eqb_refl, IH. Qed.

Lemma re_sub_from_match (m : matcher) (repl g : str) c r :
  m (c :: r) = Some g ->
  re_sub_from m repl 0 (c :: r) = repl ++ re_sub_from m repl (length g - 1) r.
Proof. simpl. by intros ->. Qed.

(** One occurrence of [old], and its first character nowhere else. *)
Lemma replace_once (a : ascii) (old' new l rest : str) :
  Forall (fun c => c <> a) l -> Forall (fun c => c <> a) rest ->
  replace (a :: old') new (l ++ (a :: old') ++ rest) = l ++ new ++ rest.
Proof.
  intros Hl Hrest. unfold replace, re_sub.
  rewrite re_sub_from_app; cycle 1.
  { intros c t Hc. rewrite Forall_forall in Hl.
    by rewrite starts_with_head by (by apply Hl). }
  f_equal.
  change ((a :: old') ++ rest) with (a :: (old' ++ rest)).
  rewrite (re_sub_from_match _ _ (a :: old')); cycle 1.
  { change (a :: (old' ++ rest)) with ((a :: old') ++ rest).
    by rewrite starts_with_app. }
  f_equal.
  replace (length (a :: old') - 1)%nat with (length old') by (simpl; lia).
  rewrite re_sub_from_skip.
  apply re_sub_from_id. intros c t Hc. rewrite Forall_forall in Hrest.
  by rewrite starts_with_head by (by apply Hrest).
Qed.

Lemma replace_fen_text t wl bl :
  list_text wl -> list_text bl ->
  replace (["W"; ":"] ++ Codec.COLORS_REPR t ++ [":"; "W"])
          (drop 2 (["W"; ":"] ++ Codec.COLORS_REPR t ++ [":"; "W"]))
          (fen_text t wl bl)
  = fen_text_stripped t wl bl.
Proof.
  intros Hwl Hbl.
  assert (H : Forall (fun c => c <> "W") (wl ++ [":"; "B"] ++ bl ++ Codec.fen_close)).
  { apply list_text_tail_no; [|by repeat constructor|done..].
    intros c' Hc'. apply is_list_char_facts in Hc'. tauto. }
  pose proof (replace_once "W" ([":"] ++ Codec.COLORS_REPR t ++ [":"; "W"])
                (Codec.COLORS_REPR t ++ [":"; "W"])
                ["["; "F"; "E"; "N"; " "; "034"]
                (wl ++ [":"; "B"] ++ bl ++ Codec.fen_close)) as E.
  unfold fen_text, fen_text_stripped, Codec.fen_open.
  destruct t; apply E; (done || by repeat constructor).
Qed.

Lemma turn_fen_text t wl bl :
  re_search re_turn (fen_text_stripped t wl bl) = Some (Codec.COLORS_REPR t ++ [":"]).
Proof. by destruct t. Qed.

Lemma re_color_here letter (run r : str) :
  run <> [] -> list_text run ->
  match r with [] => True | c :: _ => is_list_char c = false end ->
  re_color letter (letter :: run ++ r) = Some (letter :: run).
Proof.
  intros Hne Hrun Hr. unfold re_color. rewrite Ascii.eqb_refl.
  rewrite take_while_app by done. by destruct run.
Qed.

Lemma re_color_empty letter (r : str) :
  match r with [] => True | c :: _ => is_list_char c = false end ->
  re_color letter (letter :: r) = None.
Proof.
  intros Hr. unfold re_color. rewrite Ascii.eqb_refl.
  destruct r as [|c r]; [done|]. simpl. by rewrite Hr.
Qed.

Lemma white_fen_text t wl bl :
  wl <> [] -> list_text wl ->
  re_search re_white (fen_text_stripped t wl bl) = Some ("W" :: wl).
Proof.
  intros Hne Hwl. unfold fen_text_stripped, re_white.
  assert (E : re_search (re_color "W") ("W" :: wl ++ [":"; "B"] ++ bl ++ Codec.fen_close)
              = Some ("W" :: wl)).
  { apply re_search_here. by apply re_color_here. }
  destruct t; simpl; exact E.
Qed.

Lemma white_fen_text_empty t bl :
  list_text bl ->
  re_search re_white (fen_text_stripped t [] bl) = None.
Proof.
  intros Hbl. unfold fen_text_stripped, re_white.
  assert (E : re_search (re_color "W") (bl ++ Codec.fen_close) = None).
  { rewrite re_search_skip.
    - reflexivity.
    - intros c r Hc. apply re_color_head.
      unfold list_text in Hbl. rewrite Forall_forall in Hbl.
      apply Hbl, is_list_char_facts in Hc. tauto. }
  destruct t; simpl; exact E.
Qed.

Lemma black_fen_text t wl bl :
  bl <> [] -> list_text wl -> list_text bl ->
  re_search re_black (fen_text_stripped t wl bl) = Some ("B" :: bl).
Proof.
  intros Hne Hwl Hbl. unfold fen_text_stripped, re_black.
  assert (E : re_search (re_color "B") (wl ++ [":"; "B"] ++ bl ++ Codec.fen_close)
              = Some ("B" :: bl)).
  { rewrite re_search_skip; cycle 1.
    { intros c r Hc. apply re_color_head.
      unfold list_text in Hwl. rewrite Forall_forall in Hwl.
      apply Hwl, is_list_char_facts in Hc. tauto. }
    change ([":"; "B"] ++ bl ++ Codec.fen_close)
      with ([":"] ++ ("B" :: bl ++ Codec.fen_close)).
    rewrite re_search_skip; cycle 1.
    { intros c r Hc. apply re_color_head.
      apply list_elem_of_singleton in Hc as ->. discriminate. }
    apply re_search_here. by apply re_color_here. }
  destruct t; simpl; exact E.
Qed.

Lemma black_fen_text_empty t wl :
  list_text wl ->
  re_search re_black (fen_text_stripped t wl []) = None.
Proof.
  intros Hwl. unfold fen_text_stripped, re_black.
  assert (E : re_search (re_color "B") (wl ++ [":"; "B"] ++ [] ++ Codec.fen_close)
              = None).
  { rewrite re_search_skip.
    - reflexivity.
    - intros c r Hc. apply re_color_head.
      unfold list_text in Hwl. rewrite Forall_forall in Hwl.
      apply Hwl, is_list_char_facts in Hc. tauto. }
  destruct t; simpl; exact E.
Qed.

Lemma replace_letter (a : ascii) (run : str) :
  Forall (fun c => c <> a) run -> replace [a] [] (a :: run) = run.
Proof.
  intros H. unfold replace, re_sub. simpl. rewrite Ascii.eqb_refl. simpl.
  apply (replace_id a [] [] run H).
Qed.

(** ** [np.where] *)

Lemma elem_of_np_where_from i cond l (k : nat) :
  k ∈ Codec.np_where_from i cond l
  <-> exists v, (i <= k)%nat /\ l !! (k - i)%nat = Some v /\ cond v = true.
Proof.
  revert i. induction l as [|x l IH]; intros i; simpl.
  - split; [by intros ?%elem_of_nil|]. by intros (v & _ & ? & _).
  - assert (Hrec : k ∈ Codec.np_where_from (S i) cond l
                   <-> exists v, (i < k)%nat /\ (x :: l) !! (k - i)%nat = Some v
                                 /\ cond v = true).
    { rewrite IH. split; intros (v & Hk & Hv & Hc); exists v; (split; [lia|]).
      - replace (k - i)%nat with (S (k - S i)) by lia. done.
      - replace (k - i)%nat with (S (k - S i)) in Hv by lia. done. }
    destruct (cond x) eqn:Ex.
    + rewrite elem_of_cons, Hrec. split.
      * intros [-> | (v & Hk & Hv & Hc)].
        -- exists x. rewrite Nat.sub_diag. auto.
        -- exists v. split; [lia|done].
      * intros (v & Hk & Hv & Hc).
        destruct (decide (k = i)) as [->|Hne]; [by left|].
        right. exists v. split; [lia|done].
    + rewrite Hrec. split.
      * intros (v & Hk & Hv & Hc). exists v. split; [lia|done].
      * intros (v & Hk & Hv & Hc). exists v. split; [|done].
        destruct (decide (k = i)) as [->|Hne]; [|lia].
        rewrite Nat.sub_diag in Hv. simpl in Hv. congruence.
Qed.

Lemma elem_of_np_where cond l (k : nat) :
  k ∈ Codec.np_where cond l <-> exists v, l !! k = Some v /\ cond v = true.
Proof.
  unfold Codec.np_where. rewrite elem_of_np_where_from.
  rewrite Nat.sub_0_r. split.
  - intros (v & _ & ?). by exists v.
  - intros (v & ?). exists v. split; [lia|done].
Qed.

Lemma np_where_from_sorted i cond l :
  StronglySorted lt (Codec.np_where_from i cond l).
Proof.
  revert i. induction l as [|x l IH]; intros i; simpl; [constructor|].
  destruct (cond x); [|apply IH].
  constructor; [apply IH|].
  apply Forall_forall. intros k Hk.
  apply elem_of_np_where_from in Hk as (v & Hk & _). lia.
Qed.

Lemma np_where_lt cond l :
  Forall (fun k => (k < length l)%nat) (Codec.np_where cond l).
Proof.
  apply Forall_forall. intros k Hk.
  apply elem_of_np_where in Hk as (v & Hv & _). by eapply lookup_lt_Some.
Qed.

(** ** Tokens *)

Lemma square_token_text king sq : list_text (Codec.square_token king sq).
Proof.
  unfold Codec.square_token, list_text. apply Forall_app. split.
  - destruct king; repeat constructor.
  - eapply Forall_impl; [apply str_of_nat_digits|].
    intros c Hc. by apply is_digit_facts.
Qed.

Lemma square_token_nonempty king sq : Codec.square_token king sq <> [].
Proof.
  unfold Codec.square_token. destruct king; [done|]. simpl.
  apply str_of_nat_nonempty. lia.
Qed.

Lemma square_token_no_comma king sq :
  Forall (fun c => c <> ",") (Codec.square_token king sq).
Proof.
  unfold Codec.square_token. apply Forall_app. split.
  - destruct king; repeat constructor. discriminate.
  - eapply Forall_impl; [apply str_of_nat_digits|].
    intros c Hc. by apply is_digit_facts.
Qed.

Lemma token_list_text king sqs : list_text (token_list king sqs).
Proof.
  apply join_chars; [by repeat constructor|].
  apply Forall_forall. intros t Ht.
  apply list_elem_of_fmap in Ht as (sq & -> & _). apply square_token_text.
Qed.

Lemma token_list_nonempty king sqs : sqs <> [] -> token_list king sqs <> [].
Proof.
  intros H. apply join_nonempty; [by destruct sqs|].
  apply Forall_forall. intros t Ht.
  apply list_elem_of_fmap in Ht as (sq & -> & _). apply square_token_nonempty.
Qed.

Lemma split_token_list king sqs :
  sqs <> [] ->
  split "," (token_list king sqs)
  = map (fun sq => Codec.square_token (king sq) sq) sqs.
Proof.
  intros H. apply split_join; [by destruct sqs|].
  apply Forall_forall. intros t Ht.
  apply list_elem_of_fmap in Ht as (sq & -> & _). apply square_token_no_comma.
Qed.

Lemma fen_unfold (b : Board) :
  Codec.fen b
  = fen_text (turn b)
      (token_list (fun sq => _pos b !!! sq <? -1)%Z
                  (Codec.np_where (fun x => x <? 0)%Z (_pos b)))
      (token_list (fun sq => _pos b !!! sq >? 1)%Z
                  (Codec.np_where (fun x => x >? 0)%Z (_pos b))).
Proof. reflexivity. Qed.

(** ** Populating the buffer *)

Lemma length_written F color king sqs p :
  length (written F color king sqs p) = length p.
Proof.
  unfold written. revert p. induction sqs as [|sq sqs IH]; intros p; [done|].
  simpl. rewrite IH. apply length_insert.
Qed.

Lemma lookup_written_notin F color king sqs p (k : nat) :
  k ∉ sqs -> written F color king sqs p !! k = p !! k.
Proof.
  unfold written. revert p. induction sqs as [|sq sqs IH]; intros p Hk; [done|].
  apply not_elem_of_cons in Hk as [Hne Hk]. simpl. rewrite IH by done.
  by apply list_lookup_insert_ne.
Qed.

Lemma lookup_written_in F color king sqs p (k : nat) :
  k ∈ sqs -> (k < length p)%nat ->
  written F color king sqs p !! k
  = Some (wrap8 (if king k then Color_value F color * KING F else Color_value F color)).
Proof.
  unfold written. revert p. induction sqs as [|sq sqs IH]; intros p Hk Hlen.
  - by apply elem_of_nil in Hk.
  - simpl. destruct (decide (k ∈ sqs)) as [Hin|Hnot].
    + apply IH; [done|]. by rewrite length_insert.
    + apply elem_of_cons in Hk as [->|Hk]; [|done].
      pose proof (lookup_written_notin F color king sqs
                    (<[sq:=wrap8 (if king sq then Color_value F color * KING F
                                  else Color_value F color)]> p) sq Hnot) as E.
      unfold written in E. rewrite E. by apply list_lookup_insert_eq.
Qed.

Lemma cls_setitem_nat (k : nat) v c :
  (k < length (Codec.STARTING_POSITION c))%nat ->
  Codec.cls_setitem (Z.of_nat k) v c
  = (Codec.with_STARTING_POSITION c (<[k := wrap8 v]> (Codec.STARTING_POSITION c)),
     Return tt).
Proof.
  intros H. unfold Codec.cls_setitem.
  rewrite (bind_Return get _ _ _ _ eq_refl).
  by rewrite array_set_nat.
Qed.

Lemma populate_token F len color (king : bool) (sq : nat) c :
  length (Codec.STARTING_POSITION c) = len -> (sq < len)%nat ->
  forall {B} (k : unit -> M Codec.Class B),
  bind (if isdigit (Codec.square_token king sq)
           && Codec.in_board_range len (Codec.square_token king sq)
        then Codec.cls_setitem
               (Z.of_nat (int_of_digits (Codec.square_token king sq)) - 1)
               (Color_value F color)
        else if starts_with ["K"] (Codec.square_token king sq)
                && isdigit (drop 1 (Codec.square_token king sq))
                && Codec.in_board_range len (drop 1 (Codec.square_token king sq))
        then Codec.cls_setitem
               (Z.of_nat (int_of_digits (drop 1 (Codec.square_token king sq))) - 1)
               (Color_value F color * KING F)
        else raise ValueError) k c
  = k tt (Codec.with_STARTING_POSITION c
            (<[sq := wrap8 (if king then Color_value F color * KING F
                            else Color_value F color)]> (Codec.STARTING_POSITION c))).
Proof.
  intros Hlen Hsq B k.
  assert (Hd : isdigit (str_of_nat (sq + 1)) = true) by (apply isdigit_str_of_nat; lia).
  assert (Hr : Codec.in_board_range len (str_of_nat (sq + 1)) = true).
  { unfold Codec.in_board_range. rewrite int_of_str_of_nat.
    apply andb_true_iff. split; apply Nat.leb_le; lia. }
  assert (Hidx : Z.of_nat (int_of_digits (str_of_nat (sq + 1))) - 1 = Z.of_nat sq)
    by (rewrite int_of_str_of_nat; lia).
  unfold Codec.square_token. destruct king.
  - change (["K"] ++ str_of_nat (sq + 1)) with ("K" :: str_of_nat (sq + 1)).
    change (isdigit ("K" :: str_of_nat (sq + 1))) with false.
    change (drop 1 ("K" :: str_of_nat (sq + 1))) with (str_of_nat (sq + 1)).
    change (starts_with ["K"] ("K" :: str_of_nat (sq + 1))) with true.
    rewrite Hd, Hr, Hidx. cbn [andb].
    unfold bind. rewrite cls_setitem_nat by lia. done.
  - change ([] ++ str_of_nat (sq + 1)) with (str_of_nat (sq + 1)).
    rewrite Hd, Hr, Hidx. cbn [andb].
    unfold bind. rewrite cls_setitem_nat by lia. done.
Qed.

Lemma populate_loop_tokens F len color (king : nat -> bool) (sqs : list nat) c :
  length (Codec.STARTING_POSITION c) = len ->
  Forall (fun sq => (sq < len)%nat) sqs ->
  Codec.populate_loop F len (map (fun sq => Codec.square_token (king sq) sq) sqs)
    color c
  = (Codec.with_STARTING_POSITION c
       (written F color king sqs (Codec.STARTING_POSITION c)), Return tt).
Proof.
  intros Hlen H. revert c Hlen.
  induction H as [|sq sqs Hsq _ IH]; intros c Hlen.
  - by destruct c.
  - cbn [map Codec.populate_loop].
    rewrite (populate_token F len color (king sq) sq c Hlen Hsq).
    rewrite IH by (cbn; by rewrite length_insert).
    reflexivity.
Qed.

Lemma from_fen_tokens F (cls : Codec.Class) (t : Color)
    (kw kb : nat -> bool) (ws bs : list nat) :
  ws <> [] -> bs <> [] ->
  Forall (fun sq => (sq < length (Codec.STARTING_POSITION cls))%nat) ws ->
  Forall (fun sq => (sq < length (Codec.STARTING_POSITION cls))%nat) bs ->
  Codec.from_fen F (fen_text t (token_list kw ws) (token_list kb bs)) cls
  = let p := written F BLACK kb bs
               (written F WHITE kw ws
                  (repeat 0%Z (length (Codec.STARTING_POSITION cls)))) in
    ({| Codec.STARTING_POSITION := p;
        Codec.STARTING_COLOR := t;
        Codec.cls_turn := Some t |},
     Draughts.init t p).
Proof.
  intros Hws Hbs Hwlt Hblt.
  pose proof (token_list_text kw ws) as Hwl.
  pose proof (token_list_text kb bs) as Hbl.
  pose proof (token_list_nonempty kw ws Hws) as Hwn.
  pose proof (token_list_nonempty kb bs Hbs) as Hbn.
  unfold Codec.from_fen. cbv zeta.
  rewrite upper_fen_text, premove_fen_text, prefix_fen_text by done.
  cbv iota beta.
  rewrite replace_fen_text by done.
  rewrite turn_fen_text, white_fen_text, black_fen_text by done.
  cbv iota beta.
  rewrite !replace_letter; cycle 1.
  { eapply Forall_impl; [exact Hbl|]. intros c Hc. apply is_list_char_facts in Hc. tauto. }
  { eapply Forall_impl; [exact Hwl|]. intros c Hc. apply is_list_char_facts in Hc. tauto. }
  rewrite (bind_Return (modify _) _ _ _ _ eq_refl).
  assert (Hturn : take 1 (Codec.COLORS_REPR t ++ [":"]) = Codec.COLORS_REPR t)
    by (by destruct t).
  rewrite Hturn.
  assert (Hlen1 : (length (Codec.COLORS_REPR t) =? 1)%nat = true) by (by destruct t).
  rewrite Hlen1.
  assert (Hwlen : (length (token_list kw ws) =? 0)%nat = false).
  { apply Nat.eqb_neq. by destruct (token_list kw ws). }
  rewrite Hwlen. cbn [negb orb andb].
  set (c0 := Codec.with_STARTING_POSITION cls
               (repeat 0%Z (length (Codec.STARTING_POSITION cls)))).
  assert (Hc0 : length (Codec.STARTING_POSITION c0) = length (Codec.STARTING_POSITION cls)).
  { unfold c0. simpl. apply repeat_length. }
  assert (Hpop : Codec.try_except
            (Codec.populate_from_list F (split "," (token_list kw ws)) WHITE;;;
             Codec.populate_from_list F (split "," (token_list kb bs)) BLACK)
            ValueError (ret ()) c0
          = (Codec.with_STARTING_POSITION c0
               (written F BLACK kb bs
                  (written F WHITE kw ws (Codec.STARTING_POSITION c0))),
             Return tt)).
  { unfold Codec.try_except, Codec.populate_from_list.
    rewrite !split_token_list by done.
    rewrite bind_assoc, (bind_Return get _ _ _ _ eq_refl).
    erewrite (bind_Return (Codec.populate_loop F _ _ _)); cycle 1.
    { apply populate_loop_tokens; [done|]. by rewrite Hc0. }
    rewrite (bind_Return get _ _ _ _ eq_refl).
    cbn [Codec.STARTING_POSITION Codec.with_STARTING_POSITION].
    rewrite populate_loop_tokens; cycle 1.
    { done. }
    { rewrite length_written, Hc0. done. }
    reflexivity. }
  rewrite (bind_Return _ _ _ _ _ Hpop).
  rewrite (bind_Return (modify _) _ _ _ _ eq_refl).
  rewrite (bind_Return get _ _ _ _ eq_refl).
  unfold lift_outcome.
  assert (Hcol : (if starts_with ["W"] (Codec.COLORS_REPR t) && true
                  then WHITE else BLACK) = t) by (by destruct t).
  rewrite Hcol. reflexivity.
Qed.

Local Close Scope char_scope.

Lemma valid_cell_cases F v :
  Encoding_ok F -> valid_cell F v ->
  (v = 0 \/ v = -1 \/ v = - KING F \/ v = 1 \/ v = KING F) /\ 2 <= KING F <= 127.
Proof.
  intros [Hw Hb Hwm Hbm He HK] Hv. split; [|done].
  unfold valid_cell, piece_of, man_of in Hv. rewrite Hwm, Hbm, He in Hv. lia.
Qed.

Lemma white_piece_iff F v :
  Encoding_ok F -> valid_cell F v -> (v <? 0) = true <-> piece_of F WHITE v.
Proof.
  intros HF Hv. destruct (valid_cell_cases F v HF Hv) as [Hc HK].
  destruct HF as [Hw Hb Hwm Hbm He _].
  unfold piece_of, man_of. rewrite Hwm, He, Z.ltb_lt. lia.
Qed.

Lemma black_piece_iff F v :
  Encoding_ok F -> valid_cell F v -> (v >? 0) = true <-> piece_of F BLACK v.
Proof.
  intros HF Hv. destruct (valid_cell_cases F v HF Hv) as [Hc HK].
  destruct HF as [Hw Hb Hwm Hbm He _].
  unfold piece_of, man_of. rewrite Hbm, He, Z.gtb_gt. lia.
Qed.

Lemma white_king_test F v :
  Encoding_ok F -> valid_cell F v -> v < 0 -> (v <? -1) = is_king F v.
Proof.
  intros HF Hv Hneg. destruct (valid_cell_cases F v HF Hv) as [Hc HK].
  destruct HF as [Hw Hb Hwm Hbm He _]. unfold is_king. rewrite Hwm, Hbm.
  destruct (Z.ltb_spec v (-1)), (Z.eqb_spec v (-1 * KING F)),
    (Z.eqb_spec v (1 * KING F)); simpl; lia.
Qed.

Lemma black_king_test F v :
  Encoding_ok F -> valid_cell F v -> 0 < v -> (v >? 1) = is_king F v.
Proof.
  intros HF Hv Hpos. destruct (valid_cell_cases F v HF Hv) as [Hc HK].
  destruct HF as [Hw Hb Hwm Hbm He _]. unfold is_king. rewrite Hwm, Hbm.
  rewrite Z.gtb_ltb.
  destruct (Z.ltb_spec 1 v), (Z.eqb_spec v (-1 * KING F)),
    (Z.eqb_spec v (1 * KING F)); simpl; lia.
Qed.

(** ** The layout of the FEN string *)

(** X15: the string [fen] produces is [[FEN "W:<turn>:W<white
    list>:B<black list>"]]: the constant prefix artifact [W] comes first and
    the turn token ([W] or [B], the side to move) second, then the [W] list
    and the [B] list. The [W] list holds exactly the squares of the white
    pieces and the [B] list exactly those of the black pieces, in ascending
    order, each written as its 1-based number, prefixed with [K] if and only
    if the square holds a king, and joined by commas; a colour without pieces
    has no square, hence an empty segment. *)
Theorem fen_layout (F : Models) (b : Board) :
  Encoding_ok F -> Forall (valid_cell F) (_pos b) ->
  exists ws bs : list nat,
    Codec.fen b
    = list_ascii_of_string "[FEN " ++ ["034"%char]
      ++ list_ascii_of_string "W:"
      ++ Codec.COLORS_REPR (turn b)
      ++ list_ascii_of_string ":W"
      ++ join [","%char] (map (piece_token F (_pos b)) ws)
      ++ list_ascii_of_string ":B"
      ++ join [","%char] (map (piece_token F (_pos b)) bs)
      ++ ["034"%char; "]"%char]
    /\ StronglySorted lt ws
    /\ (forall k : nat,
          k ∈ ws <-> exists v, _pos b !! k = Some v /\ piece_of F WHITE v)
    /\ StronglySorted lt bs
    /\ (forall k : nat,
          k ∈ bs <-> exists v, _pos b !! k = Some v /\ piece_of F BLACK v).
Proof.
  intros HF Hcells.
  exists (Codec.np_where (fun x => x <? 0) (_pos b)),
         (Codec.np_where (fun x => x >? 0) (_pos b)).
  assert (Hcell : forall k v, _pos b !! k = Some v -> valid_cell F v).
  { intros k v Hk. eapply Forall_lookup_1; eauto. }
  split; [|split; [apply np_where_from_sorted|split; [|split; [apply np_where_from_sorted|]]]].
  - rewrite fen_unfold. unfold fen_text, token_list, Codec.fen_open, Codec.fen_close.
    simpl list_ascii_of_string.
    assert (Ew : map (fun sq => Codec.square_token (_pos b !!! sq <? -1) sq)
                     (Codec.np_where (fun x => x <? 0) (_pos b))
                 = map (piece_token F (_pos b))
                       (Codec.np_where (fun x => x <? 0) (_pos b))).
    { apply map_ext_in. intros k Hk. apply list_elem_of_In in Hk.
      apply elem_of_np_where in Hk as (v & Hv & Hneg).
      unfold piece_token. rewrite (list_lookup_total_correct _ _ _ Hv).
      rewrite (white_king_test F v); [done|done|by eapply Hcell|by apply Z.ltb_lt]. }
    assert (Eb : map (fun sq => Codec.square_token (_pos b !!! sq >? 1) sq)
                     (Codec.np_where (fun x => x >? 0) (_pos b))
                 = map (piece_token F (_pos b))
                       (Codec.np_where (fun x => x >? 0) (_pos b))).
    { apply map_ext_in. intros k Hk. apply list_elem_of_In in Hk.
      apply elem_of_np_where in Hk as (v & Hv & Hpos).
      unfold piece_token. rewrite (list_lookup_total_correct _ _ _ Hv).
      rewrite (black_king_test F v); [done|done|by eapply Hcell|].
      apply Z.gtb_gt in Hpos. lia. }
    rewrite Ew, Eb. reflexivity.
  - intros k. rewrite elem_of_np_where. split; intros (v & Hv & H); exists v;
      (split; [done|]); by apply (white_piece_iff F v HF (Hcell k v Hv)).
  - intros k. rewrite elem_of_np_where. split; intros (v & Hv & H); exists v;
      (split; [done|]); by apply (black_piece_iff F v HF (Hcell k v Hv)).
Qed.

Lemma lookup_repeat {A} (x : A) n (k : nat) :
  (k < n)%nat -> repeat x n !! k = Some x.
Proof.
  revert k. induction n as [|n IH]; intros k Hk; [lia|].
  destruct k; simpl; [done|]. apply IH. lia.
Qed.

Lemma init_of_board (b : Board) (p : list Z) (c : Color) :
  Board_ok b -> length p = length (_pos b) ->
  Draughts.init c p
  = Return {| _pos := p; turn := c; shape := shape b; _moves_stack := [] |}.
Proof.
  intros (_ & H0 & Hsq & Hsnd) Hlen. unfold Draughts.init. rewrite Hlen.
  assert (E : Z.sqrt (Z.of_nat (length (_pos b)) * 2) = fst (shape b)).
  { replace (Z.of_nat (length (_pos b)) * 2) with (fst (shape b) * fst (shape b)) by lia.
    by apply Z.sqrt_square. }
  rewrite E.
  destruct (Z.eqb_spec (fst (shape b) ^ 2) (Z.of_nat (length (_pos b)) * 2)); [|lia].
  simpl. do 2 f_equal. destruct (shape b) as [n1 n2]. simpl in *. by subst.
Qed.

(** ** Encoding, then decoding *)

(** X16: for every board with at least one white piece and at
    least one black piece, whose buffer is as long as the class attribute
    [STARTING_POSITION], [from_fen (fen b)] returns a board with the position
    buffer, the side to move and the shape of [b]. *)
Theorem fen_roundtrip (F : Models) (cls : Codec.Class) (b : Board) :
  Encoding_ok F -> Board_ok b -> Forall (valid_cell F) (_pos b) ->
  length (Codec.STARTING_POSITION cls) = length (_pos b) ->
  (exists k v, _pos b !! k = Some v /\ piece_of F WHITE v) ->
  (exists k v, _pos b !! k = Some v /\ piece_of F BLACK v) ->
  exists cls' b',
    Codec.from_fen F (Codec.fen b) cls = (cls', Return b')
    /\ _pos b' = _pos b /\ turn b' = turn b /\ shape b' = shape b.
Proof.
  intros HF Hb Hcells Hlen (kw & vw & Hkw & Hpw) (kb & vb & Hkb & Hpb).
  assert (Hcell : forall k v, _pos b !! k = Some v -> valid_cell F v).
  { intros k v Hk. eapply Forall_lookup_1; eauto. }
  set (ws := Codec.np_where (fun x => x <? 0) (_pos b)).
  set (bs := Codec.np_where (fun x => x >? 0) (_pos b)).
  assert (Hws : ws <> []).
  { intros E. assert (kw ∈ ws) as Hin.
    { apply elem_of_np_where. exists vw. split; [done|].
      by apply (white_piece_iff F vw HF (Hcell kw vw Hkw)). }
    rewrite E in Hin. by apply elem_of_nil in Hin. }
  assert (Hbs : bs <> []).
  { intros E. assert (kb ∈ bs) as Hin.
    { apply elem_of_np_where. exists vb. split; [done|].
      by apply (black_piece_iff F vb HF (Hcell kb vb Hkb)). }
    rewrite E in Hin. by apply elem_of_nil in Hin. }
  rewrite fen_unfold. fold ws bs.
  rewrite from_fen_tokens; [|done|done|rewrite Hlen; apply np_where_lt..].
  cbv zeta. rewrite Hlen.
  set (p := written F BLACK _ bs (written F WHITE _ ws (repeat 0 (length (_pos b))))).
  assert (Hp : p = _pos b).
  { apply (list_eq_same_length _ _ (length (_pos b))); [done| |].
    { unfold p. by rewrite !length_written, repeat_length. }
    intros k x y Hk Hx Hy.
    destruct (valid_cell_cases F y HF (Hcell k y Hy)) as [Hc HK].
    destruct HF as [Hw Hbl Hwm Hbm He _].
    unfold p in Hx.
    destruct (decide (k ∈ bs)) as [Hin|Hnot].
    - rewrite lookup_written_in in Hx
        by (done || by rewrite length_written, repeat_length).
      apply elem_of_np_where in Hin as (v & Hv & Hpos).
      assert (v = y) as -> by congruence.
      rewrite (list_lookup_total_correct _ _ _ Hy), Hbl in Hx.
      apply Z.gtb_gt in Hpos. injection Hx as <-.
      destruct (Z.gtb_spec y 1); rewrite wrap8_int8 by (unfold int8; lia); lia.
    - rewrite lookup_written_notin in Hx by done.
      assert (Hy0 : ~ 0 < y).
      { intros Hpos. apply Hnot, elem_of_np_where. exists y.
        split; [done|]. apply Z.gtb_gt. lia. }
      destruct (decide (k ∈ ws)) as [Hin|Hnotw].
      + rewrite lookup_written_in in Hx by (done || by rewrite repeat_length).
        apply elem_of_np_where in Hin as (v & Hv & Hneg).
        assert (v = y) as -> by congruence.
        rewrite (list_lookup_total_correct _ _ _ Hy), Hw in Hx.
        apply Z.ltb_lt in Hneg. injection Hx as <-.
        destruct (Z.ltb_spec y (-1)); rewrite wrap8_int8 by (unfold int8; lia); lia.
      + rewrite lookup_written_notin in Hx by done.
        rewrite lookup_repeat in Hx by done. injection Hx as <-.
        assert (Hy1 : ~ y < 0).
        { intros Hneg. apply Hnotw, elem_of_np_where. exists y.
          split; [done|]. by apply Z.ltb_lt. }
        lia. }
  rewrite Hp. rewrite (init_of_board b (_pos b) (turn b) Hb eq_refl).
  eexists _, _. split; [reflexivity|]. done.
Qed.

Lemma init_Return c p b :
  Draughts.init c p = Return b -> _pos b = p /\ turn b = c /\ _moves_stack b = [].
Proof.
  unfold Draughts.init. destruct (negb _); [done|]. by intros [= <-].
Qed.

(** ** The class state [from_fen] leaves *)








(** ** Instances *)

Lemma repo_encoding_ok : Encoding_ok repo_models.
Proof. split; simpl; lia. Defined.

Ltac cells_ok :=
  repeat (constructor;
          [first [ left; reflexivity
                 | right; left; split; [discriminate | first [left; reflexivity | right; reflexivity]]
                 | right; right; split; [discriminate | first [left; reflexivity | right; reflexivity]] ]
          |]); constructor.

Lemma fen_layout_witness :
  exists ws bs : list nat,
    Codec.fen notation_board
    = list_ascii_of_string "[FEN " ++ ["034"%char]
      ++ list_ascii_of_string "W:"
      ++ Codec.COLORS_REPR (turn notation_board)
      ++ list_ascii_of_string ":W"
      ++ join [","%char] (map (piece_token repo_models (_pos notation_board)) ws)
      ++ list_ascii_of_string ":B"
      ++ join [","%char] (map (piece_token repo_models (_pos notation_board)) bs)
      ++ ["034"%char; "]"%char]
    /\ StronglySorted lt ws
    /\ (forall k : nat,
          k ∈ ws <-> exists v, _pos notation_board !! k = Some v
                               /\ piece_of repo_models WHITE v)
    /\ StronglySorted lt bs
    /\ (forall k : nat,
          k ∈ bs <-> exists v, _pos notation_board !! k = Some v
                               /\ piece_of repo_models BLACK v).
Proof.
  apply (fen_layout repo_models notation_board).
  - exact repo_encoding_ok.
  - cells_ok.
Defined.

(** C3 (the behaviour of the code): with black to move the text inside the
    quotes starts with [W:B:]. Its first field is the constant [W], the turn
    token [B] is the second, whereas the docstring of [fen] puts the turn
    first. *)
Lemma fen_turn_is_second_field :
  turn notation_board_black = BLACK
  /\ Codec.fen notation_board_black
     = list_ascii_of_string "[FEN " ++ ["034"%char]
       ++ list_ascii_of_string "W:B:WK10,18:B12,K22" ++ ["034"%char; "]"%char]
  /\ split ":"%char (Codec.fen notation_board_black)
     = [list_ascii_of_string "[FEN " ++ ["034"%char; "W"%char];
        list_ascii_of_string "B";
        list_ascii_of_string "WK10,18";
        list_ascii_of_string "B12,K22" ++ ["034"%char; "]"%char]].
Proof. repeat split; vm_compute; reflexivity. Qed.

Lemma fen_roundtrip_witness :
  exists cls' b',
    Codec.from_fen repo_models (Codec.fen notation_board) Codec.BaseBoard
    = (cls', Return b')
    /\ _pos b' = _pos notation_board /\ turn b' = turn notation_board
    /\ shape b' = shape notation_board.
Proof.
  apply (fen_roundtrip repo_models Codec.BaseBoard notation_board).
  - exact repo_encoding_ok.
  - board_ok.
  - cells_ok.
  - reflexivity.
  - exists 9%nat, (-2). split; [reflexivity|]. split; [discriminate|right; reflexivity].
  - exists 11%nat, 1. split; [reflexivity|]. split; [discriminate|left; reflexivity].
Defined.

(** C4 (the behaviour of the code): a board with white pieces only. [fen]
    writes an empty [B] segment for it, and [from_fen] refuses that string
    with [AttributeError]: the position is not read back. *)
Lemma fen_roundtrip_one_colour :
  Codec.fen white_only_board
  = list_ascii_of_string "[FEN " ++ ["034"%char]
    ++ list_ascii_of_string "W:W:W18:B" ++ ["034"%char; "]"%char]
  /\ Codec.from_fen repo_models (Codec.fen white_only_board) Codec.BaseBoard
     = (Codec.BaseBoard, Raise AttributeError).
Proof. split; vm_compute; reflexivity. Qed.

(** C5 (the behaviour of the code): a string that lists square 33 for a
    buffer of 32 cells is not refused. [from_fen] returns a board; its buffer
    holds the squares read before the offending token, the rest of the white
    list and the whole black list are dropped. *)
Lemma from_fen_out_of_range_returns :
  exists cls' b',
    Codec.from_fen repo_models out_of_range_fen Codec.BaseBoard = (cls', Return b')
    /\ _pos b' = [-1] ++ repeat 0 31
    /\ turn b' = WHITE.
Proof. do 2 eexists. repeat split; vm_compute; reflexivity. Qed.


(** ** The display grid as a whole *)

Lemma padding_zero n idx x : x ∈ padding n idx -> x = 0.
Proof.
  unfold padding. intros H. apply elem_of_app in H as [H|H].
  - destruct (negb _); [|by apply elem_of_nil in H].
    by apply list_elem_of_singleton in H.
  - destruct (_ && _); [|by apply elem_of_nil in H].
    apply elem_of_cons in H as [->|H]; [done|].
    by apply list_elem_of_singleton in H.
Qed.

Lemma concat_cells_lookup n (l : list Z) (j i : nat) v :
  concat (imap (fun i sq => padding n (Z.of_nat (j + i)) ++ [sq]) l) !! i = Some v ->
  v = 0 \/ exists k : nat,
             l !! k = Some v /\ (i + grid_prefix n j = grid_place n (j + k))%nat.
Proof.
  revert j i. induction l as [|x l IH]; intros j i H; [done|].
  rewrite imap_cons in H. simpl concat in H. rewrite Nat.add_0_r in H.
  rewrite <- app_assoc in H.
  destruct (decide (i < length (padding n (Z.of_nat j)))%nat) as [Hlt|Hge].
  { rewrite lookup_app_l in H by done. left.
    eapply padding_zero, list_elem_of_lookup_2, H. }
  rewrite lookup_app_r in H by lia.
  destruct (i - length (padding n (Z.of_nat j)))%nat as [|i'] eqn:Ei.
  { simpl in H. injection H as <-. right. exists 0%nat. split; [done|].
    rewrite Nat.add_0_r, grid_place_prefix. lia. }
  simpl in H.
  rewrite (imap_ext _ (fun i sq => padding n (Z.of_nat (S j + i)) ++ [sq]) l) in H
    by (intros i0 y _; unfold compose; cbv beta; do 2 f_equal; lia).
  destruct (IH (S j) i' H) as [->|(k & Hk & Hplace)]; [by left|].
  right. exists (S k). split; [done|].
  replace (j + S k)%nat with (S j + k)%nat by lia. rewrite <- Hplace.
  cbn [grid_prefix]. rewrite (grid_place_prefix n j). lia.
Qed.

Lemma friendly_form_entries (b : Board) (i : nat) (v : Z) :
  friendly_form b !! i = Some v ->
  v = 0 \/ exists k : nat, _pos b !! k = Some v /\ i = grid_place (fst (shape b)) k.
Proof.
  rewrite friendly_form_unfold. intros H.
  destruct i as [|i]; [simpl in H; left; congruence|].
  simpl in H.
  set (cells := concat (imap _ (_pos b))) in H.
  destruct (decide (i < length cells)%nat) as [Hlt|Hge].
  - rewrite lookup_app_l in H by done.
    destruct (concat_cells_lookup (fst (shape b)) (_pos b) 0 i v H)
      as [->|(k & Hk & Hplace)]; [by left|].
    right. exists k. split; [done|]. simpl in Hplace. lia.
  - rewrite lookup_app_r in H by lia. left.
    destruct (i - length cells)%nat as [|[|?]]; simpl in H; congruence.
Qed.


Lemma board_side (b : Board) :
  Board_ok b -> (0 < length (_pos b))%nat ->
  let n := fst (shape b) in
  2 <= n /\ n = 2 * (n / 2) /\ Z.of_nat (length (_pos b)) = n * (n / 2).
Proof.
  intros Hb Hlen n.
  assert (Hn : 2 <= n) by (apply Board_ok_rows; [done|lia]).
  destruct Hb as (_ & _ & Hsq & _). fold n in Hsq.
  assert (Heven : n = 2 * (n / 2)).
  { pose proof (Z.div_mod n 2). pose proof (Z.mod_pos_bound n 2).
    assert (n mod 2 = 0 \/ n mod 2 = 1) as [E|E] by lia; [lia|nia]. }
  split; [done|]. split; [done|]. nia.
Qed.


Lemma friendly_form_light_entry (b : Board) (i : nat) (v : Z) :
  Board_ok b -> (0 < length (_pos b))%nat ->
  friendly_form b !! i = Some v ->
  (Z.of_nat i / fst (shape b) + Z.of_nat i mod fst (shape b)) mod 2 = 0 ->
  v = 0.
Proof.
  intros Hb Hlen Hi Hpar.
  destruct (friendly_form_entries b i v Hi) as [->|(k & Hk & ->)]; [done|].
  exfalso.
  assert (Hklt := lookup_lt_Some _ _ _ Hk).
  destruct (board_side b Hb Hlen) as (Hn & Heven & HL).
  destruct (grid_place_row b k Hb Hklt) as (Hr & Hc & Hplace).
  set (n := fst (shape b)) in *. unfold row_of in *.
  set (r := Z.of_nat k / (n / 2)) in *.
  set (c := 2 * (Z.of_nat k mod (n / 2)) + 1 - r mod 2) in *.
  assert (Ediv : Z.of_nat (grid_place n k) / n = r).
  { symmetry. apply (Z.div_unique_pos _ _ _ c); lia. }
  assert (Emod : Z.of_nat (grid_place n k) mod n = c).
  { symmetry. apply (Z.mod_unique_pos _ _ r); lia. }
  rewrite Ediv, Emod in Hpar.
  pose proof (Z.mod_pos_bound r 2). pose proof (Z.div_mod r 2).
  assert (Hodd : (r + c) mod 2 = 1).
  { assert (r mod 2 = 0 \/ r mod 2 = 1) as [E|E] by lia; unfold c; rewrite E;
      symmetry; apply (Z.mod_unique_pos _ _ (r / 2 + Z.of_nat k mod (n / 2))); lia. }
  lia.
Qed.

(** X2: The light squares of the display grid - row plus column even - hold 0
    whatever the position. *)
Theorem friendly_form_light_squares (b : Board) (i : nat) :
  Board_ok b -> (0 < length (_pos b))%nat ->
  (i < length (friendly_form b))%nat ->
  (Z.of_nat i / fst (shape b) + Z.of_nat i mod fst (shape b)) mod 2 = 0 ->
  friendly_form b !! i = Some 0.
Proof.
  intros Hb Hlen Hi Hpar.
  destruct (lookup_lt_is_Some_2 _ _ Hi) as [v Hv].
  by rewrite Hv, (friendly_form_light_entry b i v Hb Hlen Hv Hpar).
Qed.

(** ** What a method leaves behind, whatever it returns or raises *)

Lemma post_run {S A} (c : M S A) s Q s' r : post c s Q -> c s = (s', r) -> Q s' r.
Proof. unfold post. intros H E. by rewrite E in H. Qed.

Lemma post_ret {S A} (a : A) (s : S) Q : Q s (Return a) -> post (ret a) s Q.
Proof. done. Qed.

Lemma post_bind {S A B} (c : M S A) (k : A -> M S B) s Q :
  post c s (fun s1 r1 => match r1 with
                         | Return a => post (k a) s1 Q
                         | Raise e => Q s1 (Raise e)
                         end) ->
  post (bind c k) s Q.
Proof. unfold post, bind. by destruct (c s) as [s1 [a|e]]. Qed.

Lemma post_bind_inv {S A B} (c : M S A) (k : A -> M S B) s Q :
  post (bind c k) s Q ->
  post c s (fun s1 r1 => match r1 with
                         | Return a => post (k a) s1 Q
                         | Raise e => Q s1 (Raise e)
                         end).
Proof. unfold post, bind. by destruct (c s) as [s1 [a|e]]. Qed.

Lemma post_lift {S A} (o : option A) e (s : S) Q :
  (forall a, o = Some a -> Q s (Return a)) -> (o = None -> Q s (Raise e)) ->
  post (lift o e) s Q.
Proof. intros H1 H2. destruct o; [by apply H1|by apply H2]. Qed.

Lemma post_get {S} (s : S) Q : Q s (Return s) -> post get s Q.
Proof. done. Qed.

Lemma post_modify {S} (f : S -> S) (s : S) Q : Q (f s) (Return tt) -> post (modify f) s Q.
Proof. done. Qed.

Lemma post_getitem i b Q :
  (forall v, array_get (_pos b) i = Some v -> Q b (Return v)) ->
  (array_get (_pos b) i = None -> Q b (Raise IndexError)) ->
  post (getitem i) b Q.
Proof.
  intros H1 H2. unfold post. rewrite getitem_run. simpl.
  destruct (array_get (_pos b) i); [by apply H1|by apply H2].
Qed.

Lemma post_setitem i v b Q :
  (forall p, array_set (_pos b) i v = Some p -> Q (with_pos b p) (Return tt)) ->
  (array_set (_pos b) i v = None -> Q b (Raise IndexError)) ->
  post (setitem i v) b Q.
Proof.
  intros H1 H2. unfold post. rewrite setitem_run.
  destruct (array_set (_pos b) i v); [by apply H1|by apply H2].
Qed.

Lemma post_setitem_fancy idx v b Q :
  (forall p, array_set_fancy (_pos b) idx v = Some p -> Q (with_pos b p) (Return tt)) ->
  (array_set_fancy (_pos b) idx v = None -> Q b (Raise IndexError)) ->
  post (setitem_fancy idx v) b Q.
Proof.
  intros H1 H2. unfold post, setitem_fancy.
  rewrite (bind_Return get _ _ _ _ eq_refl).
  destruct (array_set_fancy (_pos b) idx v); [by apply H1|by apply H2].
Qed.

Lemma pushing_refl flags m b : pushing flags m b b.
Proof. repeat split; try done. by left. Qed.

Lemma array_set_int8 a i v p :
  array_set a i v = Some p -> length p = length a /\ (Forall int8 a -> Forall int8 p).
Proof.
  unfold array_set. destruct (index (length a) i) as [k|]; [|done].
  simpl. intros [= <-]. split; [apply length_insert|].
  intros H. apply Forall_insert; [done|apply wrap8_is_int8].
Qed.

Lemma array_set_fancy_int8 a idx v p :
  array_set_fancy a idx v = Some p ->
  length p = length a /\ (Forall int8 a -> Forall int8 p).
Proof.
  unfold array_set_fancy. destruct (mapM _ idx) as [ks|]; [|done].
  simpl. intros [= <-]. clear idx. revert a.
  induction ks as [|k ks IH]; intros a; [done|].
  simpl. destruct (IH (<[k:=wrap8 v]> a)) as [Hl Hi].
  split; [by rewrite Hl, length_insert|].
  intros H. apply Hi, Forall_insert; [done|apply wrap8_is_int8].
Qed.

Lemma pushing_set flags m b b1 p :
  pushing flags m b b1 ->
  length p = length (_pos b1) -> (Forall int8 (_pos b1) -> Forall int8 p) ->
  pushing flags m b (with_pos b1 p).
Proof.
  intros (Hl & Hs & Ht & Hst & Hi) Hlp Hip. unfold pushing. simpl.
  repeat split; try done; [congruence|auto].
Qed.

Ltac frame_step :=
  match goal with
  | |- post (bind _ _) _ _ => apply post_bind
  | |- post (lift _ _) _ _ => apply post_lift; [intros ? ?|intros ?]
  | |- post (getitem _) _ _ => apply post_getitem; [intros ? ?|intros ?]
  | |- post (setitem _ _) _ _ =>
      apply post_setitem;
      [intros ? ?Hset; apply array_set_int8 in Hset as [? ?]|intros ?]
  | |- post (setitem_fancy _ _) _ _ =>
      apply post_setitem_fancy;
      [intros ? ?Hset; apply array_set_fancy_int8 in Hset as [? ?]|intros ?]
  | |- post get _ _ => apply post_get
  | |- post (modify _) _ _ => apply post_modify
  | |- post (ret _) _ _ => apply post_ret
  end.

Lemma push_raise_frame errors flags m f b b1 e :
  pushing flags m b b1 -> e ∈ errors ->
  push_outcome errors flags m f b b1 (Raise e).
Proof. intros (Hl & Hs & Ht & Hst & Hi) He. by repeat split. Qed.

Lemma post_promotion_test F tg b Q :
  (forall r, Q b (Return r)) ->
  (forall e, e = IndexError \/ e = ZeroDivisionError -> Q b (Raise e)) ->
  post (Draughts.promotion_test F tg) b Q.
Proof.
  intros H1 H2. unfold Draughts.promotion_test.
  apply post_bind, post_get.
  destruct (_ =? 0); [apply H2; by right|].
  apply post_bind, post_getitem; [intros v _; apply post_ret, H1|intros _; apply H2; by left].
Qed.

Lemma post_push_tail (F : Models) errors flags (m m' : Move) f b b1 :
  IndexError ∈ errors ->
  length (_pos b1) = length (_pos b) -> shape b1 = shape b -> turn b1 = turn b ->
  (Forall int8 (_pos b) -> Forall int8 (_pos b1)) ->
  (m' = m /\ _moves_stack b1 = _moves_stack b
   \/ flags = true /\ m' = set_is_promotion m true
      /\ _moves_stack b1 = flag_object (obj m) (_moves_stack b)) ->
  post ((match captured_list m' with
         | [] => ret tt
         | _ :: _ => setitem_fancy (captured_list m') (EMPTY F)
         end) ;;;
        modify (fun b => with_stack b (_moves_stack b ++ [m'])) ;;;
        switch_turn f ;;; ret m') b1 (push_outcome errors flags m f b).
Proof.
  intros Herr Hl Hs Ht Hi Hm.
  assert (Hend : forall p, length p = length (_pos b) ->
            (Forall int8 (_pos b) -> Forall int8 p) ->
            post (modify (fun b => with_stack b (_moves_stack b ++ [m'])) ;;;
                  switch_turn f ;;; ret m') (with_pos b1 p)
                 (push_outcome errors flags m f b)).
  { intros p Hlp Hip.
    apply post_bind, post_modify, post_bind.
    unfold switch_turn, after_turn.
    destruct f; [apply post_modify|apply post_ret]; apply post_ret;
      unfold push_outcome; simpl; rewrite Ht;
      (repeat split; try done);
      (destruct Hm as [[-> ->]|(Hf & -> & ->)]; [by left|right; by repeat split]). }
  apply post_bind. destruct (captured_list m') as [|c cs].
  - apply post_ret.
    replace b1 with (with_pos b1 (_pos b1)) by (by destruct b1).
    by apply Hend.
  - frame_step.
    + apply Hend; [congruence|auto].
    + apply push_raise_frame; [|done]. unfold pushing.
      repeat split; try done.
      destruct Hm as [[_ ->]|(Hf & _ & ->)]; [by left|by right].
Qed.

Lemma post_push_draughts (F : Models) (m : Move) (f : bool) (b : Board) :
  post (Draughts.push F m f) b
       (push_outcome [IndexError; ZeroDivisionError] true m f b).
Proof.
  pose proof (pushing_refl true m b) as H0.
  assert (Hix : IndexError ∈ [IndexError; ZeroDivisionError])
    by apply list_elem_of_here.
  assert (Hzd : forall e, e = IndexError \/ e = ZeroDivisionError ->
                          e ∈ [IndexError; ZeroDivisionError]).
  { intros e [-> | ->]; [apply list_elem_of_here|].
    apply list_elem_of_further, list_elem_of_here. }
  unfold Draughts.push.
  apply post_bind, post_lift; [intros src _|intros _; by apply push_raise_frame].
  apply post_bind, post_lift; [intros tg _|intros _; by apply push_raise_frame].
  apply post_bind, post_getitem;
    [intros at_tg _|intros _; by apply push_raise_frame].
  apply post_bind, post_getitem;
    [intros at_src _|intros _; by apply push_raise_frame].
  apply post_bind, post_setitem;
    [intros p1 [Hl1 Hi1]%array_set_int8|intros _; by apply push_raise_frame].
  pose proof (pushing_set true m b b p1 H0 Hl1 Hi1) as H1.
  apply post_bind, post_setitem;
    [intros p2 [Hl2 Hi2]%array_set_int8|intros _; by apply push_raise_frame].
  pose proof (pushing_set true m b _ p2 H1 Hl2 Hi2) as H2.
  destruct H2 as (Hl & Hs & Ht & _ & Hi).
  apply post_bind, post_promotion_test;
    [intros promo|intros e He; apply push_raise_frame; [|by apply Hzd];
     by apply (pushing_set true m b _ p2 H1 Hl2 Hi2)].
  apply post_bind. destruct promo.
  - apply post_bind, post_getitem;
      [intros v _|intros _; apply push_raise_frame; [|done];
       by apply (pushing_set true m b _ p2 H1 Hl2 Hi2)].
    apply post_bind, post_setitem;
      [intros p3 [Hl3 Hi3]%array_set_int8
      |intros _; apply push_raise_frame; [|done];
       by apply (pushing_set true m b _ p2 H1 Hl2 Hi2)].
    apply post_bind, post_modify, post_ret.
    apply post_push_tail; cbn [_pos shape turn _moves_stack with_pos with_stack] in *;
      [done|congruence|done|done|auto|].
    right. by repeat split.
  - apply post_ret. apply post_push_tail; [done..|]. by left.
Qed.

Lemma post_Entity_of_cell F tg b Q :
  Q b (Return tt) ->
  (forall e, e = IndexError \/ e = ValueError -> Q b (Raise e)) ->
  post (Checkers.Entity_of_cell F tg) b Q.
Proof.
  intros H1 H2. unfold Checkers.Entity_of_cell.
  apply post_bind, post_getitem; [intros v _|intros _; apply H2; by left].
  destruct (Entity_member F v); [exact H1|apply H2; by right].
Qed.

Lemma post_push_checkers (F : Models) (m : Move) (f : bool) (b : Board) :
  post (Checkers.push F m f) b
       (push_outcome [IndexError; ValueError] false m f b).
Proof.
  pose proof (pushing_refl false m b) as H0.
  assert (Hix : IndexError ∈ [IndexError; ValueError]) by apply list_elem_of_here.
  assert (Hve : forall e, e = IndexError \/ e = ValueError ->
                          e ∈ [IndexError; ValueError]).
  { intros e [-> | ->]; [apply list_elem_of_here|].
    apply list_elem_of_further, list_elem_of_here. }
  unfold Checkers.push.
  apply post_bind, post_lift; [intros src _|intros _; by apply push_raise_frame].
  apply post_bind, post_lift; [intros tg _|intros _; by apply push_raise_frame].
  apply post_bind, post_getitem;
    [intros at_tg _|intros _; by apply push_raise_frame].
  apply post_bind, post_getitem;
    [intros at_src _|intros _; by apply push_raise_frame].
  apply post_bind, post_setitem;
    [intros p1 [Hl1 Hi1]%array_set_int8|intros _; by apply push_raise_frame].
  pose proof (pushing_set false m b b p1 H0 Hl1 Hi1) as H1.
  apply post_bind, post_setitem;
    [intros p2 [Hl2 Hi2]%array_set_int8|intros _; by apply push_raise_frame].
  pose proof (pushing_set false m b _ p2 H1 Hl2 Hi2) as H2.
  apply post_bind, post_Entity_of_cell;
    [|intros e He; apply push_raise_frame; [done|by apply Hve]].
  destruct H2 as (Hl & Hs & Ht & _ & Hi).
  apply post_push_tail; [done..|]. by left.
Qed.

(** X3: Whatever the move, and with a multiplier [KING] that fits a cell,
    [push] keeps the length of the buffer, the shape
    and the [int8] cells. When it returns, the turn has changed if and only
    if [is_finished], and the stack has grown by exactly the move handed
    back: the caller's move on the stack as it was, or - in the draughts
    engine only - the caller's move flagged [is_promotion], with the flag
    showing on every entry that is the same object. When it raises, the turn
    is untouched and the stack has not grown. The draughts [push] raises
    [IndexError] or [ZeroDivisionError] only, the checkers [push]
    [IndexError] or [ValueError] only. *)
Theorem push_frame (F : Models) (m : Move) (is_finished : bool)
    (b b' : Board) (r : outcome Move) :
  int8 (KING F) ->
  (Draughts.push F m is_finished b = (b', r) ->
   push_outcome [IndexError; ZeroDivisionError] true m is_finished b b' r)
  /\ (Checkers.push F m is_finished b = (b', r) ->
      push_outcome [IndexError; ValueError] false m is_finished b b' r).
Proof.
  intros _. split; intros H.
  - exact (post_run _ _ _ _ _ (post_push_draughts F m is_finished b) H).
  - exact (post_run _ _ _ _ _ (post_push_checkers F m is_finished b) H).
Qed.

Lemma post_stack_pop b Q :
  (_moves_stack b = [] -> Q b (Raise IndexError)) ->
  (forall st m, _moves_stack b = st ++ [m] -> Q (with_stack b st) (Return m)) ->
  post stack_pop b Q.
Proof.
  intros H1 H2. unfold post.
  destruct (_moves_stack b) as [|x l] eqn:E using rev_ind.
  - unfold stack_pop. rewrite (bind_Return get _ _ _ _ eq_refl), E. simpl.
    by apply H1.
  - rewrite (stack_pop_run b l x E). simpl. by apply H2.
Qed.

Lemma pop_raise_frame errors f b0 b m e :
  e ∈ errors ->
  (exists st, _moves_stack b0 = st ++ [m] /\ _moves_stack b = st) ->
  length (_pos b) = length (_pos b0) -> shape b = shape b0 -> turn b = turn b0 ->
  (Forall int8 (_pos b0) -> Forall int8 (_pos b)) ->
  pop_outcome errors f b0 b (Raise e).
Proof.
  intros He (st & E1 & E2) Hl Hs Ht Hi. unfold pop_outcome.
  rewrite Hl, Hs, Ht, E1, E2. repeat split; try done. right. by exists m.
Qed.

Lemma post_restore errors l b b0 m f :
  IndexError ∈ errors ->
  (exists st, _moves_stack b0 = st ++ [m] /\ _moves_stack b = st) ->
  length (_pos b) = length (_pos b0) -> shape b = shape b0 -> turn b = turn b0 ->
  (Forall int8 (_pos b0) -> Forall int8 (_pos b)) ->
  post (restore l ;;; switch_turn f ;;; ret m) b (pop_outcome errors f b0).
Proof.
  intros Herr. revert b. induction l as [|[sq e] l IH]; intros b Hst Hl Hs Ht Hi.
  - cbn [restore]. apply post_bind, post_ret, post_bind.
    destruct Hst as (st & E1 & E2).
    unfold switch_turn, after_turn.
    destruct f; [apply post_modify|apply post_ret]; apply post_ret;
      unfold pop_outcome; simpl; rewrite E1, E2, Ht, Hl, Hs; by repeat split.
  - cbn [restore]. apply post_bind, post_bind, post_setitem.
    + intros p [Hlp Hip]%array_set_int8.
      apply (post_bind_inv (restore l) (fun _ => switch_turn f ;;; ret m)).
      apply IH; simpl; [done|congruence|done|done|auto].
    + intros _. by eapply pop_raise_frame.
Qed.

Lemma post_pop_swap errors (m : Move) f src tg b b0 :
  IndexError ∈ errors ->
  (exists st, _moves_stack b0 = st ++ [m] /\ _moves_stack b = st) ->
  length (_pos b) = length (_pos b0) -> shape b = shape b0 -> turn b = turn b0 ->
  (Forall int8 (_pos b0) -> Forall int8 (_pos b)) ->
  post (at_tg <- getitem tg ;;
        at_src <- getitem src ;;
        setitem src at_tg ;;;
        setitem tg at_src ;;;
        restore (zip (captured_list m) (captured_entities m)) ;;;
        switch_turn f ;;; ret m) b (pop_outcome errors f b0).
Proof.
  intros Herr Hst Hl Hs Ht Hi.
  apply post_bind, post_getitem; [intros at_tg _|intros _; by eapply pop_raise_frame].
  apply post_bind, post_getitem; [intros at_src _|intros _; by eapply pop_raise_frame].
  apply post_bind, post_setitem;
    [intros p1 [Hl1 Hi1]%array_set_int8|intros _; by eapply pop_raise_frame].
  apply post_bind, post_setitem;
    [intros p2 [Hl2 Hi2]%array_set_int8
    |intros _; eapply pop_raise_frame; simpl; eauto; congruence].
  apply post_restore; simpl in *; [done|done|congruence|done|done|auto].
Qed.

Lemma post_pop_draughts (F : Models) (f : bool) (b : Board) :
  post (Draughts.pop F f) b (pop_outcome [IndexError] f b).
Proof.
  assert (Hix : IndexError ∈ [IndexError]) by apply list_elem_of_here.
  unfold Draughts.pop. apply post_bind, post_stack_pop.
  { intros E. unfold pop_outcome. repeat split; try done. by left. }
  intros st m E.
  assert (Hst : exists st0, _moves_stack b = st0 ++ [m]
                            /\ _moves_stack (with_stack b st) = st0)
    by (by exists st).
  apply post_bind, post_lift;
    [intros src _|intros _; by eapply pop_raise_frame].
  apply post_bind, post_lift;
    [intros tg _|intros _; by eapply pop_raise_frame].
  apply post_bind. destruct (is_promotion m).
  - apply post_bind, post_getitem;
      [intros v _|intros _; by eapply pop_raise_frame].
    apply post_setitem;
      [intros p [Hlp Hip]%array_set_int8|intros _; by eapply pop_raise_frame].
    apply post_pop_swap; simpl in *; [done|done|congruence|done|done|auto].
  - apply post_ret. by apply post_pop_swap.
Qed.

Lemma post_pop_checkers (F : Models) (f : bool) (b : Board) :
  post (Checkers.pop F f) b (pop_outcome [IndexError; ValueError] f b).
Proof.
  assert (Hix : IndexError ∈ [IndexError; ValueError]) by apply list_elem_of_here.
  assert (Hve : forall e, e = IndexError \/ e = ValueError ->
                          e ∈ [IndexError; ValueError]).
  { intros e [-> | ->]; [apply list_elem_of_here|].
    apply list_elem_of_further, list_elem_of_here. }
  unfold Checkers.pop. apply post_bind, post_stack_pop.
  { intros E. unfold pop_outcome. repeat split; try done. by left. }
  intros st m E.
  assert (Hst : exists st0, _moves_stack b = st0 ++ [m]
                            /\ _moves_stack (with_stack b st) = st0)
    by (by exists st).
  apply post_bind, post_lift;
    [intros src _|intros _; by eapply pop_raise_frame].
  apply post_bind, post_lift;
    [intros tg _|intros _; by eapply pop_raise_frame].
  apply post_bind, post_Entity_of_cell;
    [|intros e He; eapply pop_raise_frame; [by apply Hve|done..]].
  by apply post_pop_swap.
Qed.

(** X4: On a board whose last move records captured pieces that fit a cell,
    [pop] keeps the length of the buffer, the shape and the [int8] cells.
    When it returns a move, that move was the last of the stack, the stack
    has lost exactly it, and the turn has changed if and only if
    [is_finished]. When it raises, the turn is untouched; then either the
    stack was empty and the board is untouched, or the last move has already
    been taken off the stack. The draughts [pop] raises [IndexError] only,
    the checkers [pop] [IndexError] or [ValueError] only. *)
Theorem pop_frame (F : Models) (is_finished : bool) (b b' : Board)
    (r : outcome Move) :
  (forall m, last (_moves_stack b) = Some m ->
             Forall int8 (captured_entities m)) ->
  (Draughts.pop F is_finished b = (b', r) ->
   pop_outcome [IndexError] is_finished b b' r)
  /\ (Checkers.pop F is_finished b = (b', r) ->
      pop_outcome [IndexError; ValueError] is_finished b b' r).
Proof.
  intros _. split; intros H.
  - exact (post_run _ _ _ _ _ (post_pop_draughts F is_finished b) H).
  - exact (post_run _ _ _ _ _ (post_pop_checkers F is_finished b) H).
Qed.

(** ** One object, one state

    The stack is kept as a list of records; these lemmas show that the
    methods never leave two entries of one object in two states. *)

Lemma elem_of_flag_object o st x :
  x ∈ flag_object o st ->
  exists y, y ∈ st /\ obj y = obj x
            /\ x = (if Nat.eqb (obj y) o then set_is_promotion y true else y).
Proof.
  unfold flag_object. change (map ?f st) with (f <$> st).
  intros (y & -> & Hy)%list_elem_of_fmap. exists y.
  split; [done|]. split; [|done]. by destruct (Nat.eqb _ _).
Qed.

Lemma coherent_flag_object o st : coherent st -> coherent (flag_object o st).
Proof.
  intros H x1 x2 (y1 & Hy1 & E1 & ->)%elem_of_flag_object
                 (y2 & Hy2 & E2 & ->)%elem_of_flag_object Hobj.
  assert (y1 = y2) as ->; [|done].
  apply H; [done..|]. revert Hobj.
  destruct (Nat.eqb (obj y1) o), (Nat.eqb (obj y2) o); done.
Qed.

Lemma coherent_flag_object_snoc m st :
  coherent (st ++ [m]) ->
  coherent (flag_object (obj m) st ++ [set_is_promotion m true]).
Proof.
  intros H.
  assert (E : flag_object (obj m) st ++ [set_is_promotion m true]
              = flag_object (obj m) (st ++ [m])).
  { unfold flag_object. rewrite map_app. simpl. by rewrite Nat.eqb_refl. }
  rewrite E. by apply coherent_flag_object.
Qed.

Lemma coherent_app_l (st1 st2 : list Move) : coherent (st1 ++ st2) -> coherent st1.
Proof.
  intros H x y Hx Hy. apply H; apply elem_of_app; by left.
Qed.

(** [push] keeps the stack coherent, provided the move handed in is in the
    state the stack shows of its object; [pop] keeps it coherent. *)
Lemma push_coherent (F : Models) (m : Move) (f : bool) (b b' : Board)
    (r : outcome Move) :
  coherent (_moves_stack b ++ [m]) ->
  Draughts.push F m f b = (b', r) \/ Checkers.push F m f b = (b', r) ->
  coherent (_moves_stack b').
Proof.
  intros Hc H.
  assert (Hout : exists errors flags, push_outcome errors flags m f b b' r).
  { destruct H as [H|H]; do 2 eexists.
    - exact (post_run _ _ _ _ _ (post_push_draughts F m f b) H).
    - exact (post_run _ _ _ _ _ (post_push_checkers F m f b) H). }
  destruct Hout as (errors & flags & _ & _ & _ & Hr).
  destruct r as [m'|e].
  - destruct Hr as (_ & [[-> ->]|(_ & -> & ->)]); [done|].
    by apply coherent_flag_object_snoc.
  - destruct Hr as (_ & _ & [->|[_ ->]]).
    + by eapply coherent_app_l.
    + apply coherent_flag_object. by eapply coherent_app_l.
Qed.

Lemma pop_coherent (F : Models) (f : bool) (b b' : Board) (r : outcome Move) :
  coherent (_moves_stack b) ->
  Draughts.pop F f b = (b', r) \/ Checkers.pop F f b = (b', r) ->
  coherent (_moves_stack b').
Proof.
  intros Hc H.
  assert (Hout : exists errors, pop_outcome errors f b b' r).
  { destruct H as [H|H]; eexists.
    - exact (post_run _ _ _ _ _ (post_pop_draughts F f b) H).
    - exact (post_run _ _ _ _ _ (post_pop_checkers F f b) H). }
  destruct Hout as (errors & _ & _ & _ & Hr).
  destruct r as [m|e].
  - destruct Hr as [E _]. rewrite E in Hc. by eapply coherent_app_l.
  - destruct Hr as (_ & _ & [[_ ->]|[m E]]); [done|].
    rewrite E in Hc. by eapply coherent_app_l.
Qed.

(** ** [push] is not atomic *)

Lemma array_set_fancy_None a idx v :
  (exists sq, sq ∈ idx /\ index (length a) sq = None) ->
  array_set_fancy a idx v = None.
Proof.
  intros (sq & Hin & Hsq). unfold array_set_fancy.
  assert (E : mapM (index (length a)) idx = None).
  { apply mapM_None_2, Exists_exists. eauto. }
  by rewrite E.
Qed.

(** X5: A captured square outside the buffer makes [push] raise [IndexError]
    after it has swapped origin and destination (and crowned the piece): the
    board it leaves has the move made on the buffer, but not on the stack,
    and no square cleared. If the piece was crowned, the move has been
    flagged, which shows on the entries of the stack that are this object. *)
Theorem push_bad_capture (F : Models) (b : Board) (m : Move)
    (is_finished : bool) (src tg vs vt : Z) :
  2 <= fst (shape b) ->
  origin m = Some src -> destination m = Some tg -> 0 <= src -> 0 <= tg ->
  array_get (_pos b) src = Some vs -> array_get (_pos b) tg = Some vt ->
  (exists sq, sq ∈ captured_list m /\ index (length (_pos b)) sq = None) ->
  Draughts.push F m is_finished b
  = (with_stack
       (with_pos b (pushed_pos F (fst (shape b)) (_pos b)
                      (Z.to_nat src) (Z.to_nat tg) vs vt []))
       (pushed_stack F (fst (shape b)) m (Z.to_nat tg) vs (_moves_stack b)),
     Raise IndexError)
  /\ (src <> tg ->
      array_get (pushed_pos F (fst (shape b)) (_pos b)
                   (Z.to_nat src) (Z.to_nat tg) vs vt []) src
      = Some (wrap8 vt)).
Proof.
  intros Hn Hsrc Htg Hs0 Ht0 Hvs Hvt Hbad.
  set (i := Z.to_nat src). set (j := Z.to_nat tg).
  assert (Hi : _pos b !! i = Some vs) by (by apply array_get_nonneg).
  assert (Hj : _pos b !! j = Some vt) by (by apply array_get_nonneg).
  assert (Hli := lookup_lt_Some _ _ _ Hi). assert (Hlj := lookup_lt_Some _ _ _ Hj).
  assert (Esrc : src = Z.of_nat i) by lia. assert (Etg : tg = Z.of_nat j) by lia.
  set (p1 := <[j := wrap8 vs]> (<[i := wrap8 vt]> (_pos b))).
  assert (Hp1 : p1 !! j = Some (wrap8 vs)).
  { apply list_lookup_insert_eq. by rewrite length_insert. }
  assert (Hl1 : length p1 = length (_pos b)) by (unfold p1; by rewrite !length_insert).
  split.
  - unfold Draughts.push. unfold origin in Hsrc. unfold destination in Htg.
    rewrite Hsrc, Htg, Esrc, Etg. cbn [lift]. rewrite !bind_ret.
    rewrite bind_getitem, array_get_nat, Hj by done.
    rewrite bind_getitem, array_get_nat, Hi by done.
    rewrite bind_setitem, array_set_nat by done.
    rewrite bind_setitem. cbn [_pos with_pos].
    rewrite array_set_nat by (by rewrite length_insert).
    fold p1.
    erewrite (bind_Return (Draughts.promotion_test F _)); cycle 1.
    { apply promotion_test_run with (v := wrap8 vs); [done|].
      cbn [_pos with_pos]. rewrite array_get_nat by lia. exact Hp1. }
    cbn [shape with_pos].
    assert (Hcap : captured_list m <> []).
    { destruct Hbad as (sq & Hin & _). intros E. rewrite E in Hin.
      by apply elem_of_nil in Hin. }
    unfold pushed_pos, pushed_stack, clear_all. cbn [foldl]. fold p1 j.
    destruct (promotes F (shape b).1 (Z.of_nat j) (wrap8 vs)).
    + rewrite bind_assoc, bind_getitem. cbn [_pos with_pos].
      rewrite array_get_nat, Hp1 by lia.
      rewrite bind_assoc, bind_setitem. cbn [_pos with_pos].
      rewrite array_set_nat by lia.
      rewrite bind_assoc, (bind_Return (modify _) _ _ _ _ eq_refl), bind_ret.
      cbn [captured_list set_is_promotion].
      destruct (captured_list m) as [|c cs] eqn:Ec; [done|].
      unfold bind at 1. unfold setitem_fancy.
      rewrite (bind_Return get _ _ _ _ eq_refl). cbn [_pos with_pos with_stack].
      rewrite array_set_fancy_None; [by destruct b|].
      by rewrite length_insert, Hl1.
    + rewrite bind_ret.
      destruct (captured_list m) as [|c cs] eqn:Ec; [done|].
      unfold bind at 1. unfold setitem_fancy.
      rewrite (bind_Return get _ _ _ _ eq_refl). cbn [_pos with_pos].
      rewrite array_set_fancy_None; [by destruct b|].
      by rewrite Hl1.
  - intros Hne. assert (Hij : i <> j) by lia.
    rewrite Esrc, array_get_nat by (by rewrite length_pushed_pos).
    unfold pushed_pos, clear_all. cbn [foldl]. fold p1.
    assert (E1 : p1 !! i = Some (wrap8 vt)).
    { unfold p1. rewrite list_lookup_insert_ne by done.
      by apply list_lookup_insert_eq. }
    destruct (promotes _ _ _ _); [|done].
    by rewrite list_lookup_insert_ne.
Qed.

(** ** The two [pop]s *)

Lemma stack_pop_last b b1 m :
  stack_pop b = (b1, Return m) -> last (_moves_stack b) = Some m.
Proof.
  unfold stack_pop. rewrite (bind_Return get _ _ _ _ eq_refl).
  destruct (last (_moves_stack b)) as [m0|]; [|done].
  unfold bind, modify, ret. by intros [= _ <-].
Qed.

Lemma bind_ext_run {S A B} (c : M S A) (k1 k2 : A -> M S B) s :
  (forall s' a, c s = (s', Return a) -> k1 a s' = k2 a s') ->
  bind c k1 s = bind c k2 s.
Proof. intros H. unfold bind. destruct (c s) as [s' [a|e]]; auto. Qed.

Lemma stack_pop_pos b b1 m :
  stack_pop b = (b1, Return m) -> _pos b1 = _pos b.
Proof.
  unfold stack_pop. rewrite (bind_Return get _ _ _ _ eq_refl).
  destruct (last (_moves_stack b)) as [m0|]; [|done].
  unfold bind, modify, ret. by intros [= <- _].
Qed.

Lemma lift_Return {S A} (o : option A) e (s s' : S) a :
  lift o e s = (s', Return a) -> o = Some a /\ s' = s.
Proof. destruct o; [by intros [= <- <-]|done]. Qed.

(** X7: On a board whose last move is not flagged [is_promotion], has its
    destination on a square that holds a member of [Entity] and records
    captured pieces that fit a cell, the [pop] of [draughts/base.py] and the
    [pop] of [checkers/base.py] do the same, exceptions included: the
    draughts engine differs by the demotion, the checkers engine by the
    look-up of the piece in [Entity]. *)
Theorem pop_agree_without_promotion (F : Models) (is_finished : bool) (b : Board) :
  (forall m, last (_moves_stack b) = Some m -> is_promotion m = false) ->
  (forall m tg v, last (_moves_stack b) = Some m -> destination m = Some tg ->
                  array_get (_pos b) tg = Some v -> Entity_member F v = true) ->
  (forall m, last (_moves_stack b) = Some m ->
             Forall int8 (captured_entities m)) ->
  Draughts.pop F is_finished b = Checkers.pop F is_finished b.
Proof.
  intros Hflag Hmem _. unfold Draughts.pop, Checkers.pop.
  apply bind_ext_run. intros b1 m E.
  pose proof (stack_pop_last b b1 m E) as Hlast.
  pose proof (stack_pop_pos b b1 m E) as Hpos.
  rewrite (Hflag m Hlast).
  apply bind_ext_run. intros b2 src [_ ->]%lift_Return.
  apply bind_ext_run. intros b3 tg [Htg ->]%lift_Return.
  rewrite bind_ret, bind_getitem.
  destruct (array_get (_pos b1) tg) as [v|] eqn:Ev.
  - rewrite (bind_Entity_of_cell F tg _ b1 v Ev).
    rewrite (Hmem m tg v Hlast Htg) by (by rewrite <- Hpos).
    by rewrite (bind_getitem tg), Ev.
  - unfold bind at 1. unfold Checkers.Entity_of_cell.
    by rewrite (bind_getitem tg), Ev.
Qed.

(** ** The round trip of the checkers engine *)

Lemma checkers_push_run (F : Models) (b : Board) (m : Move) (is_finished : bool)
    (i j : nat) (vs vt : Z) (cs : list nat) :
  origin m = Some (Z.of_nat i) -> destination m = Some (Z.of_nat j) ->
  _pos b !! i = Some vs -> _pos b !! j = Some vt ->
  captured_list m = map Z.of_nat cs ->
  Forall (fun k => (k < length (_pos b))%nat) cs ->
  Entity_member F (wrap8 vs) = true ->
  Checkers.push F m is_finished b
  = ({| _pos := checkers_pushed_pos F (_pos b) i j vs vt cs;
        turn := after_turn is_finished (turn b);
        shape := shape b;
        _moves_stack := _moves_stack b ++ [m] |},
     Return m).
Proof.
  intros Hsrc Htg Hi Hj Hcs Hall Hmem.
  assert (Hli := lookup_lt_Some _ _ _ Hi). assert (Hlj := lookup_lt_Some _ _ _ Hj).
  unfold Checkers.push. unfold origin in Hsrc. unfold destination in Htg.
  rewrite Hsrc, Htg. cbn [lift]. rewrite !bind_ret.
  rewrite bind_getitem, array_get_nat, Hj by done.
  rewrite bind_getitem, array_get_nat, Hi by done.
  rewrite bind_setitem, array_set_nat by done.
  rewrite bind_setitem. cbn [_pos with_pos].
  rewrite array_set_nat by (by rewrite length_insert).
  rewrite (bind_Entity_of_cell F _ _ _ (wrap8 vs)), Hmem; cycle 1.
  { cbn [_pos with_pos]. rewrite array_get_nat by (by rewrite !length_insert).
    apply list_lookup_insert_eq. by rewrite length_insert. }
  unfold checkers_pushed_pos. rewrite Hcs.
  destruct cs as [|c cs'].
  - simpl map. cbv match. rewrite bind_ret. unfold switch_turn, after_turn.
    destruct is_finished; reflexivity.
  - change (match map Z.of_nat (c :: cs') with
            | [] => ret ()
            | _ :: _ => setitem_fancy (map Z.of_nat (c :: cs')) (EMPTY F)
            end) with (setitem_fancy (map Z.of_nat (c :: cs')) (EMPTY F)).
    rewrite bind_setitem_fancy
      by (cbn [_pos with_pos]; by rewrite !length_insert).
    unfold switch_turn, after_turn. destruct is_finished; reflexivity.
Qed.

Lemma checkers_pop_run (F : Models) (b : Board) (m : Move) (is_finished : bool)
    (st : list Move) (i j : nat) (l : list (nat * Z)) :
  _moves_stack b = st ++ [m] ->
  origin m = Some (Z.of_nat i) -> destination m = Some (Z.of_nat j) ->
  (i < length (_pos b))%nat -> (j < length (_pos b))%nat ->
  zip (captured_list m) (captured_entities m)
  = map (fun ke => (Z.of_nat ke.1, ke.2)) l ->
  Forall (fun ke => (ke.1 < length (_pos b))%nat) l ->
  Entity_member F (_pos b !!! j) = true ->
  Checkers.pop F is_finished b
  = ({| _pos := checkers_popped_pos (_pos b) i j l;
        turn := after_turn is_finished (turn b);
        shape := shape b;
        _moves_stack := st |},
     Return m).
Proof.
  intros Hst Hsrc Htg Hi Hj Hzip Hall Hmem.
  unfold Checkers.pop.
  rewrite (bind_Return stack_pop _ _ _ _ (stack_pop_run b st m Hst)).
  unfold origin in Hsrc. unfold destination in Htg. rewrite Hsrc, Htg.
  cbn [lift]. rewrite !bind_ret.
  destruct (lookup_lt_is_Some_2 (_pos b) j Hj) as [x Hx].
  destruct (lookup_lt_is_Some_2 (_pos b) i Hi) as [y Hy].
  rewrite (list_lookup_total_correct _ _ _ Hx) in Hmem.
  rewrite (bind_Entity_of_cell F _ _ _ x), Hmem; cycle 1.
  { cbn [_pos with_stack]. by rewrite array_get_nat. }
  rewrite bind_getitem. cbn [_pos with_stack]. rewrite array_get_nat, Hx by lia.
  rewrite bind_getitem. cbn [_pos with_stack]. rewrite array_get_nat, Hy by lia.
  rewrite bind_setitem. cbn [_pos with_stack]. rewrite array_set_nat by lia.
  rewrite bind_setitem. cbn [_pos with_pos].
  rewrite array_set_nat by (rewrite length_insert; lia).
  rewrite Hzip.
  erewrite (bind_Return (restore _)); cycle 1.
  { apply restore_run. cbn [_pos with_pos]. by rewrite !length_insert. }
  unfold checkers_popped_pos.
  rewrite (list_lookup_total_correct _ _ _ Hx), (list_lookup_total_correct _ _ _ Hy).
  unfold switch_turn, after_turn. destruct is_finished; reflexivity.
Qed.

Lemma checkers_roundtrip_pos F p (i j : nat) vs cs ents :
  Forall int8 p ->
  p !! i = Some vs -> p !! j = Some (EMPTY F) -> j ∉ cs ->
  Forall2 (fun k e => p !! k = Some e) cs ents ->
  checkers_popped_pos (checkers_pushed_pos F p i j vs (EMPTY F) cs) i j (zip cs ents)
  = p.
Proof.
  intros Hint Hi Hj Hjcs Hcs.
  assert (Hli := lookup_lt_Some _ _ _ Hi). assert (Hlj := lookup_lt_Some _ _ _ Hj).
  assert (Hvs : int8 vs) by (eapply Forall_lookup_1; eauto).
  assert (He : int8 (EMPTY F)) by (eapply Forall_lookup_1; eauto).
  unfold checkers_pushed_pos. rewrite (wrap8_int8 vs Hvs), (wrap8_int8 _ He).
  set (p1 := <[j := vs]> (<[i := EMPTY F]> p)).
  set (p3 := clear_all (EMPTY F) cs p1).
  assert (Hl1 : length p1 = length p) by (unfold p1; by rewrite !length_insert).
  assert (Hl3 : length p3 = length p) by (unfold p3; by rewrite length_clear_all).
  assert (Hfst : (zip cs ents).*1 = cs).
  { apply fst_zip. by rewrite (Forall2_length _ _ _ Hcs). }
  assert (Hall : Forall (fun ke : nat * Z => p !! ke.1 = Some ke.2) (zip cs ents)).
  { clear -Hcs. induction Hcs; simpl; constructor; done. }
  assert (H3j : p3 !! j = Some vs).
  { unfold p3. rewrite lookup_clear_all_notin by done.
    apply list_lookup_insert_eq. by rewrite length_insert. }
  assert (H3i : p3 !! i = Some (EMPTY F)).
  { destruct (decide (i = j)) as [->|Hij]; [congruence|].
    unfold p3. destruct (decide (i ∈ cs)) as [Hin|Hnot].
    - rewrite lookup_clear_all_in, (wrap8_int8 _ He) by (done || lia). done.
    - rewrite lookup_clear_all_notin by done.
      unfold p1. rewrite list_lookup_insert_ne by done.
      by apply list_lookup_insert_eq. }
  unfold checkers_popped_pos.
  rewrite (list_lookup_total_correct _ _ _ H3j), (list_lookup_total_correct _ _ _ H3i).
  rewrite (wrap8_int8 vs Hvs), (wrap8_int8 _ He).
  set (q2 := <[j := EMPTY F]> (<[i := vs]> p3)).
  assert (Hl5 : length q2 = length p) by (unfold q2; by rewrite !length_insert).
  apply (list_eq_same_length _ _ (length p)); [done|by rewrite length_write_back|].
  intros k x y Hk Hx Hy.
  destruct (decide (k ∈ cs)) as [Hin|Hnot].
  - destruct (lookup_write_back_in p (zip cs ents) q2 k Hall) as (e & Hpe & Hwe);
      [by rewrite Hfst|lia|].
    rewrite Hwe in Hx. rewrite Hpe in Hy.
    injection Hx as <-. injection Hy as <-.
    apply wrap8_int8. eapply Forall_lookup_1; eauto.
  - rewrite lookup_write_back_notin in Hx by (by rewrite Hfst).
    unfold q2 in Hx.
    destruct (decide (k = j)) as [->|Hkj].
    { rewrite list_lookup_insert_eq in Hx by (rewrite length_insert; lia). congruence. }
    rewrite list_lookup_insert_ne in Hx by done.
    destruct (decide (k = i)) as [->|Hki].
    { rewrite list_lookup_insert_eq in Hx by lia. congruence. }
    rewrite list_lookup_insert_ne in Hx by done.
    unfold p3 in Hx. rewrite lookup_clear_all_notin in Hx by done.
    unfold p1 in Hx. rewrite !list_lookup_insert_ne in Hx by done.
    congruence.
Qed.

(** X8: In the checkers engine too, [push] followed by [pop] with the same
    [is_finished] gives back the board it started from - buffer, turn, shape
    and stack - for every move of a piece that is a member of [Entity] onto
    an empty square, whose captured squares hold the pieces
    [captured_entities] records. Without a promotion rule this holds
    whatever the row and the [is_promotion] flag, and whether or not the
    object is on the stack already. *)
Theorem checkers_push_pop_roundtrip (F : Models) (b : Board) (m : Move)
    (is_finished : bool) (src tg vs : Z) :
  Forall int8 (_pos b) ->
  origin m = Some src -> destination m = Some tg -> 0 <= src -> 0 <= tg ->
  array_get (_pos b) src = Some vs ->
  Entity_member F vs = true ->
  array_get (_pos b) tg = Some (EMPTY F) ->
  Forall2 (fun sq e => 0 <= sq /\ array_get (_pos b) sq = Some e /\ e <> EMPTY F)
          (captured_list m) (captured_entities m) ->
  exists b',
    Checkers.push F m is_finished b = (b', Return m)
    /\ Checkers.pop F is_finished b' = (b, Return m).
Proof.
  intros Hint Hsrc Htg Hs0 Ht0 Hvs Hmem Hvt Hcap.
  set (i := Z.to_nat src). set (j := Z.to_nat tg).
  set (cs := map Z.to_nat (captured_list m)).
  assert (Hi : _pos b !! i = Some vs) by (by apply array_get_nonneg).
  assert (Hj : _pos b !! j = Some (EMPTY F)) by (by apply array_get_nonneg).
  assert (Hli := lookup_lt_Some _ _ _ Hi). assert (Hlj := lookup_lt_Some _ _ _ Hj).
  assert (Hcs : captured_list m = map Z.of_nat cs).
  { unfold cs. symmetry. apply map_of_nat_to_nat.
    clear -Hcap. induction Hcap as [|???? [? _]]; constructor; done. }
  assert (Hcs2 : Forall2 (fun k e => _pos b !! k = Some e /\ e <> EMPTY F)
                         cs (captured_entities m)).
  { unfold cs. clear -Hcap.
    induction Hcap as [|sq e ?? (H0 & Hg & He) _ IH]; simpl; constructor; [|done].
    split; [by apply array_get_nonneg|done]. }
  assert (Hin : Forall (fun k => (k < length (_pos b))%nat) cs).
  { clear -Hcs2. induction Hcs2 as [|???? [H _]]; constructor; [|done].
    by eapply lookup_lt_Some. }
  assert (Hjcs : j ∉ cs).
  { intros Hjin. clear -Hjin Hcs2 Hj.
    induction Hcs2 as [|k e ?? [Hk He] _ IH]; [by apply elem_of_nil in Hjin|].
    apply elem_of_cons in Hjin as [->|Hjin]; [congruence|auto]. }
  assert (Hsrc' : origin m = Some (Z.of_nat i)) by (rewrite Hsrc; f_equal; lia).
  assert (Htg' : destination m = Some (Z.of_nat j)) by (rewrite Htg; f_equal; lia).
  assert (Hvs8 : wrap8 vs = vs).
  { apply wrap8_int8. eapply Forall_lookup_1; eauto. }
  assert (Hmem8 : Entity_member F (wrap8 vs) = true) by (by rewrite Hvs8).
  pose proof (checkers_push_run F b m is_finished i j vs (EMPTY F) cs
                Hsrc' Htg' Hi Hj Hcs Hin Hmem8) as Hpush.
  eexists. split; [exact Hpush|].
  assert (Hlp : length (checkers_pushed_pos F (_pos b) i j vs (EMPTY F) cs)
                = length (_pos b)).
  { unfold checkers_pushed_pos. by rewrite length_clear_all, !length_insert. }
  erewrite checkers_pop_run with (i := i) (j := j) (st := _moves_stack b)
                                 (l := zip cs (captured_entities m)); cycle 1.
  - reflexivity.
  - exact Hsrc'.
  - exact Htg'.
  - cbn [_pos]. by rewrite Hlp.
  - cbn [_pos]. by rewrite Hlp.
  - rewrite Hcs. clear. generalize (captured_entities m).
    induction cs as [|c cs IH]; intros [|e ents]; simpl; [done..|].
    by rewrite IH.
  - cbn [_pos]. rewrite Hlp.
    clear -Hin. revert Hin. generalize (captured_entities m).
    induction cs as [|c cs IH]; intros [|e ents] H; simpl; [done..|].
    apply Forall_cons in H as [Hc H]. constructor; [done|]. by apply IH.
  - cbn [_pos].
    assert (E : checkers_pushed_pos F (_pos b) i j vs (EMPTY F) cs !! j
                = Some (wrap8 vs)).
    { unfold checkers_pushed_pos. rewrite lookup_clear_all_notin by done.
      apply list_lookup_insert_eq. by rewrite length_insert. }
    by rewrite (list_lookup_total_correct _ _ _ E).
  - cbn [_pos turn shape].
    rewrite checkers_roundtrip_pos; try done.
    + rewrite after_turn_involutive. by destruct b.
    + clear -Hcs2. induction Hcs2 as [|???? [H _]]; constructor; done.
Qed.

(** ** Decoding any string *)

Local Open Scope char_scope.

Lemma upper_char_idempotent c : upper_char (upper_char c) = upper_char c.
Proof. destruct c as [[] [] [] [] [] [] [] []]; vm_compute; reflexivity. Qed.

Lemma upper_idempotent s : upper (upper s) = upper s.
Proof.
  unfold upper. induction s as [|c s IH]; [done|].
  simpl. by rewrite upper_char_idempotent, IH.
Qed.

(** X13: [from_fen] reads a string and its upper-case form alike: the same
    outcome and the same class state. *)
Theorem from_fen_case_insensitive (F : Models) (s : str) (cls : Codec.Class) :
  Codec.from_fen F (upper s) cls = Codec.from_fen F s cls.
Proof. unfold Codec.from_fen. cbv zeta. by rewrite upper_idempotent. Qed.

Lemma re_search_Some (m : matcher) (s g : str) :
  re_search m s = Some g -> exists s', m s' = Some g.
Proof.
  induction s as [|c s IH]; simpl.
  - destruct (m []) eqn:E; [intros [= <-]; by exists []|done].
  - destruct (m (c :: s)) eqn:E; [intros [= <-]; by exists (c :: s)|exact IH].
Qed.

Lemma take_while_Forall p (s : str) : Forall (fun c => p c = true) (take_while p s).
Proof.
  induction s as [|c s IH]; simpl; [constructor|].
  destruct (p c) eqn:E; by constructor.
Qed.

Lemma re_turn_Some s t : re_search re_turn s = Some t -> length (take 1 t) = 1%nat.
Proof.
  intros (s' & H)%re_search_Some. unfold re_turn in H.
  destruct s' as [|a [|b s']]; try done.
  destruct (_ && _); [|done]. by injection H as <-.
Qed.

Lemma re_color_Some letter s w :
  re_search (re_color letter) s = Some w ->
  exists run, w = letter :: run /\ run <> [] /\ list_text run.
Proof.
  intros (s' & H)%re_search_Some. unfold re_color in H.
  destruct s' as [|a r]; [done|].
  destruct (Ascii.eqb_spec a letter) as [->|]; [|done].
  pose proof (take_while_Forall is_list_char r) as Hrun.
  destruct (take_while is_list_char r) as [|c run] eqn:E; [done|].
  injection H as <-. by exists (c :: run).
Qed.

Lemma replace_run (letter : ascii) (w : str) s :
  letter = "W" \/ letter = "B" ->
  re_search (re_color letter) s = Some w ->
  (length (replace [letter] [] w) =? 0)%nat = false.
Proof.
  intros Hl (run & -> & Hne & Hrun)%re_color_Some.
  rewrite replace_letter.
  - apply Nat.eqb_neq. by destruct run.
  - eapply Forall_impl; [exact Hrun|]. intros c Hc.
    apply is_list_char_facts in Hc. destruct Hl as [-> | ->]; tauto.
Qed.

Lemma decoded_cell_int8 F v : decoded_cell F v -> int8 v.
Proof.
  intros [->|[color [-> | ->]]]; [unfold int8; lia|apply wrap8_is_int8..].
Qed.

Lemma cls_setitem_in_range F len color (king : bool) (s : str) c :
  decoded_class F len c -> Codec.in_board_range len s = true ->
  exists c',
    Codec.cls_setitem (Z.of_nat (int_of_digits s) - 1)
      (if king then Color_value F color * KING F else Color_value F color)%Z c
    = (c', Return tt)
    /\ decoded_class F len c'.
Proof.
  intros [Hlen Hcells] Hr. unfold Codec.in_board_range in Hr.
  apply andb_true_iff in Hr as [H1 H2]. apply Nat.leb_le in H1, H2.
  replace (Z.of_nat (int_of_digits s) - 1)%Z
    with (Z.of_nat (int_of_digits s - 1)) by lia.
  rewrite cls_setitem_nat by lia.
  eexists. split; [reflexivity|]. split; simpl.
  - by rewrite length_insert.
  - apply Forall_insert; [done|]. right. exists color. destruct king; auto.
Qed.

Lemma post_populate_loop F len toks color c :
  decoded_class F len c ->
  post (Codec.populate_loop F len toks color) c
       (fun c' r => decoded_class F len c'
                    /\ (r = Return tt \/ r = Raise ValueError)).
Proof.
  revert c. induction toks as [|sq toks IH]; intros c Hc.
  - apply post_ret. auto.
  - cbn [Codec.populate_loop]. apply post_bind.
    destruct (isdigit sq && Codec.in_board_range len sq) eqn:E1.
    + apply andb_true_iff in E1 as [_ Hr].
      destruct (cls_setitem_in_range F len color false sq c Hc Hr) as (c' & E & Hc').
      unfold post. rewrite E. simpl. by apply IH.
    + destruct (starts_with ["K"] sq && isdigit (drop 1 sq)
                && Codec.in_board_range len (drop 1 sq)) eqn:E2.
      * apply andb_true_iff in E2 as [_ Hr].
        destruct (cls_setitem_in_range F len color true (drop 1 sq) c Hc Hr)
          as (c' & E & Hc').
        unfold post. rewrite E. simpl. by apply IH.
      * unfold post. simpl. auto.
Qed.

Lemma post_populate_from_list F toks color c :
  post (Codec.populate_from_list F toks color) c
       (fun c' r =>
          (decoded_class F (length (Codec.STARTING_POSITION c)) c ->
           decoded_class F (length (Codec.STARTING_POSITION c)) c')
          /\ (Forall (decoded_cell F) (Codec.STARTING_POSITION c) ->
              (r = Return tt \/ r = Raise ValueError)
              /\ decoded_class F (length (Codec.STARTING_POSITION c)) c')).
Proof.
  unfold Codec.populate_from_list. apply post_bind, post_get.
  unfold post.
  split.
  - intros Hc. by destruct (post_populate_loop F _ toks color c Hc).
  - intros Hc.
    assert (Hd : decoded_class F (length (Codec.STARTING_POSITION c)) c) by done.
    destruct (post_populate_loop F _ toks color c Hd). done.
Qed.

Lemma post_populate_both F wt bt c :
  Forall (decoded_cell F) (Codec.STARTING_POSITION c) ->
  post (Codec.try_except
          (Codec.populate_from_list F wt WHITE ;;;
           Codec.populate_from_list F bt BLACK)
          ValueError (ret tt)) c
       (fun c' r => r = Return tt
                    /\ decoded_class F (length (Codec.STARTING_POSITION c)) c').
Proof.
  intros Hc.
  pose proof (post_populate_from_list F wt WHITE c) as H1.
  unfold post in *. unfold Codec.try_except, bind.
  destruct (Codec.populate_from_list F wt WHITE c) as [c1 r1].
  simpl in H1. destruct H1 as [_ H1]. destruct (H1 Hc) as [Hr1 [Hl1 Hc1]].
  destruct Hr1 as [-> | ->]; [|by simpl].
  pose proof (post_populate_from_list F bt BLACK c1) as H2. unfold post in H2.
  destruct (Codec.populate_from_list F bt BLACK c1) as [c2 r2].
  simpl in H2. destruct H2 as [_ H2]. destruct (H2 Hc1) as [Hr2 [Hl2 Hc2]].
  rewrite Hl1 in Hl2.
  destruct Hr2 as [-> | ->]; by simpl.
Qed.

Lemma Forall_repeat_zero F n : Forall (decoded_cell F) (repeat 0%Z n).
Proof. induction n; simpl; constructor; [by left|done]. Qed.

Lemma init_outcome c p :
  match Draughts.init c p with
  | Return b => Board_ok b \/ ~ Forall int8 p
  | Raise e =>
      e = ValueError
      /\ forall n : Z, (n * n)%Z <> (2 * Z.of_nat (length p))%Z
  end.
Proof.
  unfold Draughts.init. cbv zeta.
  destruct (Z.eqb_spec (Z.sqrt (Z.of_nat (length p) * 2) ^ 2)
              (Z.of_nat (length p) * 2)) as [E|E]; simpl.
  - destruct (decide (Forall int8 p)) as [Hp|Hp]; [left|by right].
    pose proof (Z.sqrt_nonneg (Z.of_nat (length p) * 2)).
    unfold Board_ok. simpl. repeat split; [done|lia|lia].
  - split; [done|]. intros n Hn. apply E.
    replace (Z.of_nat (length p) * 2)%Z with (Z.abs n * Z.abs n)%Z by lia.
    rewrite Z.sqrt_square by lia. lia.
Qed.

(** X10: Whatever the string, [from_fen] returns a board or raises
    [AttributeError] or [ValueError], nothing else. A returned board has the
    length of the class attribute [STARTING_POSITION], a square shape of
    that size, an empty stack, and cells that are zero or a man or king of
    one colour. [AttributeError] leaves the class as it was. [ValueError]
    arises only when that length is of no square board - never from the
    content of the string - and by then the class has been overwritten. *)
Theorem from_fen_outcomes (F : Models) (s : str) (cls cls' : Codec.Class)
    (r : outcome Board) :
  Codec.from_fen F s cls = (cls', r) -> from_fen_outcome F cls cls' r.
Proof.
  unfold Codec.from_fen. cbv zeta.
  set (s1 := match re_search re_prefix _ with Some _ => _ | None => _ end).
  destruct (re_search re_turn s1) as [t|] eqn:Et; [|by intros [= <- <-]].
  destruct (re_search re_white s1) as [w|] eqn:Ew; [|by intros [= <- <-]].
  destruct (re_search re_black s1) as [bl|] eqn:Eb; [|by intros [= <- <-]].
  rewrite (bind_Return (modify _) _ _ _ _ eq_refl).
  rewrite (re_turn_Some _ _ Et). rewrite (replace_run "W" w s1) by auto.
  cbn [Nat.eqb negb andb orb].
  set (c0 := Codec.with_STARTING_POSITION cls _).
  assert (Hc0 : Forall (decoded_cell F) (Codec.STARTING_POSITION c0))
    by apply Forall_repeat_zero.
  assert (Hl0 : length (Codec.STARTING_POSITION c0)
                = length (Codec.STARTING_POSITION cls)) by apply repeat_length.
  pose proof (post_populate_both F (split "," (replace ["W"] [] w))
                (split "," (replace ["B"] [] bl)) c0 Hc0) as Hpop.
  unfold post in Hpop. unfold bind at 1.
  destruct (Codec.try_except _ _ _ c0) as [c1 r1].
  cbn [fst snd] in Hpop. destruct Hpop as [-> [Hl1 Hc1]]. rewrite Hl0 in Hl1.
  rewrite (bind_Return (modify _) _ _ _ _ eq_refl).
  rewrite (bind_Return get _ _ _ _ eq_refl).
  unfold lift_outcome. cbn [Codec.STARTING_COLOR Codec.STARTING_POSITION].
  intros [= <- <-].
  set (color := if _ && _ then WHITE else BLACK).
  pose proof (init_outcome color (Codec.STARTING_POSITION c1)) as Hinit.
  destruct (Draughts.init color (Codec.STARTING_POSITION c1)) as [b|e] eqn:Ei.
  - destruct (init_Return _ _ _ Ei) as (Hp & _ & Hst).
    unfold from_fen_outcome. rewrite Hp.
    destruct Hinit as [Hok|Hno].
    + done.
    + exfalso. apply Hno. eapply Forall_impl; [exact Hc1|].
      intros v. apply decoded_cell_int8.
  - destruct Hinit as [-> Hn]. unfold from_fen_outcome.
    cbn [Codec.STARTING_COLOR Codec.STARTING_POSITION Codec.cls_turn].
    rewrite Hl1 in Hn. done.
Qed.

Local Close Scope char_scope.

(** ** A position of one colour *)

Local Open Scope char_scope.

Lemma np_where_from_nil i cond (l : list Z) :
  (forall v, v ∈ l -> cond v = false) -> Codec.np_where_from i cond l = [].
Proof.
  revert i. induction l as [|x l IH]; intros i H; [done|].
  simpl. rewrite (H x) by apply list_elem_of_here.
  apply IH. intros v Hv. apply H. by apply list_elem_of_further.
Qed.

Lemma from_fen_no_white F cls t bl :
  list_text bl ->
  Codec.from_fen F (fen_text t [] bl) cls = (cls, Raise AttributeError).
Proof.
  intros Hbl. assert (Hnil : list_text []) by constructor.
  unfold Codec.from_fen. cbv zeta.
  rewrite upper_fen_text, premove_fen_text, prefix_fen_text by done.
  cbv iota beta. rewrite replace_fen_text by done.
  rewrite turn_fen_text, white_fen_text_empty by done.
  reflexivity.
Qed.

Lemma from_fen_no_black F cls t wl :
  list_text wl ->
  Codec.from_fen F (fen_text t wl []) cls = (cls, Raise AttributeError).
Proof.
  intros Hwl. assert (Hnil : list_text []) by constructor.
  unfold Codec.from_fen. cbv zeta.
  rewrite upper_fen_text, premove_fen_text, prefix_fen_text by done.
  cbv iota beta. rewrite replace_fen_text by done.
  rewrite turn_fen_text, black_fen_text_empty by done.
  by destruct (re_search re_white _).
Qed.

(** X12: A position without a white piece, or without a black piece, cannot be
    read back: [from_fen] refuses the string [fen] writes for it with
    [AttributeError], and leaves the class as it was. *)
Theorem fen_one_colour_refused (F : Models) (cls : Codec.Class) (b : Board) :
  (forall v, v ∈ _pos b -> (0 <= v)%Z) \/ (forall v, v ∈ _pos b -> (v <= 0)%Z) ->
  Codec.from_fen F (Codec.fen b) cls = (cls, Raise AttributeError).
Proof.
  intros [H|H]; rewrite fen_unfold.
  - assert (E : Codec.np_where (fun x => x <? 0)%Z (_pos b) = []).
    { apply np_where_from_nil. intros v Hv. apply Z.ltb_ge. by apply H. }
    rewrite E. apply from_fen_no_white, token_list_text.
  - assert (E : Codec.np_where (fun x => x >? 0)%Z (_pos b) = []).
    { apply np_where_from_nil. intros v Hv. specialize (H v Hv).
      rewrite Z.gtb_ltb. apply Z.ltb_ge. lia. }
    rewrite E. apply from_fen_no_black, token_list_text.
Qed.

Local Close Scope char_scope.

(** ** Repetition after a move *)

Lemma threefold_short (b : Board) :
  (length (_moves_stack b) < 9)%nat -> Draughts.is_threefold_repetition b = false.
Proof.
  intros H. unfold Draughts.is_threefold_repetition.
  destruct (Z.leb_spec 9 (Z.of_nat (length (_moves_stack b)))); [lia|done].
Qed.

Lemma threefold_snoc (b' : Board) (st : list Move) (m' : Move) :
  _moves_stack b' = st ++ [m'] ->
  Draughts.is_threefold_repetition b' = true <->
  (8 <= length st)%nat
  /\ exists m4 m8,
       reverse st !! 3%nat = Some m4 /\ reverse st !! 7%nat = Some m8
       /\ square_list m' = square_list m4 /\ square_list m4 = square_list m8.
Proof.
  intros Hst.
  destruct (decide (8 <= length st)%nat) as [Hlen|Hlen]; cycle 1.
  { rewrite threefold_short by (rewrite Hst, length_app; simpl; lia).
    split; [done|]. intros [? _]. lia. }
  rewrite threefold_unfold by (rewrite Hst, length_app; simpl; lia).
  rewrite Hst, reverse_snoc.
  assert (E0 : (m' :: reverse st) !! 0%nat = Some m') by reflexivity.
  assert (E4 : (m' :: reverse st) !! 4%nat = reverse st !! 3%nat) by reflexivity.
  assert (E8 : (m' :: reverse st) !! 8%nat = reverse st !! 7%nat) by reflexivity.
  rewrite E0, E4, E8.
  split.
  - intros H. split; [done|].
    destruct (reverse st !! 3%nat) as [m4|]; [|done].
    destruct (reverse st !! 7%nat) as [m8|]; [|done].
    apply andb_true_iff in H as [H1 H2]. apply bool_decide_eq_true in H1, H2.
    by exists m4, m8.
  - intros (_ & m4 & m8 & -> & -> & E1 & E2).
    apply andb_true_iff. split; by apply bool_decide_eq_true.
Qed.

Lemma length_flag_object o st : length (flag_object o st) = length st.
Proof. unfold flag_object. apply length_map. Qed.

Lemma flag_object_reverse_lookup o st (k : nat) (x : Move) :
  reverse (flag_object o st) !! k = Some x ->
  exists y, reverse st !! k = Some y /\ square_list x = square_list y.
Proof.
  unfold flag_object.
  change (map ?f st) with (f <$> st). rewrite <- fmap_reverse, list_lookup_fmap.
  destruct (reverse st !! k) as [y|]; [|done].
  simpl. intros [= <-]. exists y. split; [done|]. by destruct (Nat.eqb _ _).
Qed.

Lemma reverse_flag_object_lookup o st (k : nat) (y : Move) :
  reverse st !! k = Some y ->
  exists x, reverse (flag_object o st) !! k = Some x
            /\ square_list x = square_list y.
Proof.
  intros H. unfold flag_object.
  change (map ?f st) with (f <$> st). rewrite <- fmap_reverse, list_lookup_fmap, H.
  simpl. eexists. split; [done|]. by destruct (Nat.eqb _ _).
Qed.

(** X9: After a [push] that returns, [is_threefold_repetition] holds if and only
    if the stack had at least 8 moves before and the square list of the move
    pushed is that of the moves 4 and 8 places back. *)
Theorem push_threefold (F : Models) (m m' : Move) (is_finished : bool)
    (b b' : Board) :
  Draughts.push F m is_finished b = (b', Return m') ->
  Draughts.is_threefold_repetition b' = true <->
  (8 <= length (_moves_stack b))%nat
  /\ exists m4 m8,
       reverse (_moves_stack b) !! 3%nat = Some m4
       /\ reverse (_moves_stack b) !! 7%nat = Some m8
       /\ square_list m = square_list m4 /\ square_list m4 = square_list m8.
Proof.
  intros H.
  pose proof (post_run _ _ _ _ _ (post_push_draughts F m is_finished b) H)
    as (_ & _ & _ & _ & [[-> Hst]|(_ & -> & Hst)]).
  - by rewrite (threefold_snoc b' _ m Hst).
  - rewrite (threefold_snoc b' _ _ Hst), length_flag_object.
    cbn [square_list set_is_promotion].
    split; intros (Hlen & m4 & m8 & E4 & E8 & H1 & H2); (split; [done|]).
    + apply flag_object_reverse_lookup in E4 as (y4 & E4 & S4).
      apply flag_object_reverse_lookup in E8 as (y8 & E8 & S8).
      exists y4, y8. repeat split; congruence.
    + apply (reverse_flag_object_lookup (obj m)) in E4 as (x4 & E4 & S4).
      apply (reverse_flag_object_lookup (obj m)) in E8 as (x8 & E8 & S8).
      exists x4, x8. repeat split; congruence.
Qed.

(** ** No division by zero on a board that [__init__] made *)

Lemma array_get_length a i v : array_get a i = Some v -> (0 < length a)%nat.
Proof.
  unfold array_get, list_getitem.
  destruct (index (length a) i) as [k|] eqn:E; [|done].
  intros _. apply index_lt in E. lia.
Qed.

Lemma Board_ok_half (b : Board) :
  Board_ok b -> (0 < length (_pos b))%nat -> (fst (shape b) / 2 =? 0) = false.
Proof.
  intros Hb Hlen. apply half_nonzero, Board_ok_rows; [done|lia].
Qed.

Ltac index_step :=
  first
    [ apply post_bind
    | apply post_lift; [intros ? ?|intros ?; reflexivity]
    | apply post_getitem; [intros ? ?|intros ?; reflexivity]
    | apply post_setitem; [intros ? ?|intros ?; reflexivity]
    | apply post_setitem_fancy; [intros ? ?|intros ?; reflexivity]
    | apply post_get
    | apply post_modify
    | apply post_ret ].

Lemma post_push_index (F : Models) (m : Move) (f : bool) (b : Board) :
  Board_ok b -> post (Draughts.push F m f) b index_error_only.
Proof.
  intros Hb. unfold Draughts.push.
  apply post_bind, post_lift; [intros src _|intros _; reflexivity].
  apply post_bind, post_lift; [intros tg _|intros _; reflexivity].
  apply post_bind, post_getitem; [intros at_tg Htg|intros _; reflexivity].
  assert (Hlen := array_get_length _ _ _ Htg).
  apply post_bind, post_getitem; [intros at_src _|intros _; reflexivity].
  apply post_bind, post_setitem; [intros p1 _|intros _; reflexivity].
  apply post_bind, post_setitem; [intros p2 _|intros _; reflexivity].
  assert (Htail : forall (m1 : Move) (b1 : Board),
            post ((match captured_list m1 with
                   | [] => ret tt
                   | _ :: _ => setitem_fancy (captured_list m1) (EMPTY F)
                   end) ;;;
                  modify (fun b => with_stack b (_moves_stack b ++ [m1])) ;;;
                  switch_turn f ;;; ret m1) b1 index_error_only).
  { intros m1 b1. apply post_bind.
    assert (Hend : forall b2,
              post (modify (fun b => with_stack b (_moves_stack b ++ [m1])) ;;;
                    switch_turn f ;;; ret m1) b2 index_error_only).
    { intros b2. apply post_bind, post_modify, post_bind. unfold switch_turn.
      destruct f; [apply post_modify|apply post_ret]; by apply post_ret. }
    destruct (captured_list m1).
    - apply post_ret, Hend.
    - apply post_setitem_fancy; [intros p _; apply Hend|intros _; reflexivity]. }
  apply post_bind. unfold Draughts.promotion_test.
  apply post_bind, post_get. cbn [shape with_pos].
  rewrite (Board_ok_half b Hb Hlen).
  apply post_bind, post_getitem; [intros v _|intros _; reflexivity].
  apply post_ret, post_bind.
  destruct (_ || _).
  - apply post_bind, post_getitem; [intros v' _|intros _; reflexivity].
    apply post_bind, post_setitem; [intros p3 _|intros _; reflexivity].
    apply post_bind, post_modify, post_ret, Htail.
  - apply post_ret, Htail.
Qed.

(** X6: On a board as [__init__] makes it - a buffer of [n * n / 2] cells and the
    shape [(n, n)] - [push] never divides by zero: whatever the move, it
    returns or raises [IndexError]. *)
Theorem push_raises_index_error_only (F : Models) (m : Move)
    (is_finished : bool) (b b' : Board) (e : exn) :
  Board_ok b -> Draughts.push F m is_finished b = (b', Raise e) ->
  e = IndexError.
Proof.
  intros Hb H.
  exact (post_run _ _ _ _ _ (post_push_index F m is_finished b Hb) H).
Qed.

(** ** A token [__populate_from_list] refuses *)

Local Open Scope char_scope.

Lemma populate_loop_bad_token F len color (king : nat -> bool) (good : list nat)
    (bad : str) (rest : list str) c :
  length (Codec.STARTING_POSITION c) = len ->
  Forall (fun sq => (sq < len)%nat) good ->
  isdigit bad && Codec.in_board_range len bad = false ->
  starts_with ["K"] bad && isdigit (drop 1 bad)
    && Codec.in_board_range len (drop 1 bad) = false ->
  Codec.populate_loop F len
    (map (fun sq => Codec.square_token (king sq) sq) good ++ bad :: rest) color c
  = (Codec.with_STARTING_POSITION c
       (written F color king good (Codec.STARTING_POSITION c)),
     Raise ValueError).
Proof.
  intros Hlen Hgood H1 H2. revert c Hlen.
  induction Hgood as [|sq good Hsq _ IH]; intros c Hlen.
  - cbn [map app Codec.populate_loop]. rewrite H1, H2. by destruct c.
  - cbn [map app Codec.populate_loop].
    rewrite (populate_token F len color (king sq) sq c Hlen Hsq).
    rewrite IH by (cbn; by rewrite length_insert).
    reflexivity.
Qed.

(** X11: [__populate_from_list] stops at the first token that is neither a square
    number of the board nor [K] and such a number: it raises [ValueError],
    the squares listed before that token stay written, the tokens after it
    are not read. *)
Theorem populate_stops_at_bad_token (F : Models) (color : Color)
    (king : nat -> bool) (good : list nat) (bad : str) (rest : list str)
    (c : Codec.Class) :
  let len := length (Codec.STARTING_POSITION c) in
  Forall (fun sq => (sq < len)%nat) good ->
  isdigit bad && Codec.in_board_range len bad = false ->
  starts_with ["K"] bad && isdigit (drop 1 bad)
    && Codec.in_board_range len (drop 1 bad) = false ->
  Codec.populate_from_list F
    (map (fun sq => Codec.square_token (king sq) sq) good ++ bad :: rest) color c
  = (Codec.with_STARTING_POSITION c
       (written F color king good (Codec.STARTING_POSITION c)),
     Raise ValueError).
Proof.
  intros len Hgood H1 H2. unfold Codec.populate_from_list.
  rewrite (bind_Return get _ _ _ _ eq_refl).
  by apply populate_loop_bad_token.
Qed.

Local Close Scope char_scope.

(** ** Instances of the properties above *)


Lemma friendly_form_light_squares_witness :
  friendly_form notation_board !! 9%nat = Some 0.
Proof.
  apply (friendly_form_light_squares notation_board 9).
  - board_ok.
  - simpl. lia.
  - vm_compute. lia.
  - reflexivity.
Defined.

Lemma push_frame_witness :
  push_outcome [IndexError; ZeroDivisionError] true quiet_move true
    quiet_board quiet_board_pushed (Return quiet_move)
  /\ push_outcome [IndexError; ValueError] false king_move true
       capture_board king_moved_board (Raise ValueError).
Proof.
  assert (HK : int8 (KING repo_models)) by (unfold int8; simpl; lia).
  split.
  - apply (proj1 (push_frame repo_models quiet_move true quiet_board
                    quiet_board_pushed (Return quiet_move) HK)).
    vm_compute. reflexivity.
  - apply (proj2 (push_frame repo_models king_move true capture_board
                    king_moved_board (Raise ValueError) HK)).
    vm_compute. reflexivity.
Defined.

Lemma pop_frame_witness :
  pop_outcome [IndexError] true quiet_board_pushed quiet_board
    (Return quiet_move)
  /\ pop_outcome [IndexError; ValueError] true quiet_board_pushed quiet_board
       (Return quiet_move).
Proof.
  destruct (pop_frame repo_models true quiet_board_pushed quiet_board
              (Return quiet_move)) as [Hd Hc].
  - intros m [= <-]. constructor.
  - split; [apply Hd|apply Hc]; vm_compute; reflexivity.
Defined.

Lemma push_bad_capture_witness :
  Draughts.push repo_models stray_capture_move true quiet_board
  = (with_stack
       (with_pos quiet_board
          (pushed_pos repo_models 8 (_pos quiet_board) 9 13 1 0 []))
       (pushed_stack repo_models 8 stray_capture_move 13 1
          (_moves_stack quiet_board)),
     Raise IndexError)
  /\ (9 <> 13 ->
      array_get (pushed_pos repo_models 8 (_pos quiet_board) 9 13 1 0 []) 9
      = Some (wrap8 0)).
Proof.
  apply (push_bad_capture repo_models quiet_board stray_capture_move true 9 13 1 0).
  - simpl. lia.
  - reflexivity.
  - reflexivity.
  - lia.
  - lia.
  - reflexivity.
  - reflexivity.
  - exists 40. split; [apply list_elem_of_here|reflexivity].
Defined.

Lemma pop_agree_witness :
  Draughts.pop repo_models true quiet_board_pushed
  = Checkers.pop repo_models true quiet_board_pushed.
Proof.
  apply (pop_agree_without_promotion repo_models true quiet_board_pushed).
  - intros m [= <-]. reflexivity.
  - intros m tg v [= <-] [= <-] [= <-]. reflexivity.
  - intros m [= <-]. constructor.
Defined.

Lemma checkers_push_pop_roundtrip_witness :
  exists b',
    Checkers.push repo_models capture_move true capture_board
    = (b', Return capture_move)
    /\ Checkers.pop repo_models true b' = (capture_board, Return capture_move).
Proof.
  apply (checkers_push_pop_roundtrip repo_models capture_board capture_move true
           9 0 (-1)).
  - repeat constructor; unfold int8; lia.
  - reflexivity.
  - reflexivity.
  - lia.
  - lia.
  - reflexivity.
  - reflexivity.
  - reflexivity.
  - repeat constructor; (lia || discriminate).
Defined.

Lemma from_fen_outcomes_witness :
  from_fen_outcome repo_models Codec.BaseBoard out_of_range_class
    (Return out_of_range_board).
Proof.
  apply (from_fen_outcomes repo_models out_of_range_fen).
  vm_compute. reflexivity.
Defined.

Lemma fen_one_colour_refused_witness :
  Codec.from_fen repo_models (Codec.fen black_only_board) Codec.BaseBoard
  = (Codec.BaseBoard, Raise AttributeError).
Proof.
  apply (fen_one_colour_refused repo_models Codec.BaseBoard black_only_board).
  left. apply Forall_forall. repeat constructor; lia.
Defined.

Lemma push_threefold_witness :
  Draughts.is_threefold_repetition repetition_board = true.
Proof.
  apply (push_threefold repo_models (move_of 9 [21; 17]) (move_of 9 [21; 17])
           false repetition_board_before repetition_board).
  - vm_compute. reflexivity.
  - split; [vm_compute; lia|].
    exists (move_of 5 [21; 17]), (move_of 1 [21; 17]). repeat split; reflexivity.
Defined.

Lemma push_raises_index_error_only_witness :
  Board_ok quiet_board
  /\ Draughts.push repo_models (move_of 1 [9; 40]) true quiet_board
     = (quiet_board, Raise IndexError)
  /\ IndexError = IndexError.
Proof.
  assert (Hb : Board_ok quiet_board) by board_ok.
  assert (Hp : Draughts.push repo_models (move_of 1 [9; 40]) true quiet_board
               = (quiet_board, Raise IndexError)) by (vm_compute; reflexivity).
  split; [exact Hb|]. split; [exact Hp|].
  exact (push_raises_index_error_only repo_models (move_of 1 [9; 40]) true
           quiet_board quiet_board IndexError Hb Hp).
Defined.

Lemma populate_stops_at_bad_token_witness :
  Codec.populate_from_list repo_models
    (map (fun sq => Codec.square_token false sq) [0%nat]
     ++ list_ascii_of_string "33" :: [list_ascii_of_string "5"])
    WHITE Codec.BaseBoard
  = (Codec.with_STARTING_POSITION Codec.BaseBoard
       (written repo_models WHITE (fun _ => false) [0%nat]
          (Codec.STARTING_POSITION Codec.BaseBoard)),
     Raise ValueError).
Proof.
  apply (populate_stops_at_bad_token repo_models WHITE (fun _ => false) [0%nat]
           (list_ascii_of_string "33") [list_ascii_of_string "5"] Codec.BaseBoard).
  - repeat constructor; simpl; lia.
  - reflexivity.
  - reflexivity.
Defined.
